(** * WebMind: the sequential retrieval-and-sufficiency loop of [agent.py]

    A shallow embedding of [parse_llm_sufficiency_response], [update_status]
    and [run_search_session] (src/agent.py), of the constants they read
    from src/config.py and of the prompt template of src/prompts.py, followed
    by the properties of the specification that concern them.

    Conventions.
    - A Python [str] is a [string]; an [ascii] stands for the code point of the
      same number, so the strings covered are those whose code points are
      below 256.  On that range [str.lower] and [str.isspace] are the tables
      given in [PyStr].
    - A Python [int] is a [Z]; a length or an [enumerate] counter is a [nat].
    - An exception is an instance of [Exception], which is what the two
      [except Exception] clauses of the loop catch.
    - The collaborators ([scrape_single_url], [query_chat_model], the status
      callback and the Streamlit placeholder) are functions on an abstract
      world; every call is recorded, with its result, in a trace.
    - Calls to the logger are left out. *)

From Stdlib Require Import String Ascii List ZArith Lia Bool Arith.
From Stdlib Require Import DecimalString.
Import ListNotations.

Local Open Scope string_scope.
Local Open Scope Z_scope.

(* ===================================================================== *)
(** ** Python strings *)
(* ===================================================================== *)

Module PyStr.

(** [len(s)] *)
Definition len (s : string) : Z := Z.of_nat (String.length s).

(** [c.isspace()] for a code point below 256: TAB..CR, FS..US, SPACE, NEL
    and NBSP. *)
Definition isspace (c : ascii) : bool :=
  let n := N_of_ascii c in
  ((9 <=? n) && (n <=? 13) || (28 <=? n) && (n <=? 32)
   || (n =? 133) || (n =? 160))%N.

(** [c.lower()] for a code point below 256: A..Z and the Latin-1 capitals
    U+00C0..U+00DE except the multiplication sign U+00D7 move up by 32. *)
Definition lower_char (c : ascii) : ascii :=
  let n := N_of_ascii c in
  if ((65 <=? n) && (n <=? 90)
      || (192 <=? n) && (n <=? 222) && negb (n =? 215))%N
  then ascii_of_N (n + 32) else c.

(** [s.lower()] *)
Fixpoint lower (s : string) : string :=
  match s with
  | EmptyString => EmptyString
  | String c s' => String (lower_char c) (lower s')
  end.

(** [s.lstrip()] *)
Fixpoint lstrip (s : string) : string :=
  match s with
  | EmptyString => EmptyString
  | String c s' => if isspace c then lstrip s' else s
  end.

(** [s.rstrip()] *)
Fixpoint rstrip (s : string) : string :=
  match s with
  | EmptyString => EmptyString
  | String c s' =>
      match rstrip s' with
      | EmptyString => if isspace c then EmptyString else String c EmptyString
      | r => String c r
      end
  end.

(** [s.strip()] *)
Definition strip (s : string) : string := rstrip (lstrip s).

(** [s[n:]] for a natural [n]. *)
Fixpoint drop (n : nat) (s : string) : string :=
  match n, s with
  | O, _ => s
  | S _, EmptyString => EmptyString
  | S n', String _ s' => drop n' s'
  end.

(** [s[:n]] for a natural [n]. *)
Fixpoint take (n : nat) (s : string) : string :=
  match n, s with
  | O, _ => EmptyString
  | S _, EmptyString => EmptyString
  | S n', String c s' => String c (take n' s')
  end.

(** A slice bound [k] of a sequence of length [n], as Python clamps it: a
    negative bound counts from the end and stops at 0, a bound past the end
    stops at [n]. *)
Definition clamp (n : nat) (k : Z) : nat :=
  if k <? 0 then Z.to_nat (Z.max 0 (Z.of_nat n + k))
  else Nat.min n (Z.to_nat k).

(** [s[k:]] *)
Definition slice_from (s : string) (k : Z) : string :=
  drop (clamp (String.length s) k) s.

(** [s[:k]] *)
Definition slice_to (s : string) (k : Z) : string :=
  take (clamp (String.length s) k) s.

(** [s.find(sub)], searching from offset [i]: the lowest index at which
    [sub] starts, or -1. *)
Fixpoint find_from (i : Z) (s sub : string) : Z :=
  if String.prefix sub s then i
  else match s with
       | EmptyString => -1
       | String _ s' => find_from (i + 1) s' sub
       end.

Definition find (s sub : string) : Z := find_from 0 s sub.

(** Truth value of a string: non-empty. *)
Definition truthy (s : string) : bool :=
  match s with EmptyString => false | _ => true end.

(** [str(n)] for an integer. *)
Definition of_int (z : Z) : string := NilZero.string_of_int (Z.to_int z).

(** The double quote and the line feed, which string literals of this file
    do not contain. *)
Definition dq : string := String (ascii_of_nat 34) EmptyString.
Definition nl : string := String (ascii_of_nat 10) EmptyString.

End PyStr.

Import PyStr.

(* ===================================================================== *)
(** ** The response parser (agent.py, lines 19-54) *)
(* ===================================================================== *)

Definition final_answer_marker : string := "final answer:".

(** [parse_llm_sufficiency_response]: the pair (answer or [None], sufficient).
    The logger calls write to the log only. *)
Definition parse_llm_sufficiency_response (response : string)
  : option string * bool :=
  let response_lower := strip (lower response) in
  if String.eqb response_lower "insufficient context" then (None, false)
  else
    let marker_pos := find response_lower final_answer_marker in
    if negb (marker_pos =? -1) then
      let final_answer_text :=
        strip (slice_from response (marker_pos + len final_answer_marker)) in
      if truthy final_answer_text then (Some final_answer_text, true)
      else (None, false)
    else (None, false).


(* ===================================================================== *)
(** ** Configuration and prompt (config.py, prompts.py) *)
(* ===================================================================== *)

(** [MAX_LLM_CONTEXT_LENGTH], the per-model table of config.py. *)
Definition MAX_LLM_CONTEXT_LENGTH : list (string * Z) :=
  [("gemma3:4b", 100000)].

(** The value of [CHAT_MODEL] when the environment does not set it. *)
Definition default_CHAT_MODEL : string := "gemma3:4b".

(** [d.get(key, default)] on such a table, as config.py reads it in its
    own report. *)
Fixpoint dict_get (d : list (string * Z)) (key : string) (default : Z) : Z :=
  match d with
  | [] => default
  | (k, v) :: d' => if String.eqb k key then v else dict_get d' key default
  end.

(** What a Python expression of the loop can evaluate to where an integer
    is expected. *)
Inductive pyobj : Type :=
| PyInt (z : Z)
| PyNone
| PyOther.

(** The attribute names of a [dict] instance (CPython 3.11). *)
Definition dict_attributes : list string :=
  ["__class__"; "__class_getitem__"; "__contains__"; "__delattr__";
   "__delitem__"; "__dir__"; "__doc__"; "__eq__"; "__format__"; "__ge__";
   "__getattribute__"; "__getitem__"; "__getstate__"; "__gt__"; "__hash__";
   "__init__"; "__init_subclass__"; "__ior__"; "__iter__"; "__le__";
   "__len__"; "__lt__"; "__ne__"; "__new__"; "__or__"; "__reduce__";
   "__reduce_ex__"; "__repr__"; "__reversed__"; "__ror__"; "__setattr__";
   "__setitem__"; "__sizeof__"; "__str__"; "__subclasshook__"; "clear";
   "copy"; "fromkeys"; "get"; "items"; "keys"; "pop"; "popitem";
   "setdefault"; "update"; "values"].

(** [getattr(d, name, default)] for a [dict] [d]: attribute lookup on the
    object, which never reads the entries of [d].  The attribute
    [__hash__] of a dict is [None]; the others are methods, a class or a
    docstring. *)
Definition getattr_dict (d : list (string * Z)) (name : string) (default : Z)
  : pyobj :=
  if existsb (String.eqb name) dict_attributes then
    if String.eqb name "__hash__" then PyNone else PyOther
  else PyInt default.

(** An instance of [Exception], with its [str()]. *)
Inductive exn : Type := Exn (msg : string).

(** Result of a call: a value, or a raised [Exception]. *)
Inductive res (A : Type) : Type :=
| Return (a : A)
| Raise (e : exn).
Arguments Return {A} a.
Arguments Raise {A} e.

(** [text[:bound]] where [bound] is any object: an integer clamps, [None]
    keeps everything, anything else is a [TypeError]. *)
Definition str_slice_to (text : string) (bound : pyobj) : res string :=
  match bound with
  | PyInt z => Return (slice_to text z)
  | PyNone => Return text
  | PyOther =>
      Raise (Exn "slice indices must be integers or None or have an __index__ method")
  end.

(** [l[:k]] on a list. *)
Definition list_slice_to {A : Type} (l : list A) (k : Z) : list A :=
  firstn (clamp (length l) k) l.

(** [SUFFICIENCY_CHECK_PROMPT_TEMPLATE.format(query=, url=, scraped_text=)] *)
Definition SUFFICIENCY_CHECK_PROMPT_TEMPLATE_format
    (query url scraped_text : string) : string :=
  String.concat "" [
    nl;
    "Original User Query: "; dq; query; dq; nl;
    nl;
    "Text Scraped from: "; url; nl;
    "--- START SCRAPED TEXT ---"; nl;
    scraped_text; nl;
    "--- END SCRAPED TEXT ---"; nl;
    nl;
    "Instruction: Based *only* on the 'SCRAPED TEXT' above, determine if you can answer the 'Original User Query'."; nl;
    nl;
    "- If the scraped text directly answers the query, respond with "; dq; "Final Answer:"; dq; " followed by your answer."; nl;
    "- If the scraped text is insufficient or irrelevant, respond *only* with: "; dq; "Insufficient context"; dq; nl;
    nl;
    "Important:"; nl;
    "- Use only information from the scraped text, not prior knowledge."; nl;
    "- Do not infer information not explicitly stated in the text."; nl;
    "- If the query asks for specific details missing from the text, it is insufficient."; nl;
    nl;
    "Example 1:"; nl;
    "Query: "; dq; "What is the capital of France?"; dq; " "; nl;
    "Text: "; dq; "France is a country in Europe known for its cuisine and landmarks like the Eiffel Tower."; dq; nl;
    "Response: "; dq; "Insufficient context"; dq; nl;
    nl;
    "Example 2:"; nl;
    "Query: "; dq; "When was the iPhone 15 Pro Max released?"; dq; " "; nl;
    "Text: "; dq; "The iPhone 7 was released in 2016 with no headphone jack."; dq; nl;
    "Response: "; dq; "Insufficient context"; dq; nl ].

(** The attribution line: [f"{final_answer}\n\n---\n*Source: {url}*"]. *)
Definition with_ref (final_answer url : string) : string :=
  final_answer ++ nl ++ nl ++ "---" ++ nl ++ "*Source: " ++ url ++ "*".

(** [f"Could not find a sufficient answer after trying {n} URL(s)."] *)
Definition failure_message_of (n : nat) : string :=
  "Could not find a sufficient answer after trying "
  ++ of_int (Z.of_nat n) ++ " URL(s).".

(* ===================================================================== *)
(** ** Status notices, events and the session monad *)
(* ===================================================================== *)

(** The messages handed to [update_ui], one constructor per f-string of
    [run_search_session], in source order, with the values it interpolates.
    (Their fixed text holds glyphs above U+00FF, so it is not spelled out.) *)
Inductive notice : Type :=
| NAttempt (attempt_count : nat) (max_attempts : Z) (url : string)
| NScraping
| NNoContent (url : string)
| NScrapeOk (content_length : nat)
| NScrapeError (url : string) (scrape_err : exn)
| NAnalyzing
| NFound (url : string)
| NInsufficient (url : string)
| NAnalysisError (url : string) (llm_err : exn)
| NFinished (failure_message : string).

(** One record per call to a collaborator, with what came back.  A fetch
    also records the loop counter and the value of [tried_urls] when the
    call was made; a judge call records the loop counter and the URL. *)
Inductive event : Type :=
| EvNotice (message : notice) (r : res unit)
| EvRender (r : res unit)
| EvFetch (attempt_count : nat) (url : string) (tried_urls : list string)
          (r : res (option string))
| EvJudge (attempt_count : nat) (url : string) (prompt : string)
          (r : res string).

(** The test of line 107, [not scraped_text or not scraped_text.strip()]:
    [None] when it holds (no value, empty or blank text), the text
    otherwise. *)
Definition usable (scraped_text : option string) : option string :=
  match scraped_text with
  | None => None
  | Some t =>
      if negb (truthy t) || negb (truthy (strip t)) then None else Some t
  end.

(** Does a raw verdict make the loop return: [is_sufficient and
    final_answer] after parsing. *)
Definition accepted (llm_response : string) : option string :=
  let '(final_answer, is_sufficient) :=
    parse_llm_sufficiency_response llm_response in
  match final_answer with
  | Some a => if is_sufficient && truthy a then Some a else None
  | None => None
  end.

Section Session.

(** The collaborators.  [status_callback] is [add_status_message];
    [placeholder_info] is the evaluation of
    [status_placeholder.info("\n".join(st.session_state.status_messages))]. *)
Variable World : Type.
Variable scrape_single_url : string -> World -> res (option string) * World.
Variable query_chat_model : string -> World -> res string * World.
Variable status_callback : notice -> World -> res unit * World.
Variable placeholder_info : World -> res unit * World.

(** [CHAT_MODEL], read from the environment by config.py. *)
Variable CHAT_MODEL : string.

Record state : Type := { world : World; trace : list event }.

Definition M (A : Type) : Type := state -> res A * state.

Definition ret {A : Type} (a : A) : M A := fun s => (Return a, s).

Definition bind {A B : Type} (m : M A) (k : A -> M B) : M B :=
  fun s => match m s with
           | (Return a, s') => k a s'
           | (Raise e, s') => (Raise e, s')
           end.

(** [try: body  except Exception as e: handler e] *)
Definition try_except {A : Type} (body : M A) (handler : exn -> M A) : M A :=
  fun s => match body s with
           | (Return a, s') => (Return a, s')
           | (Raise e, s') => handler e s'
           end.

(** A step that touches neither the world nor the trace. *)
Definition lift {A : Type} (r : res A) : M A := fun s => (r, s).

(** A collaborator call: run it on the world and append the event. *)
Definition call {A : Type} (f : World -> res A * World)
    (ev : res A -> event) : M A :=
  fun s => let '(r, w') := f (world s) in
           (r, {| world := w'; trace := trace s ++ [ev r] |}).

Notation "x <- m ;; k" := (bind m (fun x => k))
  (at level 61, m at next level, right associativity).
Notation "m ;;; k" := (bind m (fun _ => k))
  (at level 61, right associativity).

(** [update_status] (agent.py, lines 57-67) *)
Definition update_status (message : notice) : M unit :=
  call (status_callback message) (EvNotice message) ;;;
  call placeholder_info EvRender.

Definition update_ui := update_status.

(** Step 1 of the loop body (lines 103-115): [None] is [continue],
    [Some scraped_text] goes on to step 2. *)
Definition scrape_step (attempt_count : nat) (url : string)
    (tried_urls : list string) : M (option string) :=
  try_except
    (scraped_text <- call (scrape_single_url url)
                          (EvFetch attempt_count url tried_urls) ;;
     match usable scraped_text with
     | None => update_ui (NNoContent url) ;;; ret None
     | Some t => update_ui (NScrapeOk (String.length t)) ;;; ret (Some t)
     end)
    (fun scrape_err => update_ui (NScrapeError url scrape_err) ;;; ret None).

(** Step 2 of the loop body (lines 117-141): [Some answer] is the [return]
    of line 136, [None] falls through to the next iteration. *)
Definition analyze_step (query : string) (attempt_count : nat) (url : string)
    (scraped_text : string) : M (option string) :=
  try_except
    (let max_context_length :=
       getattr_dict MAX_LLM_CONTEXT_LENGTH CHAT_MODEL 15000 in
     sliced <- lift (str_slice_to scraped_text max_context_length) ;;
     let prompt := SUFFICIENCY_CHECK_PROMPT_TEMPLATE_format query url sliced in
     llm_response <- call (query_chat_model prompt)
                          (EvJudge attempt_count url prompt) ;;
     match accepted llm_response with
     | Some final_answer =>
         update_ui (NFound url) ;;; ret (Some (with_ref final_answer url))
     | None => update_ui (NInsufficient url) ;;; ret None
     end)
    (fun llm_err => update_ui (NAnalysisError url llm_err) ;;; ret None).

(** One iteration of the [for] loop, after [tried_urls.append(url)]. *)
Definition attempt (query : string) (max_attempts : Z) (attempt_count : nat)
    (url : string) (tried_urls : list string) : M (option string) :=
  update_ui (NAttempt attempt_count max_attempts url) ;;;
  update_ui NScraping ;;;
  scraped <- scrape_step attempt_count url tried_urls ;;
  match scraped with
  | None => ret None
  | Some scraped_text =>
      update_ui NAnalyzing ;;;
      analyze_step query attempt_count url scraped_text
  end.

(** [for attempt_count, url in enumerate(urls_to_try, attempt_count)],
    followed by step 3 (lines 143-147). *)
Fixpoint for_loop (query : string) (max_attempts : Z) (attempt_count : nat)
    (urls_to_try tried_urls : list string) : M (string * list string) :=
  match urls_to_try with
  | [] =>
      let failure_message := failure_message_of (length tried_urls) in
      update_ui (NFinished failure_message) ;;;
      ret (failure_message, tried_urls)
  | url :: rest =>
      let tried_urls := (tried_urls ++ [url])%list in
      answered <- attempt query max_attempts attempt_count url tried_urls ;;
      match answered with
      | Some final_answer_with_ref => ret (final_answer_with_ref, tried_urls)
      | None => for_loop query max_attempts (S attempt_count) rest tried_urls
      end
  end.

(** [run_search_session] (agent.py, lines 70-147) *)
Definition run_search_session (query : string) (urls : list string)
    (max_attempts : Z) : M (string * list string) :=
  let tried_urls := [] in
  let urls_to_try := list_slice_to urls max_attempts in
  for_loop query max_attempts 1%nat urls_to_try tried_urls.

(** A session starts with an empty trace. *)
Definition start (w : World) : state := {| world := w; trace := [] |}.

End Session.

Arguments world {World} s.
Arguments trace {World} s.
Arguments start {World} w.

(* ===================================================================== *)
(** ** Reading a trace *)
(* ===================================================================== *)

(** The loop counter of a fetch or judge call. *)
Definition ev_attempt (e : event) : option nat :=
  match e with
  | EvFetch c _ _ _ | EvJudge c _ _ _ => Some c
  | _ => None
  end.

(** The URL of a fetch or judge call. *)
Definition ev_url (e : event) : option string :=
  match e with
  | EvFetch _ url _ _ | EvJudge _ url _ _ => Some url
  | _ => None
  end.

Definition is_judge (e : event) : bool :=
  match e with EvJudge _ _ _ _ => true | _ => false end.

(** The answer of a judge call whose verdict the loop accepts. *)
Definition sufficient_ev (e : event) : option string :=
  match e with
  | EvJudge _ _ _ (Return llm_response) => accepted llm_response
  | _ => None
  end.

(** A sink call that raised. *)
Definition sink_raised (e : event) : option exn :=
  match e with
  | EvNotice _ (Raise err) | EvRender (Raise err) => Some err
  | _ => None
  end.

(** The notice that reports a fetch or judge call that raised. *)
Definition failure_notice (e : event) : option notice :=
  match e with
  | EvFetch _ url _ (Raise err) => Some (NScrapeError url err)
  | EvJudge _ url _ (Raise err) => Some (NAnalysisError url err)
  | _ => None
  end.

(** The URLs fetched, in call order. *)
Fixpoint fetched_urls (evs : list event) : list string :=
  match evs with
  | [] => []
  | EvFetch _ url _ _ :: evs' => url :: fetched_urls evs'
  | _ :: evs' => fetched_urls evs'
  end.

(** The two events of an [update_ui] call that went through. *)
Definition said (m : notice) : list event :=
  [EvNotice m (Return tt); EvRender (Return tt)].

(** The answer that the specification's parser rule describes: what follows
    the first occurrence of the marker in the lower-cased response, taken
    from the response itself and trimmed. *)
Definition answer_after_marker (response : string) : string :=
  strip (slice_from response
           (find (lower response) final_answer_marker
            + len final_answer_marker)).

(** A string without trailing blank. *)
Definition solid (m : string) : Prop := rstrip m = m.

(** [n] copies of a character. *)
Fixpoint replicate (n : nat) (c : ascii) : string :=
  match n with
  | O => EmptyString
  | S n' => String c (replicate n' c)
  end.

(* ===================================================================== *)
(** ** Scripted collaborators for concrete sessions *)
(* ===================================================================== *)

Module Demo.

(** Pages: urlA cannot be fetched, urlB and urlC have text, urlD is blank,
    anything else yields no value. *)
Definition scrape (url : string) (w : unit) : res (option string) * unit :=
  (if String.eqb url "urlA" then Raise (Exn "renderer timeout")
   else if String.eqb url "urlB" then Return (Some "text of page B")
   else if String.eqb url "urlC" then Return (Some "text of page C")
   else if String.eqb url "urlD" then Return (Some "   ")
   else Return None, w).

(** A judge that fails on urlB, answers on urlC and declines elsewhere. *)
Definition judge (prompt : string) (w : unit) : res string * unit :=
  (if negb (find prompt "urlB" =? -1) then Raise (Exn "Model query failed")
   else if negb (find prompt "urlC" =? -1) then Return "Final Answer: Y"
   else Return "Insufficient context", w).

(** A judge that always declines. *)
Definition judge_no (prompt : string) (w : unit) : res string * unit :=
  (Return "Insufficient context", w).

(** A sink that works. *)
Definition callback (m : notice) (w : unit) : res unit * unit := (Return tt, w).
Definition info (w : unit) : res unit * unit := (Return tt, w).

(** A sink whose callback always raises. *)
Definition broken_callback (m : notice) (w : unit) : res unit * unit :=
  (Raise (Exn "sink unavailable"), w).

(** A sink whose callback raises on the success notice only. *)
Definition picky_callback (m : notice) (w : unit) : res unit * unit :=
  (match m with
   | NFound _ => Raise (Exn "sink unavailable")
   | _ => Return tt
   end, w).

Definition session := run_search_session unit scrape judge callback info.

End Demo.

(* ===================================================================== *)
(** ** What a session looks like when the sink works *)
(* ===================================================================== *)

(** The status sink honours its contract: neither the callback nor the
    placeholder update raises. *)
Definition sink_ok {World : Type}
    (status_callback : notice -> World -> res unit * World)
    (placeholder_info : World -> res unit * World) : Prop :=
  (forall m w, fst (status_callback m w) = Return tt)
  /\ (forall w, fst (placeholder_info w) = Return tt).

(** A computation from which only a failure of the sink escapes: when it
    raises, the last call made is a sink call that raised that exception. *)
Definition only_sink {World A : Type} (m : M World A) : Prop :=
  forall s e s',
    m s = (Raise e, s') ->
    exists evs ev, trace s' = (evs ++ [ev])%list /\ sink_raised ev = Some e.

(** No sink call of the trace raised. *)
Definition quiet (evs : list event) : Prop :=
  forall ev, In ev evs -> sink_raised ev = None.

(** A sink with the same effect on the world that never raises. *)
Definition quiet_callback {World : Type}
    (status_callback : notice -> World -> res unit * World)
  : notice -> World -> res unit * World :=
  fun m w => (Return tt, snd (status_callback m w)).

Definition quiet_info {World : Type}
    (placeholder_info : World -> res unit * World)
  : World -> res unit * World :=
  fun w => (Return tt, snd (placeholder_info w)).

(** Two computations that do the same whenever what the first appends to
    the trace is quiet. *)
Definition agree {World A : Type} (m m' : M World A) : Prop :=
  forall s evs,
    trace (snd (m s)) = (trace s ++ evs)%list -> quiet evs -> m s = m' s.

(** A computation only appends to the trace. *)
Definition extends {World A : Type} (m : M World A) : Prop :=
  forall s, exists evs, trace (snd (m s)) = (trace s ++ evs)%list.

(** The events of one loop iteration and its outcome ([Some] answer when
    the function returns from it), one rule per path through the body. *)
Inductive attempt_trace (CHAT_MODEL query : string) (max_attempts : Z)
    (c : nat) (url : string) (tried : list string)
  : list event -> option string -> Prop :=
| AT_fetch_raised (err : exn) :
    attempt_trace CHAT_MODEL query max_attempts c url tried
      (said (NAttempt c max_attempts url) ++ said NScraping
       ++ [EvFetch c url tried (Raise err)]
       ++ said (NScrapeError url err))%list
      None
| AT_no_content (r : option string) :
    usable r = None ->
    attempt_trace CHAT_MODEL query max_attempts c url tried
      (said (NAttempt c max_attempts url) ++ said NScraping
       ++ [EvFetch c url tried (Return r)]
       ++ said (NNoContent url))%list
      None
| AT_slice_raised (r : option string) (t : string) (err : exn) :
    usable r = Some t ->
    str_slice_to t (getattr_dict MAX_LLM_CONTEXT_LENGTH CHAT_MODEL 15000)
      = Raise err ->
    attempt_trace CHAT_MODEL query max_attempts c url tried
      (said (NAttempt c max_attempts url) ++ said NScraping
       ++ [EvFetch c url tried (Return r)]
       ++ said (NScrapeOk (String.length t)) ++ said NAnalyzing
       ++ said (NAnalysisError url err))%list
      None
| AT_judge_raised (r : option string) (t sliced : string) (err : exn) :
    usable r = Some t ->
    str_slice_to t (getattr_dict MAX_LLM_CONTEXT_LENGTH CHAT_MODEL 15000)
      = Return sliced ->
    attempt_trace CHAT_MODEL query max_attempts c url tried
      (said (NAttempt c max_attempts url) ++ said NScraping
       ++ [EvFetch c url tried (Return r)]
       ++ said (NScrapeOk (String.length t)) ++ said NAnalyzing
       ++ [EvJudge c url
             (SUFFICIENCY_CHECK_PROMPT_TEMPLATE_format query url sliced)
             (Raise err)]
       ++ said (NAnalysisError url err))%list
      None
| AT_insufficient (r : option string) (t sliced llm_response : string) :
    usable r = Some t ->
    str_slice_to t (getattr_dict MAX_LLM_CONTEXT_LENGTH CHAT_MODEL 15000)
      = Return sliced ->
    accepted llm_response = None ->
    attempt_trace CHAT_MODEL query max_attempts c url tried
      (said (NAttempt c max_attempts url) ++ said NScraping
       ++ [EvFetch c url tried (Return r)]
       ++ said (NScrapeOk (String.length t)) ++ said NAnalyzing
       ++ [EvJudge c url
             (SUFFICIENCY_CHECK_PROMPT_TEMPLATE_format query url sliced)
             (Return llm_response)]
       ++ said (NInsufficient url))%list
      None
| AT_sufficient (r : option string) (t sliced llm_response a : string) :
    usable r = Some t ->
    str_slice_to t (getattr_dict MAX_LLM_CONTEXT_LENGTH CHAT_MODEL 15000)
      = Return sliced ->
    accepted llm_response = Some a ->
    attempt_trace CHAT_MODEL query max_attempts c url tried
      (said (NAttempt c max_attempts url) ++ said NScraping
       ++ [EvFetch c url tried (Return r)]
       ++ said (NScrapeOk (String.length t)) ++ said NAnalyzing
       ++ [EvJudge c url
             (SUFFICIENCY_CHECK_PROMPT_TEMPLATE_format query url sliced)
             (Return llm_response)]
       ++ said (NFound url))%list
      (Some (with_ref a url)).

(** The events of the loop from counter [c] on, with what the function
    returns. *)
Inductive loop_trace (CHAT_MODEL query : string) (max_attempts : Z)
  : nat -> list string -> list string -> list event
    -> string * list string -> Prop :=
| LT_exhausted (c : nat) (tried : list string) :
    loop_trace CHAT_MODEL query max_attempts c [] tried
      (said (NFinished (failure_message_of (length tried))))
      (failure_message_of (length tried), tried)
| LT_answered (c : nat) (url : string) (rest tried : list string)
    (evs : list event) (answer : string) :
    attempt_trace CHAT_MODEL query max_attempts c url (tried ++ [url])%list
      evs (Some answer) ->
    loop_trace CHAT_MODEL query max_attempts c (url :: rest) tried
      evs (answer, (tried ++ [url])%list)
| LT_next (c : nat) (url : string) (rest tried : list string)
    (evs evs' : list event) (out : string * list string) :
    attempt_trace CHAT_MODEL query max_attempts c url (tried ++ [url])%list
      evs None ->
    loop_trace CHAT_MODEL query max_attempts (S c) rest
      (tried ++ [url])%list evs' out ->
    loop_trace CHAT_MODEL query max_attempts c (url :: rest) tried
      (evs ++ evs')%list out.

(* ===================================================================== *)
(** * The modules around the loop

    The rest of the definitions embeds what the loop calls and what calls
    it: the judge's client (src/llm_service.py), the web search and the
    page fetch (src/web_tools.py), the spider that the fetch runs
    (src/aiwebsearch/aiwebsearch/spiders/myspider.py) and the page script
    (src/streamlit_app.py).

    Conventions, besides those above.
    - Values whose type the code tests at run time ([isinstance],
      [hasattr], truth value, [len]) are [pyval]s.
    - Where the code tells exceptions apart by class, a raised exception is
      a [raised], with its class, and a result is a [result].
    - What belongs to a library or to the system (the Ollama client, the
      search provider, the file system, the crawler process, [urlparse],
      readability, lxml, the Streamlit widgets, the clock) is a variable
      of the section that embeds the code calling it. *)
(* ===================================================================== *)

(** A string that does not begin with a blank. *)
Definition flush_left (s : string) : Prop := lstrip s = s.


(* ===================================================================== *)
(** ** Python values and exceptions with their class *)
(* ===================================================================== *)

(** The values that cross the collaborators' interfaces: what [json.load]
    builds (floats apart) and plain objects with attributes.  A dict has
    string keys and is given by its entries, the first entry for a key
    being the one that counts. *)
#[warnings="-register-all"] Inductive pyval : Type :=
| VNone
| VBool (b : bool)
| VInt (z : Z)
| VStr (s : string)
| VList (items : list pyval)
| VDict (entries : list (string * pyval))
| VObj (class_name : string) (attrs : list (string * pyval)).

(** [bool(v)] *)
Definition py_bool (v : pyval) : bool :=
  match v with
  | VNone => false
  | VBool b => b
  | VInt z => negb (z =? 0)
  | VStr s => truthy s
  | VList items => match items with [] => false | _ => true end
  | VDict entries => match entries with [] => false | _ => true end
  | VObj _ _ => true
  end.

(** [type(v).__name__] *)
Definition type_name (v : pyval) : string :=
  match v with
  | VNone => "NoneType"
  | VBool _ => "bool"
  | VInt _ => "int"
  | VStr _ => "str"
  | VList _ => "list"
  | VDict _ => "dict"
  | VObj class_name _ => class_name
  end.

(** Lookup in the entries of a dict or the attributes of an object. *)
Fixpoint entries_get (key : string) (entries : list (string * pyval))
  : option pyval :=
  match entries with
  | [] => None
  | (k, v) :: rest => if String.eqb k key then Some v else entries_get key rest
  end.

(** [getattr(v, name)] when it is there, for a name that no built-in type
    defines (as [message] and [content]): only an object has it. *)
Definition attr (v : pyval) (name : string) : option pyval :=
  match v with
  | VObj _ attrs => entries_get name attrs
  | _ => None
  end.

(** [v[key]] when [isinstance(v, dict) and key in v]. *)
Definition item (v : pyval) (key : string) : option pyval :=
  match v with
  | VDict entries => entries_get key entries
  | _ => None
  end.

(** The classes of exception the collaborators tell apart; [OSError] and
    [ValueError] stand for their subclasses too, [JSONDecodeError] and the
    backend's [ResponseError] apart. *)
Inductive exn_class : Type :=
| ValueError
| RuntimeError
| TypeError
| OSError
| JSONDecodeError
| ResponseError (status_code : Z)
| OtherException.

(** A raised instance of [Exception]: its class and its [str()]. *)
Inductive raised : Type := Raised (cls : exn_class) (text : string).

Definition raised_class (e : raised) : exn_class :=
  match e with Raised cls _ => cls end.

Definition raised_text (e : raised) : string :=
  match e with Raised _ text => text end.

Inductive result (A : Type) : Type :=
| Done (a : A)
| Fail (e : raised).
Arguments Done {A} a.
Arguments Fail {A} e.

(** [len(v)] *)
Definition py_len (v : pyval) : result Z :=
  match v with
  | VStr s => Done (len s)
  | VList items => Done (Z.of_nat (length items))
  | VDict entries => Done (Z.of_nat (length entries))
  | _ => Fail (Raised TypeError
                 ("object of type '" ++ type_name v ++ "' has no len()"))
  end.

(* ===================================================================== *)
(** ** The judge's client (llm_service.py) *)
(* ===================================================================== *)

(** [extract_content] (lines 22-47) *)
Definition extract_content (response : pyval) : result pyval :=
  match match attr response "message" with
        | Some message => attr message "content"
        | None => None
        end with
  | Some content => Done content
  | None =>
      match match item response "message" with
            | Some message => item message "content"
            | None => None
            end with
      | Some content => Done content
      | None =>
          Fail (Raised RuntimeError
                  "Failed to parse model response (unknown format)")
      end
  end.

Section LlmService.

(** The backend: [ollama.chat(model=, messages=[{role: user, content:
    prompt}], options={temperature: })], and the configured model. *)
Variable World : Type.
Variable Temperature : Type.
Variable ollama_chat :
  string -> string -> Temperature -> World -> result pyval * World.
Variable CHAT_MODEL : string.

(** [model_name or CHAT_MODEL] *)
Definition active_model_of (model_name : option string) : string :=
  match model_name with
  | Some name => if truthy name then name else CHAT_MODEL
  | None => CHAT_MODEL
  end.

(** What the two [except] clauses of lines 93-101 raise. *)
Definition query_failure (active_model : string) (e : raised) : raised :=
  match raised_class e with
  | ResponseError status_code =>
      Raised RuntimeError
        ("Ollama API error (Status: " ++ of_int status_code ++ "). "
         ++ "Check if Ollama server is running and '" ++ active_model
         ++ "' is available.")
  | _ => Raised RuntimeError ("Model query failed: " ++ raised_text e)
  end.

(** [query_chat_model] (lines 50-101) *)
Definition query_chat_model (prompt : string) (model_name : option string)
    (temperature : Temperature) (w : World) : result pyval * World :=
  if negb (truthy prompt) || negb (truthy (strip prompt)) then
    (Fail (Raised ValueError "Prompt cannot be empty"), w)
  else
    let active_model := active_model_of model_name in
    let '(response, w') := ollama_chat active_model prompt temperature w in
    (match response with
     | Fail e => Fail (query_failure active_model e)
     | Done response =>
         match extract_content response with
         | Fail e => Fail (query_failure active_model e)
         | Done content =>
             match py_len content with
             | Fail e => Fail (query_failure active_model e)
             | Done _ => Done content
             end
         end
     end, w').

End LlmService.


(* ===================================================================== *)
(** ** Web search and page fetch (web_tools.py) *)
(* ===================================================================== *)

(** [[result['href'] for result in results if isinstance(result, dict)
    and 'href' in result and result['href']]] (lines 53-54) *)
Fixpoint hrefs (results : list pyval) : list pyval :=
  match results with
  | [] => []
  | result :: rest =>
      match item result "href" with
      | Some href => if py_bool href then href :: hrefs rest else hrefs rest
      | None => hrefs rest
      end
  end.

(** The memory of [@lru_cache(maxsize=100)]: the calls remembered with
    their results, most recently used first.  A call is known by its two
    arguments (the page script always passes them the same way, the second
    by keyword). *)
Definition search_cache : Type := list ((string * Z) * list pyval).

Definition key_eqb (k k' : string * Z) : bool :=
  String.eqb (fst k) (fst k') && (snd k =? snd k').

Fixpoint cache_find (k : string * Z) (c : search_cache)
  : option (list pyval) :=
  match c with
  | [] => None
  | (k', urls) :: rest => if key_eqb k' k then Some urls else cache_find k rest
  end.

Fixpoint cache_remove (k : string * Z) (c : search_cache) : search_cache :=
  match c with
  | [] => []
  | (k', urls) :: rest =>
      if key_eqb k' k then rest else (k', urls) :: cache_remove k rest
  end.

Definition lru_maxsize : nat := 100.

Section WebSearch.

(** [with DDGS() as ddgs: list(ddgs.text(query, max_results=num_results))] *)
Variable World : Type.
Variable ddgs_text : string -> Z -> World -> result (list pyval) * World.

(** The body of [perform_web_search] (lines 35-65): any exception of the
    search gives the empty list. *)
Definition perform_web_search_body (query : string) (num_results : Z)
    (w : World) : list pyval * World :=
  let '(results, w') := ddgs_text query num_results w in
  (match results with
   | Done results => hrefs results
   | Fail _ => []
   end, w').

(** [perform_web_search] as decorated: a remembered call is answered from
    the cache and becomes the most recent; a new one runs the body, is
    remembered, and pushes out the least recently used entry when the cache
    is full. *)
Definition perform_web_search (query : string) (num_results : Z)
    (c : search_cache) (w : World) : list pyval * search_cache * World :=
  let k := (query, num_results) in
  match cache_find k c with
  | Some urls => (urls, (k, urls) :: cache_remove k c, w)
  | None =>
      let '(urls, w') := perform_web_search_body query num_results w in
      (urls, firstn lru_maxsize ((k, urls) :: c), w')
  end.

End WebSearch.

(** The process that [subprocess.run] returns. *)
Record process : Type :=
  { returncode : Z; stdout : string; stderr : string }.

(** What [with tempfile.NamedTemporaryFile(...) as temp_f: temp_file_path =
    temp_f.name] can do: fail before there is a file, fail on closing it
    once [temp_file_path] is set, or leave the file. *)
Inductive tempfile_outcome : Type :=
| TmpFailed (e : raised)
| TmpCloseFailed (path : string) (e : raised)
| TmpCreated (path : string).

(** The calls of [scrape_single_url] on the system, with what came back. *)
Inductive fs_event : Type :=
| FsIsDir (r : result bool)
| FsTempfile (r : tempfile_outcome)
| FsRun (command : string) (r : result process)
| FsExists (path : string) (r : result bool)
| FsStat (path : string) (r : result Z)
| FsLoad (path : string) (r : result pyval)
| FsRead (path : string) (r : result string)
| FsRemove (path : string) (r : result unit).

(** [f'scrapy crawl myspider -a start_urls="{url}" -O "{temp_file_path}"'] *)
Definition scrapy_command (url temp_file_path : string) : string :=
  "scrapy crawl myspider -a start_urls=" ++ dq ++ url ++ dq
  ++ " -O " ++ dq ++ temp_file_path ++ dq.

(** Lines 138-151: the text of the first scraped item.  A text that is
    there but falsy gives the empty string; the length that the debug
    message takes of a truthy text raises when it has none. *)
Definition extract_text (scraped_data : pyval) : result (option pyval) :=
  match scraped_data with
  | VList (first_item :: _) =>
      match item first_item "text" with
      | Some extracted_text =>
          if py_bool extracted_text then
            match py_len extracted_text with
            | Done _ => Done (Some extracted_text)
            | Fail e => Fail e
            end
          else Done (Some (VStr ""))
      | None => Done None
      end
  | _ => Done None
  end.

Section Scrape.

Variable World : Type.
Variable is_dir : World -> result bool * World.
Variable named_temporary_file : World -> tempfile_outcome * World.
Variable subprocess_run : string -> World -> result process * World.
Variable path_exists : string -> World -> result bool * World.
Variable stat_size : string -> World -> result Z * World.
Variable json_load : string -> World -> result pyval * World.
Variable read_text : string -> World -> result string * World.
Variable os_remove : string -> World -> result unit * World.

Record fs_state : Type := { fs_world : World; fs_trace : list fs_event }.

Definition F (A : Type) : Type := fs_state -> result A * fs_state.

Definition fret {A : Type} (a : A) : F A := fun s => (Done a, s).

Definition fbind {A B : Type} (m : F A) (k : A -> F B) : F B :=
  fun s => match m s with
           | (Done a, s') => k a s'
           | (Fail e, s') => (Fail e, s')
           end.

Definition fcall {A : Type} (f : World -> result A * World)
    (ev : result A -> fs_event) : F A :=
  fun s => let '(r, w') := f (fs_world s) in
           (r, {| fs_world := w'; fs_trace := fs_trace s ++ [ev r] |}).

Notation "x <- m ;; k" := (fbind m (fun x => k))
  (at level 61, m at next level, right associativity).

(** Lines 95-151, once the temporary file is there. *)
Definition crawl_and_read (url temp_file_path : string)
  : F (option pyval) :=
  let command := scrapy_command url temp_file_path in
  proc <- fcall (subprocess_run command) (FsRun command) ;;
  if negb (returncode proc =? 0) then fret None
  else
    present <- fcall (path_exists temp_file_path) (FsExists temp_file_path) ;;
    if negb present then fret None
    else
      size <- fcall (stat_size temp_file_path) (FsStat temp_file_path) ;;
      if size =? 0 then fret None
      else
        scraped_data <- fcall (json_load temp_file_path)
                              (FsLoad temp_file_path) ;;
        fun s => (extract_text scraped_data, s).

(** Lines 156-161: the look at the file that the [JSONDecodeError] handler
    takes for the log, under its own [try ... except Exception: pass]. *)
Definition log_invalid_json (temp_file_path : option string)
    (s : fs_state) : fs_state :=
  match temp_file_path with
  | Some path =>
      if truthy path then
        snd ((present <- fcall (path_exists path) (FsExists path) ;;
              if present then
                size <- fcall (stat_size path) (FsStat path) ;;
                if size <? 1024 then
                  text <- fcall (read_text path) (FsRead path) ;;
                  fret tt
                else fret tt
              else fret tt) s)
      else s
  | None => s
  end.

(** The [finally] clause (lines 166-173): [None] when it completes, the
    exception when it raises. *)
Definition cleanup (temp_file_path : option string) (s : fs_state)
  : option raised * fs_state :=
  match temp_file_path with
  | Some path =>
      if truthy path then
        match fcall (path_exists path) (FsExists path) s with
        | (Done true, s1) =>
            match fcall (os_remove path) (FsRemove path) s1 with
            | (Done _, s2) => (None, s2)
            | (Fail e, s2) =>
                match raised_class e with
                | OSError => (None, s2)
                | _ => (Some e, s2)
                end
            end
        | (Done false, s1) => (None, s1)
        | (Fail e, s1) => (Some e, s1)
        end
      else (None, s)
  | None => (None, s)
  end.

(** [scrape_single_url] (lines 68-173) *)
Definition scrape_single_url (url : string) : F (option pyval) :=
  if negb (truthy url) then fret None
  else
    scrapy_dir_ok <- fcall is_dir FsIsDir ;;
    if negb scrapy_dir_ok then fret None
    else
      fun s =>
        let '(tmp, w1) := named_temporary_file (fs_world s) in
        let s1 := {| fs_world := w1;
                     fs_trace := fs_trace s ++ [FsTempfile tmp] |} in
        let temp_file_path :=
          match tmp with
          | TmpFailed _ => None
          | TmpCloseFailed path _ | TmpCreated path => Some path
          end in
        let '(tried, s2) :=
          match tmp with
          | TmpFailed e | TmpCloseFailed _ e => (Fail e, s1)
          | TmpCreated path => crawl_and_read url path s1
          end in
        let '(value, s3) :=
          match tried with
          | Done value => (value, s2)
          | Fail e =>
              match raised_class e with
              | JSONDecodeError => (None, log_invalid_json temp_file_path s2)
              | _ => (None, s2)
              end
          end in
        match cleanup temp_file_path s3 with
        | (None, s4) => (Done value, s4)
        | (Some e, s4) => (Fail e, s4)
        end.

Definition fs_start (w : World) : fs_state :=
  {| fs_world := w; fs_trace := [] |}.

End Scrape.

Arguments fs_world {World} _.
Arguments fs_trace {World} _.
Arguments fs_start {World} w.

(** The calls of lines 95-151 and what they lead to, one rule per way
    through them. *)
Inductive crawl_trace (url path : string)
  : list fs_event -> result (option pyval) -> Prop :=
| CT_run_failed (e : raised) :
    crawl_trace url path
      [FsRun (scrapy_command url path) (Fail e)] (Fail e)
| CT_exit_status (proc : process) :
    returncode proc <> 0 ->
    crawl_trace url path
      [FsRun (scrapy_command url path) (Done proc)] (Done None)
| CT_exists_failed (proc : process) (e : raised) :
    returncode proc = 0 ->
    crawl_trace url path
      [FsRun (scrapy_command url path) (Done proc);
       FsExists path (Fail e)] (Fail e)
| CT_no_output (proc : process) :
    returncode proc = 0 ->
    crawl_trace url path
      [FsRun (scrapy_command url path) (Done proc);
       FsExists path (Done false)] (Done None)
| CT_stat_failed (proc : process) (e : raised) :
    returncode proc = 0 ->
    crawl_trace url path
      [FsRun (scrapy_command url path) (Done proc);
       FsExists path (Done true); FsStat path (Fail e)] (Fail e)
| CT_empty_output (proc : process) :
    returncode proc = 0 ->
    crawl_trace url path
      [FsRun (scrapy_command url path) (Done proc);
       FsExists path (Done true); FsStat path (Done 0)] (Done None)
| CT_load_failed (proc : process) (size : Z) (e : raised) :
    returncode proc = 0 -> size <> 0 ->
    crawl_trace url path
      [FsRun (scrapy_command url path) (Done proc);
       FsExists path (Done true); FsStat path (Done size);
       FsLoad path (Fail e)] (Fail e)
| CT_loaded (proc : process) (size : Z) (scraped_data : pyval) :
    returncode proc = 0 -> size <> 0 ->
    crawl_trace url path
      [FsRun (scrapy_command url path) (Done proc);
       FsExists path (Done true); FsStat path (Done size);
       FsLoad path (Done scraped_data)] (extract_text scraped_data).

(** A trace that ends with the [finally] clause at work on [path]: the
    check that the file exists and, when it does, its removal. *)
Definition ends_with_cleanup (path : string) (evs : list fs_event) : Prop :=
  exists before,
    evs = (before ++ [FsExists path (Done false)])%list
    \/ (exists e, evs = (before ++ [FsExists path (Fail e)])%list)
    \/ (exists r, evs = (before ++ [FsExists path (Done true);
                                    FsRemove path r])%list).

(** The value of [temp_file_path] after the [with] statement. *)
Definition temp_path_of (tmp : tempfile_outcome) : option string :=
  match tmp with
  | TmpFailed _ => None
  | TmpCloseFailed path _ | TmpCreated path => Some path
  end.

(** The calls of the [finally] clause, with the exception it lets out. *)
Definition cleanup_trace (temp_file_path : option string)
    (evs : list fs_event) (escaped : option raised) : Prop :=
  match temp_file_path with
  | Some path =>
      if truthy path then
        (evs = [FsExists path (Done false)] /\ escaped = None)
        \/ (exists e, evs = [FsExists path (Fail e)] /\ escaped = Some e)
        \/ (exists r,
              evs = [FsExists path (Done true); FsRemove path r]
              /\ escaped = match r with
                           | Done _ => None
                           | Fail e =>
                               match raised_class e with
                               | OSError => None
                               | _ => Some e
                               end
                           end)
      else evs = [] /\ escaped = None
  | None => evs = [] /\ escaped = None
  end.

(** The calls of the [try] block once [NamedTemporaryFile] has answered. *)
Definition try_trace (url : string) (tmp : tempfile_outcome)
    (evs : list fs_event) (tried : result (option pyval)) : Prop :=
  match tmp with
  | TmpFailed e | TmpCloseFailed _ e => evs = [] /\ tried = Fail e
  | TmpCreated path => crawl_trace url path evs tried
  end.

(** The value that the [try] statement returns: what the block returned,
    or [None] from either [except] clause. *)
Definition value_after_except (tried : result (option pyval))
  : option pyval :=
  match tried with
  | Done value => value
  | Fail _ => None
  end.

(** The events of the look at invalid JSON. *)
Definition peek_event (ev : fs_event) : bool :=
  match ev with
  | FsExists _ _ | FsStat _ _ | FsRead _ _ => true
  | _ => false
  end.

(** Scripted system calls for concrete fetches. *)
Module DemoFs.

Definition page : pyval :=
  VList [VDict [("url", VStr "http://example.com");
                ("text", VStr "Example Domain")]].

Definition is_dir (w : unit) : result bool * unit := (Done true, w).

Definition is_dir_denied (w : unit) : result bool * unit :=
  (Fail (Raised OSError "Permission denied"), w).

Definition named_temporary_file (w : unit) : tempfile_outcome * unit :=
  (TmpCreated "/tmp/tmpab12.json", w).

Definition subprocess_run (command : string) (w : unit)
  : result process * unit :=
  (Done {| returncode := 0; stdout := ""; stderr := "" |}, w).

Definition subprocess_run_exit2 (command : string) (w : unit)
  : result process * unit :=
  (Done {| returncode := 2; stdout := ""; stderr := "Usage" |}, w).

Definition path_exists (path : string) (w : unit) : result bool * unit :=
  (Done true, w).

Definition stat_size (path : string) (w : unit) : result Z * unit :=
  (Done 64, w).

Definition json_load (path : string) (w : unit) : result pyval * unit :=
  (Done page, w).

Definition read_text (path : string) (w : unit) : result string * unit :=
  (Done "", w).

Definition os_remove (path : string) (w : unit) : result unit * unit :=
  (Done tt, w).

Definition scrape :=
  scrape_single_url unit is_dir named_temporary_file subprocess_run
    path_exists stat_size json_load read_text os_remove.

(** The same fetch when the directory check is refused. *)
Definition scrape_denied :=
  scrape_single_url unit is_dir_denied named_temporary_file subprocess_run
    path_exists stat_size json_load read_text os_remove.

(** The same fetch when the crawler ends with status 2. *)
Definition scrape_exit2 :=
  scrape_single_url unit is_dir named_temporary_file subprocess_run_exit2
    path_exists stat_size json_load read_text os_remove.

End DemoFs.

(* ===================================================================== *)
(** ** The spider (aiwebsearch/spiders/myspider.py) *)
(* ===================================================================== *)

(** The first field of [s] and the fields after it, for [s.split(sep)] with
    a separator of one character. *)
Fixpoint fields (sep : ascii) (s : string) : string * list string :=
  match s with
  | EmptyString => (EmptyString, [])
  | String c s' =>
      let '(w, ws) := fields sep s' in
      if Ascii.eqb c sep then (EmptyString, w :: ws) else (String c w, ws)
  end.

(** [s.split(',')] *)
Definition split_comma (s : string) : list string :=
  let '(w, ws) := fields "," s in w :: ws.

(** The word that [s] begins with (empty when [s] begins with a blank) and
    the words after it, for [s.split()]. *)
Fixpoint words_from (s : string) : string * list string :=
  match s with
  | EmptyString => (EmptyString, [])
  | String c s' =>
      let '(w, ws) := words_from s' in
      if isspace c then (EmptyString, if truthy w then w :: ws else ws)
      else (String c w, ws)
  end.

(** [s.split()] *)
Definition split_ws (s : string) : list string :=
  let '(w, ws) := words_from s in if truthy w then w :: ws else ws.

(** [' '.join(words)] *)
Definition join_space (words : list string) : string :=
  String.concat " " words.

(** [' '.join(text.split()).strip()] (lines 113 and 125) *)
Definition collapse (text : string) : string :=
  strip (join_space (split_ws text)).

(** The characters of a string. *)
Fixpoint chars (s : string) : list ascii :=
  match s with
  | EmptyString => []
  | String c s' => c :: chars s'
  end.

(** The characters of a list of words, in a row. *)
Definition flat (ws : list string) : list ascii := concat (map chars ws).

(** The pairs of neighbouring characters of a string. *)
Fixpoint neighbours (s : string) : list (ascii * ascii) :=
  match s with
  | String a (String b _ as s') => (a, b) :: neighbours s'
  | _ => []
  end.

(** A word of [str.split()]: not empty, no blank in it. *)
Definition word (w : string) : Prop :=
  w <> EmptyString /\ forall c, In c (chars w) -> isspace c = false.

Section Spider.

(** What the spider takes from its libraries: the scheme that [urlparse]
    finds in a URL; of a response, its URL, its decoded [Content-Type]
    header ([response.headers.get('Content-Type', b'').decode('utf-8',
    errors='ignore')]), the HTML that readability keeps
    ([Document(response.body, url=response.url).summary(html_partial=True)]),
    the text of an HTML fragment
    ([lxml.html.fromstring(cleaned_html).text_content()]) and the text nodes
    of the body ([response.css('body ::text').getall()]). *)
Variable urlparse_scheme : string -> result string.
Variable Response : Type.
Variable response_url : Response -> string.
Variable content_type_header : Response -> result string.
Variable readability_summary : Response -> result string.
Variable text_content : string -> result string.
Variable body_texts : Response -> result (list string).

(** The loop of [_parse_urls] (lines 40-49). *)
Fixpoint parse_each (pieces : list string) : result (list string) :=
  match pieces with
  | [] => Done []
  | url :: rest =>
      let url := strip url in
      if negb (truthy url) then parse_each rest
      else
        match urlparse_scheme url with
        | Fail e => Fail e
        | Done scheme =>
            let url := if negb (truthy scheme) then "http://" ++ url
                       else url in
            match parse_each rest with
            | Done result => Done (url :: result)
            | Fail e => Fail e
            end
        end
  end.

(** [_parse_urls] (lines 34-51) *)
Definition _parse_urls (input_urls_str : option string)
  : result (list string) :=
  match input_urls_str with
  | Some s =>
      if negb (truthy s) then
        Fail (Raised ValueError
                "Spider requires 'start_urls' argument (e.g., -a start_urls='http://example.com')")
      else parse_each (split_comma s)
  | None =>
      Fail (Raised ValueError
              "Spider requires 'start_urls' argument (e.g., -a start_urls='http://example.com')")
  end.

(** A start URL as [_parse_urls] leaves it: a trimmed piece of the
    argument, with [http://] in front when [urlparse] finds no scheme in
    it. *)
Definition start_url_of (s u : string) : Prop :=
  exists piece scheme,
    In piece (split_comma s)
    /\ urlparse_scheme (strip piece) = Done scheme
    /\ u = if truthy scheme then strip piece else "http://" ++ strip piece.

(** The fallback of [_extract_content] (lines 124-125). *)
Definition fallback_text (response : Response) : result string :=
  match body_texts response with
  | Done texts => Done (collapse (strip (join_space texts)))
  | Fail e => Fail e
  end.

(** The [try] block of [_extract_content] (lines 106-118): the text that it
    returns, [None] when it falls through to the fallback, readability's
    exception when it raises. *)
Definition readable_text (response : Response) : result (option string) :=
  match readability_summary response with
  | Fail e => Fail e
  | Done cleaned_html =>
      if truthy cleaned_html then
        match text_content cleaned_html with
        | Fail e => Fail e
        | Done cleaned_text =>
            let cleaned_text := collapse cleaned_text in
            if truthy cleaned_text then Done (Some cleaned_text)
            else Done None
        end
      else Done None
  end.

(** [_extract_content] (lines 103-125) *)
Definition _extract_content (response : Response) : result string :=
  match readable_text response with
  | Done (Some cleaned_text) => Done cleaned_text
  | Done None | Fail _ => fallback_text response
  end.

(** Is [sub in s]? *)
Definition contains (s sub : string) : bool := negb (find s sub =? -1).

(** [parse] (lines 69-101): the items that it yields. *)
Definition parse (response : Response) : list pyval :=
  match content_type_header response with
  | Fail _ => []
  | Done header =>
      let content_type := lower header in
      if negb (contains content_type "text/html")
         && negb (contains content_type "application/xhtml+xml")
      then []
      else
        match _extract_content response with
        | Fail _ => []
        | Done cleaned_text =>
            if truthy cleaned_text then
              [VDict [("url", VStr (response_url response));
                      ("text", VStr cleaned_text)]]
            else []
        end
  end.

End Spider.

(* ===================================================================== *)
(** ** Reading a session whatever the sink does *)
(* ===================================================================== *)

(** When a computation returns from a state where [Pre] holds, [Post]
    holds of the value and of the state it leaves. *)
Definition returns_with {World A : Type} (Pre : state World -> Prop)
    (m : M World A) (Post : A -> state World -> Prop) : Prop :=
  forall s a s', Pre s -> m s = (Return a, s') -> Post a s'.

(** A computation that keeps an invariant of the state, whether it returns
    or raises. *)
Definition keeps {World A : Type} (I : state World -> Prop) (m : M World A)
  : Prop :=
  forall s, I s -> I (snd (m s)).

(** Every event of the trace is as [Q] says. *)
Definition traced {World : Type} (Q : event -> Prop) (s : state World)
  : Prop :=
  forall ev, In ev (trace s) -> Q ev.

(** A fetch or judge call that is in step with the list [candidates]: its
    counter [j] is at least 1, its URL is the candidate of index [j-1],
    and a fetch is made when [tried_urls] is the first [j] candidates. *)
Definition in_step (candidates : list string) (ev : event) : Prop :=
  match ev with
  | EvFetch j url tried_urls _ =>
      (1 <= j)%nat /\ nth_error candidates (j - 1) = Some url
      /\ tried_urls = firstn j candidates
  | EvJudge j url _ _ =>
      (1 <= j)%nat /\ nth_error candidates (j - 1) = Some url
  | _ => True
  end.

(** A computation that fetches the URLs [l], in this order, whether it
    returns or raises. *)
Definition fetches {World A : Type} (m : M World A) (l : list string)
  : Prop :=
  forall s,
    fetched_urls (trace (snd (m s))) = (fetched_urls (trace s) ++ l)%list.

(** A computation that fetches the URLs [l] when it returns, and the first
    ones of them when it raises. *)
Definition fetches_upto {World A : Type} (m : M World A) (l : list string)
  : Prop :=
  forall s,
    match fst (m s) with
    | Return _ =>
        fetched_urls (trace (snd (m s)))
        = (fetched_urls (trace s) ++ l)%list
    | Raise _ =>
        exists n,
          fetched_urls (trace (snd (m s)))
          = (fetched_urls (trace s) ++ firstn n l)%list
    end.

(** Sinks that fail on chosen notices, for concrete sessions. *)
Module DemoSinks.

(** A callback that raises on the notices that [p] selects. *)
Definition raising_on (p : notice -> bool) (m : notice) (w : unit)
  : res unit * unit :=
  (if p m then Raise (Exn "sink unavailable") else Return tt, w).


(** The notice of a fetch that raised (line 114). *)
Definition scrape_error (m : notice) : bool :=
  match m with
  | NScrapeError _ _ => true
  | _ => false
  end.

End DemoSinks.

(* ===================================================================== *)
(** ** The page script (streamlit_app.py) *)
(* ===================================================================== *)

(** The messages that the script hands to [add_status_message] (lines 76,
    81, 87, 90, 105 and 109), with the values they interpolate, and those
    that [run_search_session] hands to it as its status callback. *)
Inductive app_message : Type :=
| MStarting
| MSearching (max_results : Z)
| MNoResults
| MFound (count : nat)
| MFinished
| MSearchError (e : exn)
| MAgent (message : notice).

(** The four keys of [st.session_state] (lines 33-40).  A status line is
    kept as its timestamp and its message. *)
Record session_state : Type := {
  search_running : bool;
  status_messages : list (string * app_message);
  final_result : string;
  tried_urls_summary : list string }.

Section App.

(** What is outside the session state, and the calls that reach it:
    [time.strftime("%H:%M:%S")],
    [status_placeholder.info("\n".join(status_messages))],
    [result_placeholder.empty()], [st.error(f"...{e}")], the web search,
    the fetch and the judge; and the three settings of config.py. *)
Variable Ext : Type.
Variable strftime : Ext -> string * Ext.
Variable status_placeholder_info :
  list (string * app_message) -> Ext -> res unit * Ext.
Variable result_placeholder_empty : Ext -> res unit * Ext.
Variable st_error : exn -> Ext -> res unit * Ext.
Variable perform_web_search : string -> Z -> Ext -> res (list string) * Ext.
Variable scrape_single_url : string -> Ext -> res (option string) * Ext.
Variable query_chat_model : string -> Ext -> res string * Ext.
Variables DDG_MAX_RESULTS MAX_SEARCH_ATTEMPTS : Z.
Variable CHAT_MODEL : string.

Record app_world : Type := { session : session_state; ext : Ext }.

(** A call that leaves the session state alone. *)
Definition outside {A : Type} (f : Ext -> res A * Ext) (w : app_world)
  : res A * app_world :=
  let '(r, x) := f (ext w) in (r, {| session := session w; ext := x |}).

(** An assignment to keys of the session state. *)
Definition assign (f : session_state -> session_state) (w : app_world)
  : res unit * app_world :=
  (Return tt, {| session := f (session w); ext := ext w |}).

(** [add_status_message] (lines 42-45) *)
Definition add_status_message (message : app_message) (w : app_world)
  : res unit * app_world :=
  let '(timestamp, x) := strftime (ext w) in
  (Return tt,
   {| session :=
        {| search_running := search_running (session w);
           status_messages :=
             (status_messages (session w) ++ [(timestamp, message)])%list;
           final_result := final_result (session w);
           tried_urls_summary := tried_urls_summary (session w) |};
      ext := x |}).

(** [status_placeholder.info("\n".join(st.session_state.status_messages))] *)
Definition show_status (w : app_world) : res unit * app_world :=
  outside (status_placeholder_info (status_messages (session w))) w.

(** Lines 70-73. *)
Definition reset_state (st : session_state) : session_state :=
  {| search_running := true;
     status_messages := [];
     final_result := "";
     tried_urls_summary := [] |}.

Definition set_final_result (text : string) (st : session_state)
  : session_state :=
  {| search_running := search_running st;
     status_messages := status_messages st;
     final_result := text;
     tried_urls_summary := tried_urls_summary st |}.

(** Lines 103-104. *)
Definition store_results (final_answer : string) (tried_urls : list string)
    (st : session_state) : session_state :=
  {| search_running := search_running st;
     status_messages := status_messages st;
     final_result := final_answer;
     tried_urls_summary := tried_urls |}.

Definition set_search_running (b : bool) (st : session_state)
  : session_state :=
  {| search_running := b;
     status_messages := status_messages st;
     final_result := final_result st;
     tried_urls_summary := tried_urls_summary st |}.

(** A step of the script: it touches the world, not the trace of the
    session. *)
Definition step {A : Type} (f : app_world -> res A * app_world)
  : M app_world A :=
  fun s => let '(r, w') := f (world s) in
           (r, {| world := w'; trace := trace s |}).

Notation "x <- m ;; k" := (bind app_world m (fun x => k))
  (at level 61, m at next level, right associativity).
Notation "m ;;; k" := (bind app_world m (fun _ => k))
  (at level 61, right associativity).

(** The call of lines 94-100. *)
Definition app_session (query : string) (search_urls : list string)
  : M app_world (string * list string) :=
  run_search_session app_world
    (fun url => outside (scrape_single_url url))
    (fun prompt => outside (query_chat_model prompt))
    (fun message => add_status_message (MAgent message))
    show_status CHAT_MODEL query search_urls MAX_SEARCH_ATTEMPTS.

(** The [try] block (lines 80-105). *)
Definition search_body (query : string) : M app_world unit :=
  step (add_status_message (MSearching DDG_MAX_RESULTS)) ;;;
  step show_status ;;;
  search_urls <- step (outside (perform_web_search query DDG_MAX_RESULTS)) ;;
  match search_urls with
  | [] =>
      step (add_status_message MNoResults) ;;;
      step (assign (set_final_result
                      "Could not find any relevant web pages for the query."))
  | _ =>
      step (add_status_message (MFound (length search_urls))) ;;;
      step show_status ;;;
      out <- app_session query search_urls ;;
      step (assign (store_results (fst out) (snd out))) ;;;
      step (add_status_message MFinished)
  end.

(** The [except] clause (lines 107-110). *)
Definition search_failed (e : exn) : M app_world unit :=
  step (outside (st_error e)) ;;;
  step (add_status_message (MSearchError e)) ;;;
  step (assign (set_final_result "An error occurred. Please try again.")).

(** The search execution logic (lines 68-113), run when the script is
    with [search_button] and [query] as given. *)
Definition search_execution (search_button : bool) (query : string)
  : M app_world unit :=
  if search_button && truthy query then
    step (assign reset_state) ;;;
    step (outside result_placeholder_empty) ;;;
    step (add_status_message MStarting) ;;;
    step show_status ;;;
    fun s =>
      let '(r, s') :=
        try_except app_world (search_body query) search_failed s in
      (r, {| world := {| session := set_search_running false
                                      (session (world s'));
                         ext := ext (world s') |};
             trace := trace s' |})
  else ret app_world tt.

End App.

Arguments session {Ext} _.
Arguments ext {Ext} _.

(** The notices of a trace, in order. *)
Fixpoint noticed (evs : list event) : list notice :=
  match evs with
  | [] => []
  | EvNotice message _ :: evs' => message :: noticed evs'
  | _ :: evs' => noticed evs'
  end.

(** What the session leaves of the session state as it was when the
    session started: the status lines are those of then followed by the
    notices of the trace, the other three keys are untouched, and no call of
    the status callback has raised. *)
Definition sink_record {Ext : Type} (st0 : session_state)
    (s : state (app_world Ext)) : Prop :=
  map snd (status_messages (session (world s)))
  = (map snd (status_messages st0) ++ map MAgent (noticed (trace s)))%list
  /\ search_running (session (world s)) = search_running st0
  /\ final_result (session (world s)) = final_result st0
  /\ tried_urls_summary (session (world s)) = tried_urls_summary st0
  /\ forall message r, In (EvNotice message r) (trace s) -> r = Return tt.


(** A scheme finder for concrete start URLs: [http] for a URL that begins
    with [http://], none otherwise. *)
Module DemoSpider.

Definition urlparse_scheme (url : string) : result string :=
  Done (if String.prefix "http://" url then "http" else "").

End DemoSpider.

(** A page script with the scripted pages and judge of [Demo], a search
    that finds three URLs, and a user interface that works. *)
Module DemoApp.

Definition strftime (x : unit) : string * unit := ("12:00:00", x).

Definition status_placeholder_info (lines : list (string * app_message))
    (x : unit) : res unit * unit := (Return tt, x).

(** A status placeholder that is out of order. *)
Definition broken_info (lines : list (string * app_message)) (x : unit)
  : res unit * unit := (Raise (Exn "no frontend"), x).

Definition result_placeholder_empty (x : unit) : res unit * unit :=
  (Return tt, x).

Definition st_error (e : exn) (x : unit) : res unit * unit := (Return tt, x).

Definition perform_web_search (query : string) (num_results : Z) (x : unit)
  : res (list string) * unit := (Return ["urlB"; "urlC"; "urlD"], x).

Definition execution :=
  search_execution unit strftime status_placeholder_info
    result_placeholder_empty st_error perform_web_search
    Demo.scrape Demo.judge 5 5 "gemma3:4b".

Definition broken_execution :=
  search_execution unit strftime broken_info
    result_placeholder_empty st_error perform_web_search
    Demo.scrape Demo.judge 5 5 "gemma3:4b".

(** The state of a new browser session (lines 33-40). *)
Definition fresh : state (app_world unit) :=
  start {| session := {| search_running := false;
                         status_messages := [];
                         final_result := "";
                         tried_urls_summary := [] |};
           ext := tt |}.

End DemoApp.

(* ===================================================================== *)
(** ** Facts about strings and the parser *)
(* ===================================================================== *)

Lemma find_from_unfold (i : Z) (s sub : string) :
  find_from i s sub
  = if String.prefix sub s then i
    else match s with
         | EmptyString => -1
         | String _ s' => find_from (i + 1) s' sub
         end.
Proof. destruct s; reflexivity. Qed.

Lemma find_from_spec (sub s : string) (i : Z) :
  0 <= i ->
  (find_from i s sub = -1
   /\ forall n, (n <= String.length s)%nat ->
                String.prefix sub (drop n s) = false)
  \/ (exists n, find_from i s sub = i + Z.of_nat n
                /\ (n <= String.length s)%nat
                /\ String.prefix sub (drop n s) = true
                /\ forall m, (m < n)%nat ->
                             String.prefix sub (drop m s) = false).
Proof.
  revert i. induction s as [|ch s IH]; intros i Hi;
    rewrite find_from_unfold.
  - destruct (String.prefix sub "") eqn:Hp.
    + right. exists 0%nat. split; [lia|]. split; [simpl; lia|].
      split; [exact Hp|]. intros m Hm. lia.
    + left. split; [reflexivity|]. intros [|n] Hn; simpl in *; auto; lia.
  - destruct (String.prefix sub (String ch s)) eqn:Hp.
    + right. exists 0%nat. split; [lia|]. split; [simpl; lia|].
      split; [exact Hp|]. intros m Hm. lia.
    + destruct (IH (i + 1) ltac:(lia)) as [[He Hn]|[n [He [Hl [Hp' Hm]]]]].
      * left. split; [exact He|]. intros [|n] Hle; simpl; auto.
        apply Hn. simpl in Hle. lia.
      * right. exists (S n). split; [lia|]. split; [simpl; lia|].
        split; [exact Hp'|]. intros [|m] Hlt; simpl; auto. apply Hm. lia.
Qed.

Lemma find_found (s sub : string) :
  find s sub <> -1 ->
  exists n, find s sub = Z.of_nat n
            /\ String.prefix sub (drop n s) = true
            /\ forall m, (m < n)%nat -> String.prefix sub (drop m s) = false.
Proof.
  intros H. unfold find in *.
  destruct (find_from_spec sub s 0 ltac:(lia)) as [[He _]|[n [He [_ [Hp Hm]]]]].
  - contradiction.
  - exists n. rewrite He. repeat split; auto.
Qed.

Lemma truthy_nonempty (s : string) : truthy s = true <-> s <> "".
Proof. destruct s; simpl; split; congruence. Qed.

(** The parser's result is a non-empty answer marked sufficient, or nothing
    marked insufficient. *)
Lemma parse_shape (response : string) :
  parse_llm_sufficiency_response response = (None, false)
  \/ exists a, a <> "" /\ truthy a = true
               /\ parse_llm_sufficiency_response response = (Some a, true).
Proof.
  unfold parse_llm_sufficiency_response.
  destruct (String.eqb _ "insufficient context"); [now left|].
  destruct (negb _); [|now left].
  destruct (truthy _) eqn:Ht; [|now left].
  right. eexists. split; [|split; [exact Ht|reflexivity]].
  now apply truthy_nonempty.
Qed.

Lemma accepted_iff (llm_response a : string) :
  accepted llm_response = Some a
  <-> parse_llm_sufficiency_response llm_response = (Some a, true).
Proof.
  unfold accepted.
  destruct (parse_shape llm_response) as [H|[b [_ [Hb H]]]]; rewrite H.
  - split; intros; congruence.
  - simpl. rewrite Hb. split; intros; congruence.
Qed.

(** C6. For every input string, the empty one and those with the marker
    repeated included, the parser returns (it is a total function) exactly
    one of the two verdicts: a non-empty answer marked sufficient, or no
    answer marked insufficient; and a returned answer is the trimmed text
    that follows the first occurrence of the marker in the trimmed
    lower-cased copy. *)
Theorem parse_llm_sufficiency_response_total (response : string) :
  (parse_llm_sufficiency_response response = (None, false)
   \/ exists a, a <> ""
                /\ parse_llm_sufficiency_response response = (Some a, true))
  /\ ~ (parse_llm_sufficiency_response response = (None, false)
        /\ exists a, parse_llm_sufficiency_response response = (Some a, true))
  /\ (forall a,
        parse_llm_sufficiency_response response = (Some a, true) ->
        exists n,
          String.prefix final_answer_marker
            (drop n (strip (lower response))) = true
          /\ (forall m, (m < n)%nat ->
                String.prefix final_answer_marker
                  (drop m (strip (lower response))) = false)
          /\ a = strip (slice_from response (Z.of_nat n + 13)))
  /\ parse_llm_sufficiency_response "" = (None, false)
  /\ parse_llm_sufficiency_response "Final Answer: A final answer: B"
     = (Some "A final answer: B", true).
Proof.
  split; [|split; [|split; [|split]]].
  - destruct (parse_shape response) as [H|[a [Ha [_ H]]]]; [now left|].
    right. now exists a.
  - intros [H [a Ha]]. congruence.
  - intros a. unfold parse_llm_sufficiency_response.
    destruct (String.eqb _ "insufficient context"); [congruence|].
    destruct (find (strip (lower response)) final_answer_marker =? -1) eqn:Hf;
      simpl; [congruence|].
    apply Z.eqb_neq in Hf.
    destruct (find_found _ _ Hf) as [n [He [Hp Hm]]].
    rewrite He. destruct (truthy _); [|congruence].
    intros H. exists n. repeat split; auto.
    injection H as H. now rewrite <- H.
  - reflexivity.
  - reflexivity.
Qed.

(** C7. The five sample verdicts of the specification. *)
Theorem parse_llm_sufficiency_response_samples :
  parse_llm_sufficiency_response "Final Answer: Paris" = (Some "Paris", true)
  /\ parse_llm_sufficiency_response "FINAL ANSWER:   " = (None, false)
  /\ parse_llm_sufficiency_response "Insufficient context" = (None, false)
  /\ parse_llm_sufficiency_response "insufficient context" = (None, false)
  /\ parse_llm_sufficiency_response "I think the answer is 5" = (None, false).
Proof. repeat split; reflexivity. Qed.

(** C5. A response with one leading blank: the marker is found at index 0 of
    the trimmed lower-cased copy and that index is applied to the untrimmed
    response, so the answer starts one character early, inside the marker;
    the text that follows the marker in the response is "Paris". *)
Theorem parse_llm_sufficiency_response_leading_blank :
  find (lower " Final Answer: Paris") final_answer_marker = 1
  /\ answer_after_marker " Final Answer: Paris" = "Paris"
  /\ parse_llm_sufficiency_response " Final Answer: Paris"
     = (Some ": Paris", true).
Proof. repeat split; reflexivity. Qed.

(** *** Where the parser and the rule agree

    Lower-casing keeps blanks, and trimming on the right does not move the
    first occurrence of a marker that ends with a non-blank; so the index
    found in the trimmed copy is the index in the response as soon as
    nothing is trimmed on the left. *)

Lemma isspace_lower_char (c : ascii) : isspace (lower_char c) = isspace c.
Proof. destruct c as [[] [] [] [] [] [] [] []]; reflexivity. Qed.

Lemma lstrip_lower (s : string) : lstrip (lower s) = lower (lstrip s).
Proof.
  induction s as [|c s IH]; [reflexivity|]. simpl.
  rewrite isspace_lower_char. destruct (isspace c); [exact IH|reflexivity].
Qed.

Lemma rstrip_cons (c : ascii) (s : string) :
  rstrip (String c s)
  = match rstrip s with
    | EmptyString => if isspace c then EmptyString else String c EmptyString
    | r => String c r
    end.
Proof. reflexivity. Qed.

Lemma solid_tail (a : ascii) (m : string) : solid (String a m) -> solid m.
Proof.
  unfold solid. rewrite rstrip_cons. destruct (rstrip m) as [|b r] eqn:E.
  - destruct (isspace a); intros H; [discriminate|].
    injection H as <-. reflexivity.
  - intros H. injection H as <-. reflexivity.
Qed.

Lemma prefix_cons (a b : ascii) (m s : string) :
  String.prefix (String a m) (String b s)
  = if Ascii.ascii_dec a b then String.prefix m s else false.
Proof. reflexivity. Qed.

Lemma prefix_nil (s : string) : String.prefix "" s = true.
Proof. destruct s; reflexivity. Qed.

Lemma prefix_of_blank (s m : string) :
  rstrip s = "" -> solid m -> m <> "" -> String.prefix m s = false.
Proof.
  revert m. induction s as [|b s IH]; intros [|a m] Hs Hm Hne;
    try congruence; try reflexivity.
  rewrite prefix_cons. destruct (Ascii.ascii_dec a b) as [->|]; [|reflexivity].
  rewrite rstrip_cons in Hs. destruct (rstrip s) eqn:E; [|discriminate].
  destruct (isspace b) eqn:Hb; [|discriminate].
  destruct m as [|a' m'].
  - unfold solid in Hm. simpl in Hm. rewrite Hb in Hm. discriminate.
  - apply IH; [reflexivity|eapply solid_tail; eauto|discriminate].
Qed.

Lemma prefix_rstrip (m s : string) :
  solid m -> String.prefix m (rstrip s) = String.prefix m s.
Proof.
  revert m. induction s as [|b s IH]; intros m Hm; [reflexivity|].
  destruct m as [|a m]; [destruct (rstrip (String b s)); reflexivity|].
  rewrite rstrip_cons, prefix_cons.
  destruct (rstrip s) as [|c r] eqn:E.
  - destruct m as [|a' m'].
    + destruct (isspace b) eqn:Hb.
      * unfold solid in Hm. simpl in Hm.
        destruct (Ascii.ascii_dec a b) as [->|]; [|reflexivity].
        rewrite Hb in Hm. discriminate.
      * rewrite prefix_cons, !prefix_nil. reflexivity.
    + rewrite (prefix_of_blank s (String a' m') E (solid_tail _ _ Hm))
        by discriminate.
      destruct (isspace b); [destruct (Ascii.ascii_dec a b); reflexivity|].
      rewrite prefix_cons. destruct (Ascii.ascii_dec a b); reflexivity.
  - rewrite prefix_cons.
    rewrite (IH m (solid_tail _ _ Hm)). reflexivity.
Qed.

Lemma find_from_rstrip (m s : string) (i : Z) :
  solid m -> m <> "" -> find_from i (rstrip s) m = find_from i s m.
Proof.
  intros Hm Hne. revert i. induction s as [|b s IH]; intros i; [reflexivity|].
  rewrite (find_from_unfold i (String b s)), (find_from_unfold i (rstrip _)).
  rewrite (prefix_rstrip m (String b s) Hm).
  destruct (String.prefix m (String b s)); [reflexivity|].
  rewrite <- IH. rewrite rstrip_cons.
  destruct (rstrip s) as [|c r] eqn:E.
  - assert (Hnil : find_from (i + 1) "" m = -1).
    { rewrite find_from_unfold. destruct m; [congruence|reflexivity]. }
    rewrite Hnil. destruct (isspace b); [reflexivity|exact Hnil].
  - reflexivity.
Qed.

Lemma solid_marker : solid final_answer_marker.
Proof. reflexivity. Qed.

(** For a response that does not begin with a blank, the parser returns
    the trimmed text after the first occurrence of the marker in the
    response. *)
Lemma parse_without_leading_blank (response : string) :
  lstrip response = response ->
  find (lower response) final_answer_marker <> -1 ->
  truthy (answer_after_marker response) = true ->
  parse_llm_sufficiency_response response
  = (Some (answer_after_marker response), true).
Proof.
  intros Hl Hf Ht.
  assert (Hs : strip (lower response) = rstrip (lower response)).
  { unfold strip. now rewrite lstrip_lower, Hl. }
  assert (Hfind : find (strip (lower response)) final_answer_marker
                  = find (lower response) final_answer_marker).
  { rewrite Hs. unfold find.
    apply find_from_rstrip; [exact solid_marker|discriminate]. }
  unfold parse_llm_sufficiency_response.
  destruct (String.eqb_spec (strip (lower response)) "insufficient context")
    as [He|_].
  - rewrite He in Hfind. rewrite <- Hfind in Hf. now contradiction Hf.
  - rewrite Hfind. apply Z.eqb_neq in Hf. rewrite Hf. simpl negb. cbv iota.
    fold (answer_after_marker response). now rewrite Ht.
Qed.

(* ===================================================================== *)
(** ** One iteration, read off its trace *)
(* ===================================================================== *)

Ltac in_cases H :=
  unfold said in H; simpl in H;
  repeat (destruct H as [H|H]; [subst; simpl in *|]);
  try contradiction.

Section AttemptFacts.

Variables (CHAT_MODEL query : string) (max_attempts : Z).
Variables (c : nat) (url : string) (tried : list string).
Variables (evs : list event) (r : option string).
Hypothesis Hat : attempt_trace CHAT_MODEL query max_attempts c url tried evs r.

Lemma attempt_trace_counter (e : event) (j : nat) :
  In e evs -> ev_attempt e = Some j -> j = c.
Proof.
  intros Hin He. destruct Hat; in_cases Hin; congruence.
Qed.

Lemma attempt_trace_url (e : event) (u : string) :
  In e evs -> ev_url e = Some u -> u = url.
Proof.
  intros Hin He. destruct Hat; in_cases Hin; congruence.
Qed.

Lemma attempt_trace_fetch (j : nat) (u : string) (t : list string)
    (fr : res (option string)) :
  In (EvFetch j u t fr) evs -> j = c /\ u = url /\ t = tried.
Proof.
  intros Hin. destruct Hat; in_cases Hin; try discriminate;
    injection Hin as <- <- <- <-; auto.
Qed.

Lemma attempt_trace_fetched : fetched_urls evs = [url].
Proof. destruct Hat; reflexivity. Qed.

Lemma attempt_trace_has_fetch : exists fr, In (EvFetch c url tried fr) evs.
Proof.
  destruct Hat; eexists; unfold said; simpl;
    do 4 right; left; reflexivity.
Qed.

Lemma attempt_trace_failure (e : event) (m : notice) :
  In e evs -> failure_notice e = Some m ->
  r = None /\ In (EvNotice m (Return tt)) evs.
Proof.
  intros Hin He.
  destruct Hat; in_cases Hin; try discriminate;
    injection He as <-; (split; [reflexivity|]);
    unfold said; simpl; tauto.
Qed.


Lemma attempt_trace_answered (answer : string) :
  r = Some answer ->
  exists e a, In e evs /\ sufficient_ev e = Some a
              /\ ev_url e = Some url /\ answer = with_ref a url.
Proof.
  intros Hr. destruct Hat; try discriminate.
  eexists (EvJudge c url _ (Return llm_response)), a.
  split; [|split; [simpl; assumption|split; [reflexivity|congruence]]].
  unfold said; simpl. do 9 right. left. reflexivity.
Qed.

End AttemptFacts.

(* ===================================================================== *)
(** ** The loop, read off its trace *)
(* ===================================================================== *)

Lemma fetched_urls_app (evs evs' : list event) :
  fetched_urls (evs ++ evs') = (fetched_urls evs ++ fetched_urls evs')%list.
Proof.
  induction evs as [|e evs IH]; [reflexivity|].
  destruct e; simpl; rewrite IH; reflexivity.
Qed.

Section LoopFacts.

Variables (CHAT_MODEL query : string) (max_attempts : Z).

Let loop := loop_trace CHAT_MODEL query max_attempts.

(** The first URL of the remaining list is fetched. *)
Lemma loop_trace_head c u rest tried evs out :
  loop c (u :: rest) tried evs out ->
  exists fr, In (EvFetch c u (tried ++ [u]) fr) evs.
Proof.
  intros H. inversion H; subst.
  - eapply attempt_trace_has_fetch; eauto.
  - match goal with Ha : attempt_trace _ _ _ _ _ _ _ None |- _ =>
      destruct (attempt_trace_has_fetch _ _ _ _ _ _ _ _ Ha) as [fr Hfr] end.
    exists fr. apply in_or_app. now left.
Qed.

(** The attempted URLs and the fetched URLs are the same prefix of the
    remaining list. *)
Lemma loop_trace_prefix c rest tried evs out :
  loop c rest tried evs out ->
  exists n, (n <= length rest)%nat
            /\ snd out = (tried ++ firstn n rest)%list
            /\ fetched_urls evs = firstn n rest.
Proof.
  induction 1 as [c tried|c url rest tried evs answer Ha
                 |c url rest tried evs evs' out Ha Hl IH].
  - exists 0%nat. simpl. rewrite app_nil_r. auto.
  - exists 1%nat. simpl. split; [lia|]. split; [reflexivity|].
    eapply attempt_trace_fetched; eauto.
  - destruct IH as (n & Hn & Hs & Hf). exists (S n). simpl.
    split; [lia|]. split.
    + rewrite Hs, <- app_assoc. reflexivity.
    + rewrite fetched_urls_app, Hf.
      erewrite attempt_trace_fetched by eauto. reflexivity.
Qed.

(** Every fetch is that of the URL at its position, made when
    [tried_urls] already ends with that URL. *)
Lemma loop_trace_fetch c rest tried evs out j u t fr :
  loop c rest tried evs out ->
  In (EvFetch j u t fr) evs ->
  (c <= j)%nat
  /\ nth_error rest (j - c) = Some u
  /\ t = (tried ++ firstn (S (j - c)) rest)%list.
Proof.
  induction 1 as [c tried|c url rest tried evs answer Ha
                 |c url rest tried evs evs' out Ha Hl IH]; intros Hin.
  - in_cases Hin; discriminate.
  - destruct (attempt_trace_fetch _ _ _ _ _ _ _ _ Ha _ _ _ _ Hin)
      as (-> & -> & ->).
    rewrite Nat.sub_diag. simpl. auto.
  - apply in_app_or in Hin. destruct Hin as [Hin|Hin].
    + destruct (attempt_trace_fetch _ _ _ _ _ _ _ _ Ha _ _ _ _ Hin)
        as (-> & -> & ->).
      rewrite Nat.sub_diag. simpl. auto.
    + destruct (IH Hin) as (Hc & Hn & Ht).
      replace (j - c)%nat with (S (j - S c)) by lia.
      split; [lia|]. split; [exact Hn|].
      rewrite Ht, <- app_assoc. reflexivity.
Qed.

(** Every fetch or judge call carries a counter from [c] on. *)
Lemma loop_trace_counter c rest tried evs out e j :
  loop c rest tried evs out ->
  In e evs -> ev_attempt e = Some j -> (c <= j)%nat.
Proof.
  induction 1 as [c tried|c url rest tried evs answer Ha
                 |c url rest tried evs evs' out Ha Hl IH]; intros Hin He.
  - in_cases Hin; discriminate.
  - rewrite (attempt_trace_counter _ _ _ _ _ _ _ _ Ha _ _ Hin He). lia.
  - apply in_app_or in Hin. destruct Hin as [Hin|Hin].
    + rewrite (attempt_trace_counter _ _ _ _ _ _ _ _ Ha _ _ Hin He). lia.
    + specialize (IH Hin He). lia.
Qed.

(** The URL of every call is in the returned [tried_urls], at the position
    its counter gives. *)
Lemma loop_trace_tried c rest tried evs out e j u :
  loop c rest tried evs out ->
  In e evs -> ev_attempt e = Some j -> ev_url e = Some u ->
  nth_error (snd out) (length tried + (j - c)) = Some u.
Proof.
  induction 1 as [c tried|c url rest tried evs answer Ha
                 |c url rest tried evs evs' out Ha Hl IH]; intros Hin He Hu.
  - in_cases Hin; discriminate.
  - rewrite (attempt_trace_counter _ _ _ _ _ _ _ _ Ha _ _ Hin He).
    rewrite (attempt_trace_url _ _ _ _ _ _ _ _ Ha _ _ Hin Hu).
    rewrite Nat.sub_diag, Nat.add_0_r. cbn [snd].
    rewrite nth_error_app2, Nat.sub_diag by lia. reflexivity.
  - apply in_app_or in Hin. destruct Hin as [Hin|Hin].
    + rewrite (attempt_trace_counter _ _ _ _ _ _ _ _ Ha _ _ Hin He).
      rewrite (attempt_trace_url _ _ _ _ _ _ _ _ Ha _ _ Hin Hu).
      rewrite Nat.sub_diag, Nat.add_0_r.
      destruct (loop_trace_prefix _ _ _ _ _ Hl) as (n & _ & Hs & _).
      rewrite Hs, <- app_assoc.
      rewrite nth_error_app2, Nat.sub_diag by lia. reflexivity.
    + assert (Hc : (S c <= j)%nat)
        by exact (loop_trace_counter _ _ _ _ _ _ _ Hl Hin He).
      specialize (IH Hin He Hu). rewrite length_app in IH. simpl in IH.
      replace (length tried + (j - c))%nat
        with (length tried + 1 + (j - S c))%nat by lia.
      exact IH.
Qed.

(** Without an accepted verdict the loop goes through the whole list. *)
Lemma loop_trace_exhausted c rest tried evs out :
  loop c rest tried evs out ->
  (forall e, In e evs -> sufficient_ev e = None) ->
  out = (failure_message_of (length (tried ++ rest)), (tried ++ rest)%list)
  /\ fetched_urls evs = rest.
Proof.
  induction 1 as [c tried|c url rest tried evs answer Ha
                 |c url rest tried evs evs' out Ha Hl IH]; intros Hno.
  - rewrite app_nil_r. auto.
  - destruct (attempt_trace_answered _ _ _ _ _ _ _ _ Ha answer eq_refl)
      as (e & a & Hin & He & _).
    rewrite (Hno e Hin) in He. discriminate.
  - destruct IH as [Ho Hf].
    + intros e Hin. apply Hno, in_or_app. now right.
    + rewrite <- app_assoc in Ho. simpl in Ho. split; [exact Ho|].
      rewrite fetched_urls_app, Hf.
      erewrite attempt_trace_fetched by eauto. reflexivity.
Qed.


(** The result string is the exhaustion message for the URLs tried, or an
    accepted answer with the attribution line of its URL. *)
Lemma loop_trace_result c rest tried evs out :
  loop c rest tried evs out ->
  fst out = failure_message_of (length (snd out))
  \/ exists e a u, In e evs /\ sufficient_ev e = Some a
                   /\ ev_url e = Some u /\ fst out = with_ref a u.
Proof.
  induction 1 as [c tried|c url rest tried evs answer Ha
                 |c url rest tried evs evs' out Ha Hl IH].
  - now left.
  - right.
    destruct (attempt_trace_answered _ _ _ _ _ _ _ _ Ha answer eq_refl)
      as (e & a & Hin & He & Hu & Hr).
    exists e, a, url. auto.
  - destruct IH as [IH|(e & a & u & Hin & He & Hu & Hr)]; [now left|].
    right. exists e, a, u. split; [apply in_or_app; now right|auto].
Qed.

(** A call that raised is reported by a notice, and the next URL of the
    list, if any, is fetched all the same. *)
Lemma loop_trace_failure c rest tried evs out e m :
  loop c rest tried evs out ->
  In e evs -> failure_notice e = Some m ->
  In (EvNotice m (Return tt)) evs
  /\ forall j u', ev_attempt e = Some j ->
                  nth_error rest (S (j - c)) = Some u' ->
                  exists t fr, In (EvFetch (S j) u' t fr) evs.
Proof.
  induction 1 as [c tried|c url rest tried evs answer Ha
                 |c url rest tried evs evs' out Ha Hl IH]; intros Hin Hf.
  - in_cases Hin; discriminate.
  - destruct (attempt_trace_failure _ _ _ _ _ _ _ _ Ha _ _ Hin Hf) as [Hr _].
    discriminate.
  - apply in_app_or in Hin. destruct Hin as [Hin|Hin].
    + destruct (attempt_trace_failure _ _ _ _ _ _ _ _ Ha _ _ Hin Hf)
        as [_ Hn].
      split; [apply in_or_app; now left|].
      intros j u' He Hnth.
      rewrite (attempt_trace_counter _ _ _ _ _ _ _ _ Ha _ _ Hin He) in *.
      rewrite Nat.sub_diag in Hnth. simpl in Hnth.
      destruct rest as [|u rest]; [discriminate|].
      simpl in Hnth. injection Hnth as ->.
      destruct (loop_trace_head _ _ _ _ _ _ Hl) as [fr Hfr].
      exists ((tried ++ [url]) ++ [u'])%list, fr. apply in_or_app. now right.
    + destruct (IH Hin Hf) as [Hn Hnext].
      split; [apply in_or_app; now right|].
      intros j u' He Hnth.
      assert (Hc : (S c <= j)%nat)
        by exact (loop_trace_counter _ _ _ _ _ _ _ Hl Hin He).
      replace (S (j - c))%nat with (S (S (j - S c))) in Hnth by lia.
      simpl in Hnth.
      destruct (Hnext j u' He Hnth) as (t & fr & Hfr).
      exists t, fr. apply in_or_app. now right.
Qed.

End LoopFacts.

(* ===================================================================== *)
(** ** The code follows these traces when the sink works *)
(* ===================================================================== *)

Section SessionRuns.

Variable World : Type.
Variable scrape_single_url : string -> World -> res (option string) * World.
Variable query_chat_model : string -> World -> res string * World.
Variable status_callback : notice -> World -> res unit * World.
Variable placeholder_info : World -> res unit * World.
Variable CHAT_MODEL : string.

Hypothesis Hsink : sink_ok status_callback placeholder_info.

Let ui := update_ui World status_callback placeholder_info.
Let run := run_search_session World scrape_single_url query_chat_model
             status_callback placeholder_info CHAT_MODEL.

Lemma update_ui_ok (m : notice) (s : state World) :
  exists w', ui m s
             = (Return tt, {| world := w'; trace := trace s ++ said m |}).
Proof.
  destruct Hsink as [Hcb Hinfo].
  unfold ui, update_ui, update_status, bind, call.
  specialize (Hcb m (world s)).
  destruct (status_callback m (world s)) as [r1 w1]. simpl in Hcb. subst r1.
  cbn [world trace].
  specialize (Hinfo w1).
  destruct (placeholder_info w1) as [r2 w2]. simpl in Hinfo. subst r2.
  exists w2. rewrite <- app_assoc. reflexivity.
Qed.

Ltac ui_step :=
  match goal with
  | |- context [update_ui _ _ _ ?m ?s] =>
      let w := fresh "w" in
      let E := fresh "E" in
      destruct (update_ui_ok m s) as [w E]; unfold ui in E;
      rewrite E; clear E; cbn [world trace]
  end.

Ltac close_attempt :=
  do 3 eexists; split;
  [ rewrite <- ?app_assoc; reflexivity
  | econstructor; eassumption ].

Lemma attempt_spec (query : string) (max_attempts : Z) (c : nat)
    (url : string) (tried : list string) (s : state World) :
  exists w' evs r,
    attempt World scrape_single_url query_chat_model status_callback
      placeholder_info CHAT_MODEL query max_attempts c url tried s
    = (Return r, {| world := w'; trace := trace s ++ evs |})
    /\ attempt_trace CHAT_MODEL query max_attempts c url tried evs r.
Proof.
  unfold attempt, bind. ui_step. ui_step.
  unfold scrape_step, try_except, bind, call. cbn [world trace].
  destruct (scrape_single_url url w0) as [[r|err] w1].
  - destruct (usable r) as [t|] eqn:Hu.
    + ui_step. unfold ret. ui_step.
      unfold analyze_step, try_except, bind, lift.
      destruct (str_slice_to t _) as [sliced|err] eqn:Hs.
      * unfold call. cbn [world trace].
        destruct (query_chat_model _ w3) as [[resp|err] w4].
        -- destruct (accepted resp) as [a|] eqn:Ha.
           ++ ui_step. close_attempt.
           ++ ui_step. close_attempt.
        -- ui_step. close_attempt.
      * ui_step. close_attempt.
    + ui_step. unfold ret. close_attempt.
  - ui_step. unfold ret. close_attempt.
Qed.

Lemma for_loop_spec (query : string) (max_attempts : Z)
    (rest : list string) :
  forall (c : nat) (tried : list string) (s : state World),
  exists w' evs out,
    for_loop World scrape_single_url query_chat_model status_callback
      placeholder_info CHAT_MODEL query max_attempts c rest tried s
    = (Return out, {| world := w'; trace := trace s ++ evs |})
    /\ loop_trace CHAT_MODEL query max_attempts c rest tried evs out.
Proof.
  induction rest as [|url rest IH]; intros c tried s; cbn [for_loop];
    unfold bind.
  - ui_step. unfold ret. do 3 eexists. split; [reflexivity|constructor].
  - destruct (attempt_spec query max_attempts c url (tried ++ [url]) s)
      as (w1 & evs & r & E & Ha).
    rewrite E. destruct r as [answer|].
    + unfold ret. do 3 eexists.
      split; [reflexivity|now apply LT_answered].
    + destruct (IH (S c) (tried ++ [url])%list
                  {| world := w1; trace := trace s ++ evs |})
        as (w2 & evs' & out & E2 & Hl).
      rewrite E2. cbn [trace]. exists w2, (evs ++ evs')%list, out.
      split; [now rewrite app_assoc|eapply LT_next; eauto].
Qed.

(** With a working sink every session returns, and its trace is one that
    [loop_trace] describes. *)
Lemma run_spec (query : string) (urls : list string) (max_attempts : Z)
    (w : World) :
  exists w' evs out,
    run query urls max_attempts (start w)
    = (Return out, {| world := w'; trace := evs |})
    /\ loop_trace CHAT_MODEL query max_attempts 1
         (list_slice_to urls max_attempts) [] evs out.
Proof.
  unfold run, run_search_session.
  destruct (for_loop_spec query max_attempts
              (list_slice_to urls max_attempts) 1%nat [] (start w))
    as (w' & evs & out & E & Hl).
  exists w', evs, out. split; [exact E|exact Hl].
Qed.

End SessionRuns.

(* ===================================================================== *)
(** ** Sessions with any sink *)
(* ===================================================================== *)

Section AnySink.

Variable World : Type.
Variable scrape_single_url : string -> World -> res (option string) * World.
Variable query_chat_model : string -> World -> res string * World.
Variable status_callback : notice -> World -> res unit * World.
Variable placeholder_info : World -> res unit * World.
Variable CHAT_MODEL : string.

Let ui := update_ui World status_callback placeholder_info.
Let run := run_search_session World scrape_single_url query_chat_model
             status_callback placeholder_info CHAT_MODEL.

Lemma bind_lift_return {A B : Type} (a : A) (k : A -> M World B) :
  bind World (lift World (Return a)) k = k a.
Proof. reflexivity. Qed.

(** *** Every step only appends to the trace *)

Lemma extends_ret {A : Type} (a : A) : extends (ret World a).
Proof. intros s. exists []. simpl. now rewrite app_nil_r. Qed.

Lemma extends_lift {A : Type} (r : res A) : extends (lift World r).
Proof. intros s. exists []. simpl. now rewrite app_nil_r. Qed.

Lemma extends_bind {A B : Type} (m : M World A) (k : A -> M World B) :
  extends m -> (forall a, extends (k a)) -> extends (bind World m k).
Proof.
  intros Hm Hk s. unfold bind.
  destruct (Hm s) as [evs He]. destruct (m s) as [[a|e] s1]; cbn [snd] in He.
  - destruct (Hk a s1) as [evs' He']. exists (evs ++ evs')%list.
    now rewrite He', He, app_assoc.
  - exists evs. exact He.
Qed.

Lemma extends_try {A : Type} (body : M World A) (handler : exn -> M World A) :
  extends body -> (forall e, extends (handler e)) ->
  extends (try_except World body handler).
Proof.
  intros Hb Hh s. unfold try_except.
  destruct (Hb s) as [evs He]. destruct (body s) as [[a|e] s1]; cbn [snd] in He.
  - exists evs. exact He.
  - destruct (Hh e s1) as [evs' He']. exists (evs ++ evs')%list.
    now rewrite He', He, app_assoc.
Qed.

Lemma extends_call {A : Type} (f : World -> res A * World)
    (ev : res A -> event) :
  extends (call World f ev).
Proof.
  intros s. unfold call. destruct (f (world s)) as [r w1].
  exists [ev r]. reflexivity.
Qed.

Lemma extends_update_ui (m : notice) : extends (ui m).
Proof.
  unfold ui, update_ui, update_status.
  apply extends_bind; [apply extends_call|intros _; apply extends_call].
Qed.

Ltac extends_step :=
  first [ apply extends_update_ui
        | apply extends_ret
        | apply extends_lift
        | apply extends_call
        | apply extends_try
        | apply extends_bind
        | match goal with
          | |- extends (match ?x with _ => _ end) => destruct x
          end
        | intro ].

Lemma extends_scrape_step (c : nat) (url : string) (tried : list string) :
  extends (scrape_step World scrape_single_url status_callback
             placeholder_info c url tried).
Proof. unfold scrape_step. repeat extends_step. Qed.

Lemma extends_analyze_step (query : string) (c : nat) (url text : string) :
  extends (analyze_step World query_chat_model status_callback
             placeholder_info CHAT_MODEL query c url text).
Proof. unfold analyze_step. repeat extends_step. Qed.

Lemma extends_attempt (query : string) (max_attempts : Z) (c : nat)
    (url : string) (tried : list string) :
  extends (attempt World scrape_single_url query_chat_model status_callback
             placeholder_info CHAT_MODEL query max_attempts c url tried).
Proof.
  unfold attempt.
  apply extends_bind; [apply extends_update_ui|intros _].
  apply extends_bind; [apply extends_update_ui|intros _].
  apply extends_bind; [apply extends_scrape_step|intros [t|]].
  - apply extends_bind; [apply extends_update_ui|intros _].
    apply extends_analyze_step.
  - apply extends_ret.
Qed.

Lemma extends_for_loop (query : string) (max_attempts : Z)
    (rest : list string) :
  forall (c : nat) (tried : list string),
    extends (for_loop World scrape_single_url query_chat_model
               status_callback placeholder_info CHAT_MODEL
               query max_attempts c rest tried).
Proof.
  induction rest as [|url rest IH]; intros c tried; cbn [for_loop].
  - apply extends_bind; [apply extends_update_ui|intros _; apply extends_ret].
  - apply extends_bind; [apply extends_attempt|].
    intros [answer|]; [apply extends_ret|apply IH].
Qed.

(** A call made first stays first in what the computation appends, also
    under a [try] whose handler only appends. *)
Lemma call_first {A B : Type} (f : World -> res A * World)
    (ev : res A -> event) (k : A -> M World B) (handler : exn -> M World B) :
  (forall a, extends (k a)) -> (forall e, extends (handler e)) ->
  forall s, exists r rest,
    trace (snd (try_except World (bind World (call World f ev) k) handler s))
    = (trace s ++ ev r :: rest)%list.
Proof.
  intros Hk Hh s. unfold try_except, bind, call.
  destruct (f (world s)) as [[a|e] w1].
  - destruct (Hk a {| world := w1; trace := trace s ++ [ev (Return a)] |})
      as [evs He]. cbn [trace] in He.
    destruct (k a _) as [[b|e] s1]; cbn [snd] in *.
    + exists (Return a), evs. now rewrite He, <- app_assoc.
    + destruct (Hh e s1) as [evs' He']. exists (Return a), (evs ++ evs')%list.
      now rewrite He', He, <- !app_assoc.
  - destruct (Hh e {| world := w1; trace := trace s ++ [ev (Raise e)] |})
      as [evs He]. cbn [trace] in He.
    exists (Raise e), evs. now rewrite He, <- app_assoc.
Qed.

(** *** Only a failure of the sink escapes *)

Lemma only_sink_ret {A : Type} (a : A) : only_sink (ret World a).
Proof. intros s e s' H. discriminate. Qed.

Lemma only_sink_bind {A B : Type} (m : M World A) (k : A -> M World B) :
  only_sink m -> (forall a, only_sink (k a)) -> only_sink (bind World m k).
Proof.
  intros Hm Hk s e s' H. unfold bind in H.
  destruct (m s) as [[a|e1] s1] eqn:E.
  - eapply Hk; eauto.
  - injection H as <- <-. eapply Hm; eauto.
Qed.

Lemma only_sink_try {A : Type} (body : M World A)
    (handler : exn -> M World A) :
  (forall e, only_sink (handler e)) ->
  only_sink (try_except World body handler).
Proof.
  intros Hh s e s' H. unfold try_except in H.
  destruct (body s) as [[a|e1] s1] eqn:E.
  - discriminate.
  - eapply Hh; eauto.
Qed.

Lemma only_sink_update_ui (m : notice) : only_sink (ui m).
Proof.
  intros s e s' H.
  unfold ui, update_ui, update_status, bind, call in H.
  destruct (status_callback m (world s)) as [[[]|e1] w1].
  - cbn [world trace] in H.
    destruct (placeholder_info w1) as [[[]|e2] w2]; [discriminate|].
    injection H as <- <-. cbn [trace].
    exists (trace s ++ [EvNotice m (Return tt)])%list, (EvRender (Raise e2)).
    split; reflexivity.
  - injection H as <- <-. cbn [trace].
    exists (trace s), (EvNotice m (Raise e1)). split; reflexivity.
Qed.

Lemma only_sink_attempt (query : string) (max_attempts : Z) (c : nat)
    (url : string) (tried : list string) :
  only_sink (attempt World scrape_single_url query_chat_model status_callback
               placeholder_info CHAT_MODEL query max_attempts c url tried).
Proof.
  unfold attempt.
  apply only_sink_bind; [apply only_sink_update_ui|intros _].
  apply only_sink_bind; [apply only_sink_update_ui|intros _].
  apply only_sink_bind.
  - unfold scrape_step. apply only_sink_try. intros e.
    apply only_sink_bind; [apply only_sink_update_ui|intros _].
    apply only_sink_ret.
  - intros [t|]; [|apply only_sink_ret].
    apply only_sink_bind; [apply only_sink_update_ui|intros _].
    unfold analyze_step. apply only_sink_try. intros e.
    apply only_sink_bind; [apply only_sink_update_ui|intros _].
    apply only_sink_ret.
Qed.

Lemma only_sink_for_loop (query : string) (max_attempts : Z)
    (rest : list string) :
  forall (c : nat) (tried : list string),
    only_sink (for_loop World scrape_single_url query_chat_model
                 status_callback placeholder_info CHAT_MODEL
                 query max_attempts c rest tried).
Proof.
  induction rest as [|url rest IH]; intros c tried; cbn [for_loop].
  - apply only_sink_bind; [apply only_sink_update_ui|intros _].
    apply only_sink_ret.
  - apply only_sink_bind; [apply only_sink_attempt|].
    intros [answer|]; [apply only_sink_ret|apply IH].
Qed.

(** *** A quiet session is a session with a sink that cannot raise *)

Let qcb := quiet_callback status_callback.
Let qinfo := quiet_info placeholder_info.

Lemma quiet_sink_ok : sink_ok qcb qinfo.
Proof. split; intros; reflexivity. Qed.

Lemma quiet_app (evs evs' : list event) :
  quiet (evs ++ evs') <-> quiet evs /\ quiet evs'.
Proof.
  unfold quiet. split.
  - intros H. split; intros ev Hin; apply H, in_or_app; auto.
  - intros [H1 H2] ev Hin. apply in_app_or in Hin. destruct Hin; auto.
Qed.

Lemma agree_refl {A : Type} (m : M World A) : agree m m.
Proof. intros s evs _ _. reflexivity. Qed.

Lemma agree_bind {A B : Type} (m m' : M World A) (k k' : A -> M World B) :
  extends m -> agree m m' ->
  (forall a, extends (k a)) -> (forall a, agree (k a) (k' a)) ->
  agree (bind World m k) (bind World m' k').
Proof.
  intros Em Am Ek Ak s evs Ht Hq. unfold bind in *.
  destruct (Em s) as [evs1 H1].
  specialize (Am s evs1 H1).
  destruct (m s) as [[a|e] s1]; cbn [snd] in H1.
  - destruct (Ek a s1) as [evs2 H2].
    assert (Hevs : evs = (evs1 ++ evs2)%list).
    { rewrite H2, H1, <- app_assoc in Ht. now apply app_inv_head in Ht. }
    subst evs. apply quiet_app in Hq. destruct Hq as [Hq1 Hq2].
    rewrite <- (Am Hq1). apply (Ak a s1 evs2 H2 Hq2).
  - assert (Hevs : evs = evs1).
    { cbn [snd] in Ht. rewrite H1 in Ht. now apply app_inv_head in Ht. }
    subst evs. rewrite <- (Am Hq). reflexivity.
Qed.

Lemma agree_try {A : Type} (body body' : M World A)
    (handler handler' : exn -> M World A) :
  extends body -> agree body body' ->
  (forall e, extends (handler e)) ->
  (forall e, agree (handler e) (handler' e)) ->
  agree (try_except World body handler) (try_except World body' handler').
Proof.
  intros Eb Ab Eh Ah s evs Ht Hq. unfold try_except in *.
  destruct (Eb s) as [evs1 H1].
  specialize (Ab s evs1 H1).
  destruct (body s) as [[a|e] s1]; cbn [snd] in H1.
  - assert (Hevs : evs = evs1).
    { cbn [snd] in Ht. rewrite H1 in Ht. now apply app_inv_head in Ht. }
    subst evs. rewrite <- (Ab Hq). reflexivity.
  - destruct (Eh e s1) as [evs2 H2].
    assert (Hevs : evs = (evs1 ++ evs2)%list).
    { rewrite H2, H1, <- app_assoc in Ht. now apply app_inv_head in Ht. }
    subst evs. apply quiet_app in Hq. destruct Hq as [Hq1 Hq2].
    rewrite <- (Ab Hq1). apply (Ah e s1 evs2 H2 Hq2).
Qed.

Lemma agree_update_ui (m : notice) :
  agree (ui m) (update_ui World qcb qinfo m).
Proof.
  intros s evs Ht Hq.
  unfold ui, qcb, qinfo, update_ui, update_status, bind, call,
    quiet_callback, quiet_info in *.
  destruct (status_callback m (world s)) as [[[]|e1] w1];
    cbn [world trace snd fst] in *.
  - destruct (placeholder_info w1) as [[[]|e2] w2];
      cbn [world trace snd fst] in *.
    + reflexivity.
    + exfalso. rewrite <- app_assoc in Ht. apply app_inv_head in Ht.
      subst evs.
      specialize (Hq (EvRender (Raise e2)) (or_intror (or_introl eq_refl))).
      discriminate.
  - exfalso. apply app_inv_head in Ht. subst evs.
    specialize (Hq (EvNotice m (Raise e1)) (or_introl eq_refl)).
    discriminate.
Qed.

Ltac agree_ui_then :=
  apply agree_bind;
  [ apply extends_update_ui | apply agree_update_ui
  | intros _; apply extends_ret | intros _; apply agree_refl ].

Lemma agree_scrape_step (c : nat) (url : string) (tried : list string) :
  agree (scrape_step World scrape_single_url status_callback
           placeholder_info c url tried)
        (scrape_step World scrape_single_url qcb qinfo c url tried).
Proof.
  unfold scrape_step. apply agree_try.
  - repeat extends_step.
  - apply agree_bind; [apply extends_call|apply agree_refl| |].
    + intros r. destruct (usable r); repeat extends_step.
    + intros r. destruct (usable r); agree_ui_then.
  - intros e. repeat extends_step.
  - intros e. agree_ui_then.
Qed.

Lemma agree_analyze_step (query : string) (c : nat) (url text : string) :
  agree (analyze_step World query_chat_model status_callback
           placeholder_info CHAT_MODEL query c url text)
        (analyze_step World query_chat_model qcb qinfo CHAT_MODEL
           query c url text).
Proof.
  unfold analyze_step. apply agree_try.
  - repeat extends_step.
  - apply agree_bind; [apply extends_lift|apply agree_refl| |].
    + intros sliced. repeat extends_step.
    + intros sliced.
      apply agree_bind; [apply extends_call|apply agree_refl| |].
      * intros resp. destruct (accepted resp); repeat extends_step.
      * intros resp. destruct (accepted resp); agree_ui_then.
  - intros e. repeat extends_step.
  - intros e. agree_ui_then.
Qed.

Lemma agree_attempt (query : string) (max_attempts : Z) (c : nat)
    (url : string) (tried : list string) :
  agree (attempt World scrape_single_url query_chat_model status_callback
           placeholder_info CHAT_MODEL query max_attempts c url tried)
        (attempt World scrape_single_url query_chat_model qcb qinfo
           CHAT_MODEL query max_attempts c url tried).
Proof.
  unfold attempt.
  apply agree_bind; [apply extends_update_ui|apply agree_update_ui| |];
    try (intros _; repeat extends_step;
         first [apply extends_scrape_step|apply extends_analyze_step]).
  intros _.
  apply agree_bind; [apply extends_update_ui|apply agree_update_ui| |];
    try (intros _; repeat extends_step;
         first [apply extends_scrape_step|apply extends_analyze_step]).
  intros _.
  apply agree_bind; [apply extends_scrape_step|apply agree_scrape_step| |].
  - intros [t|]; [|apply extends_ret].
    apply extends_bind; [apply extends_update_ui|intros _].
    apply extends_analyze_step.
  - intros [t|]; [|apply agree_refl].
    apply agree_bind; [apply extends_update_ui|apply agree_update_ui| |];
      intros _; [apply extends_analyze_step|apply agree_analyze_step].
Qed.

Lemma agree_for_loop (query : string) (max_attempts : Z)
    (rest : list string) :
  forall (c : nat) (tried : list string),
    agree (for_loop World scrape_single_url query_chat_model
             status_callback placeholder_info CHAT_MODEL
             query max_attempts c rest tried)
          (for_loop World scrape_single_url query_chat_model qcb qinfo
             CHAT_MODEL query max_attempts c rest tried).
Proof.
  induction rest as [|url rest IH]; intros c tried; cbn [for_loop].
  - agree_ui_then.
  - apply agree_bind; [apply extends_attempt|apply agree_attempt| |].
    + intros [answer|]; [apply extends_ret|apply extends_for_loop].
    + intros [answer|]; [apply agree_refl|apply IH].
Qed.

(** A session in which no sink call raises returns, and its trace is one
    that [loop_trace] describes. *)
Lemma run_spec_quiet (query : string) (urls : list string)
    (max_attempts : Z) (w : World) :
  quiet (trace (snd (run query urls max_attempts (start w)))) ->
  exists w' evs out,
    run query urls max_attempts (start w)
    = (Return out, {| world := w'; trace := evs |})
    /\ loop_trace CHAT_MODEL query max_attempts 1
         (list_slice_to urls max_attempts) [] evs out.
Proof.
  intros Hq.
  assert (E : run query urls max_attempts (start w)
              = run_search_session World scrape_single_url query_chat_model
                  qcb qinfo CHAT_MODEL query urls max_attempts (start w)).
  { unfold run, run_search_session.
    apply (agree_for_loop query max_attempts _ 1%nat [] (start w)
             (trace (snd (run query urls max_attempts (start w)))));
      [reflexivity|exact Hq]. }
  rewrite E.
  apply (run_spec World scrape_single_url query_chat_model qcb qinfo
           CHAT_MODEL quiet_sink_ok).
Qed.

End AnySink.

(* ===================================================================== *)
(** ** Slices of the candidate list *)
(* ===================================================================== *)

Lemma nth_error_firstn_some {A : Type} (n i : nat) (l : list A) (x : A) :
  nth_error (firstn n l) i = Some x -> (i < n)%nat /\ nth_error l i = Some x.
Proof.
  rewrite nth_error_firstn. destruct (Nat.ltb_spec i n); [auto|discriminate].
Qed.

Lemma firstn_succ_snoc {A : Type} (l : list A) (i : nat) (x : A) :
  nth_error l i = Some x -> firstn (S i) l = (firstn i l ++ [x])%list.
Proof.
  revert i. induction l as [|y l IH]; intros [|i] H; simpl in *;
    try discriminate.
  - injection H as ->. reflexivity.
  - rewrite (IH i H). reflexivity.
Qed.

Lemma firstn_of_slice {A : Type} (l : list A) (j n : nat) :
  (j <= n)%nat -> firstn j (firstn n l) = firstn j l.
Proof. intros H. rewrite firstn_firstn, Nat.min_l by exact H. reflexivity. Qed.

Lemma NoDup_firstn {A : Type} (n : nat) (l : list A) :
  NoDup l -> NoDup (firstn n l).
Proof.
  intros H. rewrite <- (firstn_skipn n l) in H.
  eapply NoDup_app_remove_r; eauto.
Qed.

Lemma clamp_le (n : nat) (k : Z) : (clamp n k <= n)%nat.
Proof. unfold clamp. destruct (k <? 0) eqn:E; lia. Qed.


Lemma clamp_negative (n : nat) (m : Z) :
  0 < m -> clamp n (- m) = Z.to_nat (Z.max 0 (Z.of_nat n - m)).
Proof. intros H. unfold clamp. destruct (Z.ltb_spec (- m) 0); lia. Qed.

Lemma list_slice_to_prefix {A : Type} (l : list A) (k : Z) (j : nat) :
  (j <= length (list_slice_to l k))%nat ->
  firstn j (list_slice_to l k) = firstn j l.
Proof.
  unfold list_slice_to. intros H. apply firstn_of_slice.
  rewrite length_firstn in H. lia.
Qed.

Lemma list_slice_to_nth {A : Type} (l : list A) (k : Z) (i : nat) (x : A) :
  nth_error (list_slice_to l k) i = Some x ->
  nth_error l i = Some x /\ (S i <= length (list_slice_to l k))%nat.
Proof.
  intros H. split.
  - unfold list_slice_to in H. now apply nth_error_firstn_some in H.
  - assert (Hn : nth_error (list_slice_to l k) i <> None) by congruence.
    apply nth_error_Some in Hn. lia.
Qed.

(* ===================================================================== *)
(** ** The session properties *)
(* ===================================================================== *)

Section SessionClaims.

Variable World : Type.
Variable scrape_single_url : string -> World -> res (option string) * World.
Variable query_chat_model : string -> World -> res string * World.
Variable status_callback : notice -> World -> res unit * World.
Variable placeholder_info : World -> res unit * World.
Variable CHAT_MODEL : string.

Let run := run_search_session World scrape_single_url query_chat_model
             status_callback placeholder_info CHAT_MODEL.



(** C3 (as amended). Every session in which no sink call raises returns a
    result string and [tried_urls], the string being the exhaustion message
    for the URLs tried or an accepted answer with its attribution line; a
    fetch or judge call that raises for the URL at index [j-1] is reported
    by a status notice, its URL is counted in [tried_urls], and the URL at
    index [j], when the budget reaches it, is fetched all the same. *)
Theorem failure_isolation (query : string) (urls : list string)
    (max_attempts : Z) (w : World) :
  quiet (trace (snd (run query urls max_attempts (start w)))) ->
  exists (result : string) (tried_urls : list string),
    fst (run query urls max_attempts (start w)) = Return (result, tried_urls)
    /\ (result = failure_message_of (length tried_urls)
        \/ exists e a u,
             In e (trace (snd (run query urls max_attempts (start w))))
             /\ sufficient_ev e = Some a /\ ev_url e = Some u
             /\ result = with_ref a u)
    /\ forall e m j,
         In e (trace (snd (run query urls max_attempts (start w)))) ->
         failure_notice e = Some m ->
         ev_attempt e = Some j ->
         In (EvNotice m (Return tt))
            (trace (snd (run query urls max_attempts (start w))))
         /\ (exists url, ev_url e = Some url
                         /\ nth_error urls (j - 1) = Some url
                         /\ nth_error tried_urls (j - 1) = Some url)
         /\ forall next,
              nth_error (list_slice_to urls max_attempts) j = Some next ->
              exists t fr,
                In (EvFetch (S j) next t fr)
                   (trace (snd (run query urls max_attempts (start w)))).
Proof.
  intros Hq.
  destruct (run_spec_quiet World scrape_single_url query_chat_model
              status_callback placeholder_info CHAT_MODEL
              query urls max_attempts w Hq)
    as (w' & evs & [result tried_urls] & E & Hl).
  fold run in E. rewrite E. cbn [fst snd trace].
  exists result, tried_urls. split; [reflexivity|]. split.
  { exact (loop_trace_result _ _ _ _ _ _ _ _ Hl). }
  intros e m j Hin Hf He.
  destruct (loop_trace_failure _ _ _ _ _ _ _ _ _ _ Hl Hin Hf) as [Hn Hnext].
  assert (Hj : (1 <= j)%nat)
    by exact (loop_trace_counter _ _ _ _ _ _ _ _ _ _ Hl Hin He).
  split; [exact Hn|]. split.
  - assert (Hu : exists url, ev_url e = Some url).
    { destruct e as [| |? url ? [|]|? url ? [|]]; try discriminate;
        exists url; reflexivity. }
    destruct Hu as [url Hu]. exists url. split; [exact Hu|].
    pose proof (loop_trace_tried _ _ _ _ _ _ _ _ _ _ _ Hl Hin He Hu) as Ht.
    cbn [snd length Nat.add] in Ht. split; [|exact Ht].
    destruct (loop_trace_prefix _ _ _ _ _ _ _ _ Hl) as (n & _ & Hs & _).
    cbn [snd] in Hs. rewrite app_nil_l in Hs. rewrite Hs in Ht.
    apply nth_error_firstn_some in Ht. destruct Ht as [_ Ht].
    unfold list_slice_to in Ht.
    now apply nth_error_firstn_some in Ht.
  - intros next Hnx. apply (Hnext j next He).
    replace (S (j - 1)) with j by lia. exact Hnx.
Qed.

(** C10 (as amended). Whatever integer the budget is, a session in which
    no sink call raises returns.  With budget 0 it makes no fetch or judge
    call and returns the exhaustion message for 0 URLs with an empty
    [tried_urls].  With a negative budget [-m] the slice [urls[:-m]] keeps
    the first [max 0 (n - m)] candidates: the session fetches a prefix of
    them, and all of them when no verdict is accepted. *)
Theorem any_integer_budget (query : string) (urls : list string)
    (max_attempts : Z) (w : World) :
  quiet (trace (snd (run query urls max_attempts (start w)))) ->
  (exists (result : string) (tried_urls : list string),
      fst (run query urls max_attempts (start w))
      = Return (result, tried_urls))
  /\ (max_attempts = 0 ->
      fst (run query urls max_attempts (start w))
      = Return ("Could not find a sufficient answer after trying 0 URL(s).",
                [])
      /\ forall e,
           In e (trace (snd (run query urls max_attempts (start w)))) ->
           ev_attempt e = None)
  /\ forall m, 0 < m -> max_attempts = - m ->
       let reach := Z.to_nat (Z.max 0 (Z.of_nat (length urls) - m)) in
       list_slice_to urls max_attempts = firstn reach urls
       /\ (exists result n,
             (n <= reach)%nat
             /\ fst (run query urls max_attempts (start w))
                = Return (result, firstn n urls)
             /\ fetched_urls
                  (trace (snd (run query urls max_attempts (start w))))
                = firstn n urls)
       /\ ((forall e,
              In e (trace (snd (run query urls max_attempts (start w)))) ->
              sufficient_ev e = None) ->
           fst (run query urls max_attempts (start w))
           = Return (failure_message_of reach, firstn reach urls)
           /\ fetched_urls
                (trace (snd (run query urls max_attempts (start w))))
              = firstn reach urls).
Proof.
  intros Hq.
  destruct (run_spec_quiet World scrape_single_url query_chat_model
              status_callback placeholder_info CHAT_MODEL
              query urls max_attempts w Hq)
    as (w' & evs & [result tried_urls] & E & Hl).
  fold run in E. rewrite E. cbn [fst snd trace].
  split; [now exists result, tried_urls|]. split.
  - intros ->.
    assert (Hz : list_slice_to urls 0 = []).
    { unfold list_slice_to, clamp. simpl. now rewrite Nat.min_0_r. }
    rewrite Hz in Hl. inversion Hl; subst.
    split; [reflexivity|]. intros e Hin. in_cases Hin; reflexivity.
  - intros m Hm ->.
    set (reach := Z.to_nat (Z.max 0 (Z.of_nat (length urls) - m))).
    assert (Hs : list_slice_to urls (- m) = firstn reach urls).
    { unfold list_slice_to. now rewrite clamp_negative. }
    assert (Hr : length (firstn reach urls) = reach).
    { rewrite length_firstn. unfold reach. lia. }
    split; [exact Hs|]. split.
    + destruct (loop_trace_prefix _ _ _ _ _ _ _ _ Hl) as (n & Hle & Ht & Hf).
      cbn [snd] in Ht. rewrite app_nil_l in Ht.
      rewrite list_slice_to_prefix in Ht, Hf by exact Hle.
      exists result, n. rewrite Hs, Hr in Hle.
      split; [exact Hle|]. split; [now rewrite Ht|exact Hf].
    + intros Hno.
      destruct (loop_trace_exhausted _ _ _ _ _ _ _ _ Hl Hno) as [Ho Hf].
      rewrite app_nil_l in Ho. rewrite Hs in Ho, Hf. rewrite Hr in Ho.
      split; [now rewrite Ho|exact Hf].
Qed.

End SessionClaims.

(* ===================================================================== *)
(** ** When the sink fails, and the context cap *)
(* ===================================================================== *)

Section SinkFailures.

Variable World : Type.
Variable scrape_single_url : string -> World -> res (option string) * World.
Variable query_chat_model : string -> World -> res string * World.
Variable status_callback : notice -> World -> res unit * World.
Variable placeholder_info : World -> res unit * World.
Variable CHAT_MODEL : string.

Let run := run_search_session World scrape_single_url query_chat_model
             status_callback placeholder_info CHAT_MODEL.

(** C9 (as amended). A failure of the status sink is not contained: when
    the first sink call of a session raises (the notice of attempt 1, or
    the final notice when there is nothing to try), [run_search_session]
    raises that exception; whenever [run_search_session] raises, the last
    call it made is a sink call that raised that very exception; so a
    session in which no sink call raises returns a result string and
    [tried_urls]. *)
Theorem only_sink_failures_escape (query : string) (urls : list string)
    (max_attempts : Z) (w : World) :
  (forall e,
     fst (status_callback
            match list_slice_to urls max_attempts with
            | url :: _ => NAttempt 1 max_attempts url
            | [] => NFinished (failure_message_of 0)
            end w) = Raise e ->
     fst (run query urls max_attempts (start w)) = Raise e)
  /\ (forall e,
        fst (run query urls max_attempts (start w)) = Raise e ->
        exists evs ev,
          trace (snd (run query urls max_attempts (start w)))
          = (evs ++ [ev])%list
          /\ sink_raised ev = Some e)
  /\ ((forall ev,
         In ev (trace (snd (run query urls max_attempts (start w)))) ->
         sink_raised ev = None) ->
      exists (result : string) (tried_urls : list string),
        fst (run query urls max_attempts (start w))
        = Return (result, tried_urls)).
Proof.
  assert (Hesc : forall e,
     fst (run query urls max_attempts (start w)) = Raise e ->
     exists evs ev,
       trace (snd (run query urls max_attempts (start w)))
       = (evs ++ [ev])%list
       /\ sink_raised ev = Some e).
  { intros e He.
    destruct (run query urls max_attempts (start w)) as [r s'] eqn:E.
    cbn [fst snd] in *. subst r.
    unfold run, run_search_session in E.
    exact (only_sink_for_loop _ _ _ _ _ _ _ _ _ _ _ _ _ _ E). }
  split; [|split; [exact Hesc|]].
  - intros e He. unfold run, run_search_session.
    destruct (list_slice_to urls max_attempts) as [|url rest];
      cbn [for_loop]; unfold attempt, update_ui, update_status, bind, call;
      cbn [start world trace length];
      destruct (status_callback _ w) as [r1 w1]; cbn [fst] in He;
      subst r1; reflexivity.
  - intros Hquiet.
    destruct (fst (run query urls max_attempts (start w)))
      as [[result tried_urls]|e] eqn:E.
    + now exists result, tried_urls.
    + destruct (Hesc e eq_refl) as (evs & ev & Ht & Hr).
      rewrite (Hquiet ev) in Hr; [discriminate|].
      rewrite Ht. apply in_or_app. right. now left.
Qed.

(** C4. For the configured model "gemma3:4b" the cap is looked up with
    [getattr] on the table object, which finds no such attribute and yields
    the fallback 15000, although the table maps the model to 100000: the
    judge is sent the first 15000 characters of the text, so that a text of
    20000 characters loses its last 5000. *)
Theorem context_cap_for_configured_model (query : string) (c : nat)
    (url scraped_text : string) (s : state World) :
  getattr_dict MAX_LLM_CONTEXT_LENGTH default_CHAT_MODEL 15000 = PyInt 15000
  /\ dict_get MAX_LLM_CONTEXT_LENGTH default_CHAT_MODEL 15000 = 100000
  /\ (exists r rest,
        trace (snd (analyze_step World query_chat_model status_callback
                      placeholder_info default_CHAT_MODEL
                      query c url scraped_text s))
        = (trace s
           ++ EvJudge c url
                (SUFFICIENCY_CHECK_PROMPT_TEMPLATE_format query url
                   (slice_to scraped_text 15000)) r
           :: rest)%list)
  /\ len (slice_to (replicate (Z.to_nat 20000) "a") 15000) = 15000
  /\ len (slice_to (replicate (Z.to_nat 20000) "a") 100000) = 20000.
Proof.
  assert (Hg : getattr_dict MAX_LLM_CONTEXT_LENGTH default_CHAT_MODEL 15000
               = PyInt 15000) by reflexivity.
  split; [exact Hg|]. split; [reflexivity|].
  split; [|split; vm_compute; reflexivity].
  unfold analyze_step. rewrite Hg. cbn [str_slice_to].
  rewrite bind_lift_return.
  set (prompt := SUFFICIENCY_CHECK_PROMPT_TEMPLATE_format query url
                   (slice_to scraped_text 15000)).
  apply (call_first World (query_chat_model prompt)
           (EvJudge c url prompt)).
  - intros resp. destruct (accepted resp);
      (apply extends_bind;
       [apply extends_update_ui|intros _; apply extends_ret]).
  - intros e.
    apply extends_bind; [apply extends_update_ui|intros _; apply extends_ret].
Qed.

End SinkFailures.

(* ===================================================================== *)
(** ** Concrete sessions *)
(* ===================================================================== *)

Ltac pick_event := repeat (first [left; reflexivity | right]).

Ltac each_event :=
  let ev := fresh "ev" in
  let Hin := fresh "Hin" in
  intros ev Hin; vm_compute in Hin;
  repeat (destruct Hin as [Hin|Hin]; [subst ev; reflexivity|]);
  contradiction.



Lemma failure_isolation_witness :
  exists (result : string) (tried_urls : list string),
    fst (Demo.session "gemma3:4b" "q" ["urlA"; "urlB"; "urlC"] 3 (start tt))
    = Return (result, tried_urls)
    /\ In (EvNotice (NScrapeError "urlA" (Exn "renderer timeout")) (Return tt))
          (trace (snd (Demo.session "gemma3:4b" "q" ["urlA"; "urlB"; "urlC"]
                         3 (start tt))))
    /\ exists t fr,
         In (EvFetch 2 "urlB" t fr)
            (trace (snd (Demo.session "gemma3:4b" "q"
                           ["urlA"; "urlB"; "urlC"] 3 (start tt)))).
Proof.
  destruct (failure_isolation unit Demo.scrape Demo.judge Demo.callback
              Demo.info "gemma3:4b"
              "q" ["urlA"; "urlB"; "urlC"] 3 tt)
    as (result & tried_urls & Hr & _ & Hf).
  - unfold quiet. each_event.
  - exists result, tried_urls. split; [exact Hr|].
    destruct (Hf (EvFetch 1 "urlA" ["urlA"] (Raise (Exn "renderer timeout")))
                (NScrapeError "urlA" (Exn "renderer timeout")) 1%nat)
      as (Hn & _ & Hnext).
    + vm_compute. pick_event.
    + reflexivity.
    + reflexivity.
    + split; [exact Hn|]. apply Hnext. reflexivity.
Defined.

Lemma any_integer_budget_witness :
  fst (Demo.session "gemma3:4b" "q" ["urlA"; "urlB"; "urlD"] (- (1))
         (start tt))
  = Return ("Could not find a sufficient answer after trying 2 URL(s).",
            ["urlA"; "urlB"])
  /\ fst (Demo.session "gemma3:4b" "q" ["urlA"; "urlB"; "urlD"] 0 (start tt))
     = Return ("Could not find a sufficient answer after trying 0 URL(s).",
               []).
Proof.
  split.
  - destruct (any_integer_budget unit Demo.scrape Demo.judge Demo.callback
                Demo.info "gemma3:4b"
                "q" ["urlA"; "urlB"; "urlD"] (- (1)) tt)
      as (_ & _ & Hneg).
    + unfold quiet. each_event.
    + destruct (Hneg 1 ltac:(lia) eq_refl) as (_ & _ & Hall).
      destruct Hall as [Hr _]; [each_event|exact Hr].
  - destruct (any_integer_budget unit Demo.scrape Demo.judge Demo.callback
                Demo.info "gemma3:4b"
                "q" ["urlA"; "urlB"; "urlD"] 0 tt)
      as (_ & Hz & _).
    + unfold quiet. each_event.
    + destruct (Hz eq_refl) as [Hr _]. exact Hr.
Defined.

(** A candidate list that names one URL twice: both entries are attempted
    and both appear in [tried_urls]. *)
Lemma duplicate_candidates_counterexample :
  fst (Demo.session "gemma3:4b" "q" ["urlD"; "urlD"] 2 (start tt))
  = Return ("Could not find a sufficient answer after trying 2 URL(s).",
            ["urlD"; "urlD"])
  /\ ~ NoDup ["urlD"; "urlD"]
  /\ fetched_urls
       (trace (snd (Demo.session "gemma3:4b" "q" ["urlD"; "urlD"] 2
                      (start tt))))
     = ["urlD"; "urlD"].
Proof.
  split; [reflexivity|]. split; [|reflexivity].
  intros H. inversion H as [|x l Hn _]; subst. apply Hn. now left.
Qed.

(** A sink whose callback raises: the first notice of the first attempt
    ends the session with that exception. *)
Lemma broken_sink_counterexample :
  run_search_session unit Demo.scrape Demo.judge Demo.broken_callback
    Demo.info "gemma3:4b" "q" ["urlC"] 5 (start tt)
  = (Raise (Exn "sink unavailable"),
     {| world := tt;
        trace := [EvNotice (NAttempt 1 5 "urlC")
                    (Raise (Exn "sink unavailable"))] |})
  /\ ~ exists out,
         fst (run_search_session unit Demo.scrape Demo.judge
                Demo.broken_callback Demo.info "gemma3:4b" "q" ["urlC"] 5
                (start tt))
         = Return out.
Proof.
  split; [reflexivity|]. intros [out H]. discriminate.
Qed.



(** A sink that raises on the notice of a fetch error, which line 114
    issues in the [except] clause: the fetch of urlA raises, the notice of
    it raises, and the session ends with the sink's exception; urlB, within
    the budget, is never fetched. *)
Lemma failed_error_notice_counterexample :
  fst (run_search_session unit Demo.scrape Demo.judge
         (DemoSinks.raising_on DemoSinks.scrape_error) Demo.info
         "gemma3:4b" "q" ["urlA"; "urlB"] 5 (start tt))
  = Raise (Exn "sink unavailable")
  /\ In (EvFetch 1 "urlA" ["urlA"] (Raise (Exn "renderer timeout")))
        (trace (snd (run_search_session unit Demo.scrape Demo.judge
                       (DemoSinks.raising_on DemoSinks.scrape_error)
                       Demo.info "gemma3:4b" "q" ["urlA"; "urlB"] 5
                       (start tt))))
  /\ fetched_urls
       (trace (snd (run_search_session unit Demo.scrape Demo.judge
                      (DemoSinks.raising_on DemoSinks.scrape_error)
                      Demo.info "gemma3:4b" "q" ["urlA"; "urlB"] 5
                      (start tt))))
     = ["urlA"].
Proof.
  split; [reflexivity|]. split; [vm_compute; pick_event|reflexivity].
Qed.

(** A sink whose callback raises, with the budgets 0 and -1: the session
    raises at the final notice and at the notice of the first attempt. *)
Lemma raising_sink_budget_counterexample :
  fst (run_search_session unit Demo.scrape Demo.judge Demo.broken_callback
         Demo.info "gemma3:4b" "q" ["urlB"; "urlC"] 0 (start tt))
  = Raise (Exn "sink unavailable")
  /\ fst (run_search_session unit Demo.scrape Demo.judge Demo.broken_callback
            Demo.info "gemma3:4b" "q" ["urlB"; "urlC"] (- (1)) (start tt))
     = Raise (Exn "sink unavailable").
Proof. split; reflexivity. Qed.

(** A sink failure inside a [try] block is taken for a failure of the step:
    here the judge's answer for urlC is accepted, the success notice raises,
    and the session goes on to exhaustion. *)
Example picky_sink_loses_answer :
  fst (run_search_session unit Demo.scrape Demo.judge Demo.picky_callback
         Demo.info "gemma3:4b" "q" ["urlC"; "urlD"] 5 (start tt))
  = Return ("Could not find a sufficient answer after trying 2 URL(s).",
            ["urlC"; "urlD"]).
Proof. reflexivity. Qed.

(** The scenarios of the specification. *)
Example scenario_success_on_first_try :
  fst (Demo.session "gemma3:4b" "capital of X" ["urlC"] 5 (start tt))
  = Return ("Y" ++ nl ++ nl ++ "---" ++ nl ++ "*Source: urlC*", ["urlC"]).
Proof. reflexivity. Qed.

Example scenario_exhaustion :
  fst (run_search_session unit Demo.scrape Demo.judge_no Demo.callback
         Demo.info "gemma3:4b" "q" ["urlB"; "urlC"] 2 (start tt))
  = Return ("Could not find a sufficient answer after trying 2 URL(s).",
            ["urlB"; "urlC"]).
Proof. reflexivity. Qed.

(** A model name that is an attribute of the table object: the bound is a
    method, the slice raises inside the [try], and the judge is never
    called. *)
Example model_named_get :
  fst (Demo.session "get" "q" ["urlC"] 1 (start tt))
  = Return ("Could not find a sufficient answer after trying 1 URL(s).",
            ["urlC"])
  /\ filter is_judge (trace (snd (Demo.session "get" "q" ["urlC"] 1
                                    (start tt)))) = [].
Proof. split; reflexivity. Qed.

(* ===================================================================== *)
(** ** More about the parser and the prompt *)
(* ===================================================================== *)

(* ---------- trimming ---------- *)

Lemma rstrip_solid (s : string) : solid (rstrip s).
Proof.
  unfold solid. induction s as [|c s IH]; [reflexivity|].
  rewrite rstrip_cons. destruct (rstrip s) as [|b r] eqn:E.
  - destruct (isspace c) eqn:Hc; [reflexivity|].
    simpl. now rewrite Hc.
  - rewrite rstrip_cons, IH. reflexivity.
Qed.


Lemma lstrip_flush (s : string) : flush_left (lstrip s).
Proof.
  unfold flush_left. induction s as [|c s IH]; [reflexivity|].
  simpl. destruct (isspace c) eqn:Hc; [exact IH|].
  simpl. now rewrite Hc.
Qed.

Lemma rstrip_flush (s : string) : flush_left s -> flush_left (rstrip s).
Proof.
  unfold flush_left. destruct s as [|c s]; [reflexivity|].
  simpl lstrip. destruct (isspace c) eqn:Hc.
  - intros H. exfalso.
    assert (Hl : (String.length (lstrip s) <= String.length s)%nat).
    { clear. induction s as [|b s IH]; simpl; [lia|].
      destruct (isspace b); simpl; lia. }
    rewrite H in Hl. simpl in Hl. lia.
  - intros _. rewrite rstrip_cons.
    destruct (rstrip s); simpl; now rewrite Hc.
Qed.

Lemma strip_trimmed (s : string) :
  lstrip (strip s) = strip s /\ rstrip (strip s) = strip s.
Proof.
  unfold strip. split.
  - apply rstrip_flush, lstrip_flush.
  - apply rstrip_solid.
Qed.

Lemma strip_idempotent (s : string) : strip (strip s) = strip s.
Proof.
  destruct (strip_trimmed s) as [Hl Hr].
  unfold strip at 1. now rewrite Hl, Hr.
Qed.

(** An answer of the parser is a trimmed slice of the response. *)
Lemma parse_answer_slice (response a : string) :
  parse_llm_sufficiency_response response = (Some a, true) ->
  a <> "" /\ exists k, a = strip (slice_from response k).
Proof.
  intros H.
  destruct (parse_shape response) as [Hn|[b [Hb [_ Hs]]]]; [congruence|].
  rewrite Hs in H. injection H as <-. split; [exact Hb|].
  revert Hs. unfold parse_llm_sufficiency_response.
  destruct (String.eqb _ "insufficient context"); [discriminate|].
  destruct (negb _); [|discriminate].
  destruct (truthy _); [|discriminate].
  intros Hs. injection Hs as <-. eauto.
Qed.

(** X1. An answer that the parser returns is not empty and has no blank at
    either end: trimming it again changes nothing. *)
Theorem answer_is_trimmed (response a : string) :
  parse_llm_sufficiency_response response = (Some a, true) ->
  a <> "" /\ lstrip a = a /\ rstrip a = a /\ strip a = a.
Proof.
  intros H. destruct (parse_answer_slice response a H) as [Hne [k ->]].
  destruct (strip_trimmed (slice_from response k)) as [Hl Hr].
  split; [exact Hne|]. split; [exact Hl|]. split; [exact Hr|].
  apply strip_idempotent.
Qed.

(* ---------- letter case ---------- *)

Lemma lower_char_idempotent (c : ascii) :
  lower_char (lower_char c) = lower_char c.
Proof. destruct c as [[] [] [] [] [] [] [] []]; reflexivity. Qed.

Lemma lower_idempotent (s : string) : lower (lower s) = lower s.
Proof.
  induction s as [|c s IH]; [reflexivity|].
  simpl. now rewrite lower_char_idempotent, IH.
Qed.

Lemma rstrip_lower (s : string) : rstrip (lower s) = lower (rstrip s).
Proof.
  induction s as [|c s IH]; [reflexivity|].
  cbn [lower]. rewrite !rstrip_cons, IH, isspace_lower_char.
  destruct (rstrip s); [destruct (isspace c)|]; reflexivity.
Qed.

Lemma strip_lower (s : string) : strip (lower s) = lower (strip s).
Proof. unfold strip. now rewrite lstrip_lower, rstrip_lower. Qed.

Lemma length_lower (s : string) : String.length (lower s) = String.length s.
Proof. induction s as [|c s IH]; simpl; congruence. Qed.

Lemma drop_lower (n : nat) (s : string) : drop n (lower s) = lower (drop n s).
Proof.
  revert s. induction n as [|n IH]; intros [|c s]; simpl; auto.
Qed.

Lemma slice_from_lower (s : string) (k : Z) :
  slice_from (lower s) k = lower (slice_from s k).
Proof. unfold slice_from. now rewrite length_lower, drop_lower. Qed.

Lemma truthy_lower (s : string) : truthy (lower s) = truthy s.
Proof. destruct s; reflexivity. Qed.

(** X2. The verdict does not depend on the letter case of the response:
    the lower-cased response gets the same verdict, and its answer is the
    lower-cased answer of the response. *)
Theorem parse_ignores_letter_case (response : string) :
  parse_llm_sufficiency_response (lower response)
  = (option_map lower (fst (parse_llm_sufficiency_response response)),
     snd (parse_llm_sufficiency_response response)).
Proof.
  unfold parse_llm_sufficiency_response.
  rewrite lower_idempotent.
  destruct (String.eqb _ "insufficient context"); [reflexivity|].
  destruct (negb _); [|reflexivity].
  rewrite slice_from_lower, strip_lower, truthy_lower.
  destruct (truthy _); reflexivity.
Qed.

Lemma length_append (a b : string) :
  String.length (a ++ b) = (String.length a + String.length b)%nat.
Proof. induction a as [|c a IH]; simpl; congruence. Qed.

Lemma len_append (a b : string) : len (a ++ b) = len a + len b.
Proof. unfold len. rewrite length_append. lia. Qed.

Lemma prompt_length_sum (query url scraped_text : string) :
  len (SUFFICIENCY_CHECK_PROMPT_TEMPLATE_format query url scraped_text)
  = len (SUFFICIENCY_CHECK_PROMPT_TEMPLATE_format "" "" "")
    + len query + len url + len scraped_text.
Proof.
  unfold SUFFICIENCY_CHECK_PROMPT_TEMPLATE_format.
  cbn [String.concat]. rewrite !len_append.
  change (len "") with 0. lia.
Qed.

Lemma prompt_length_exact (query url scraped_text : string) :
  len (SUFFICIENCY_CHECK_PROMPT_TEMPLATE_format query url scraped_text)
  = 982 + len query + len url + len scraped_text.
Proof.
  rewrite prompt_length_sum.
  replace (len (SUFFICIENCY_CHECK_PROMPT_TEMPLATE_format "" "" "")) with 982
    by (vm_compute; reflexivity).
  reflexivity.
Qed.

Lemma length_take (n : nat) (s : string) :
  String.length (take n s) = Nat.min n (String.length s).
Proof.
  revert s. induction n as [|n IH]; intros [|c s]; simpl; auto.
Qed.

Lemma len_slice_to (s : string) (k : Z) :
  0 <= k -> len (slice_to s k) <= k /\ len (slice_to s k) <= len s.
Proof.
  intros Hk. unfold len, slice_to, clamp. rewrite length_take.
  destruct (Z.ltb_spec k 0); lia.
Qed.

Lemma len_slice_to_le (s : string) (k : Z) : len (slice_to s k) <= len s.
Proof.
  unfold len, slice_to. rewrite length_take.
  pose proof (clamp_le (String.length s) k). lia.
Qed.

(** X5. The filled template is 982 characters longer than the query, the
    URL and the text together; with the text cut at a bound [k] that is
    not negative (the loop cuts at 15000) the prompt has at most
    [982 + k] characters more than the query and the URL. *)
Theorem prompt_length_bound (query url scraped_text : string) (k : Z) :
  len (SUFFICIENCY_CHECK_PROMPT_TEMPLATE_format query url scraped_text)
  = 982 + len query + len url + len scraped_text
  /\ (0 <= k ->
      len (SUFFICIENCY_CHECK_PROMPT_TEMPLATE_format query url
             (slice_to scraped_text k))
      <= 982 + len query + len url + k
      /\ len (SUFFICIENCY_CHECK_PROMPT_TEMPLATE_format query url
               (slice_to scraped_text k))
         <= 982 + len query + len url + len scraped_text).
Proof.
  split; [apply prompt_length_exact|].
  intros Hk. rewrite prompt_length_exact.
  destruct (len_slice_to scraped_text k Hk). lia.
Qed.

Lemma rstrip_keeps_head (c : ascii) (s : string) :
  isspace c = false -> truthy (rstrip (String c s)) = true.
Proof.
  intros Hc. rewrite rstrip_cons.
  destruct (rstrip s); [rewrite Hc|]; reflexivity.
Qed.

(** The filled template is never blank: it begins with a line feed and
    the word [Original]. *)
Lemma prompt_not_blank (query url scraped_text : string) :
  truthy (SUFFICIENCY_CHECK_PROMPT_TEMPLATE_format query url scraped_text)
  = true
  /\ truthy (strip (SUFFICIENCY_CHECK_PROMPT_TEMPLATE_format
                      query url scraped_text)) = true.
Proof.
  assert (H : exists rest,
             SUFFICIENCY_CHECK_PROMPT_TEMPLATE_format query url scraped_text
             = String (ascii_of_nat 10) (String "O" rest))
    by (eexists; reflexivity).
  destruct H as [rest ->]. split; [reflexivity|].
  unfold strip. cbn [lstrip]. 
  change (isspace (ascii_of_nat 10)) with true. cbv iota.
  change (isspace "O") with false. cbv iota.
  now apply rstrip_keeps_head.
Qed.

(* ===================================================================== *)
(** ** The judge's client *)
(* ===================================================================== *)


(** X6. [extract_content] finds the content in two shapes of response
    only: an object whose [message] attribute is an object with a
    [content] attribute, or a dict whose [message] is a dict with a
    [content] key.  Anything else (a dict holding an object, an object
    holding a dict, [None], a string) is refused with the one
    [RuntimeError]. *)
Theorem extract_content_shapes (response : pyval) :
  (forall content,
     extract_content response = Done content <->
     (exists cn attrs cn' attrs',
         response = VObj cn attrs
         /\ entries_get "message" attrs = Some (VObj cn' attrs')
         /\ entries_get "content" attrs' = Some content)
     \/ (exists entries entries',
           response = VDict entries
           /\ entries_get "message" entries = Some (VDict entries')
           /\ entries_get "content" entries' = Some content))
  /\ (forall e,
        extract_content response = Fail e ->
        e = Raised RuntimeError
              "Failed to parse model response (unknown format)").
Proof.
  split.
  - intros content. unfold extract_content. split.
    + destruct response as [| | | | |entries|cn attrs]; simpl;
        try discriminate.
      * destruct (entries_get "message" entries)
          as [[| | | | |entries'|]|] eqn:Em; simpl; try discriminate.
        destruct (entries_get "content" entries') eqn:Ec; [|discriminate].
        intros H. injection H as <-. right. eauto.
      * destruct (entries_get "message" attrs)
          as [[| | | | | |cn' attrs']|] eqn:Em; simpl; try discriminate.
        destruct (entries_get "content" attrs') eqn:Ec; [|discriminate].
        intros H. injection H as <-. left. eauto 7.
    + intros [(cn & attrs & cn' & attrs' & -> & Hm & Hc)
             |(entries & entries' & -> & Hm & Hc)]; simpl;
        rewrite Hm; simpl; rewrite Hc; reflexivity.
  - intros e. unfold extract_content.
    destruct (match attr response "message" with
              | Some message => attr message "content" | None => None end);
      [discriminate|].
    destruct (match item response "message" with
              | Some message => item message "content" | None => None end);
      [discriminate|].
    intros H. now injection H as <-.
Qed.

Section LlmFacts.

Variable World : Type.
Variable Temperature : Type.
Variable ollama_chat :
  string -> string -> Temperature -> World -> result pyval * World.
Variable CHAT_MODEL : string.

Let query := query_chat_model World Temperature ollama_chat CHAT_MODEL.

Lemma query_failure_class (active_model : string) (e : raised) :
  raised_class (query_failure active_model e) = RuntimeError.
Proof. unfold query_failure. destruct (raised_class e); reflexivity. Qed.

(** X7. [query_chat_model] raises a [ValueError] for an empty or blank
    prompt, without calling the backend, and otherwise only
    [RuntimeError]s, whatever the backend raises or returns.  What it
    returns is the content that [extract_content] finds in the backend's
    response, and it is something with a length (so never [None]). *)
Theorem query_chat_model_outcomes (prompt : string)
    (model_name : option string) (temperature : Temperature) (w : World) :
  match fst (query prompt model_name temperature w) with
  | Fail e =>
      (e = Raised ValueError "Prompt cannot be empty"
       /\ truthy (strip prompt) = false
       /\ snd (query prompt model_name temperature w) = w)
      \/ (raised_class e = RuntimeError
          /\ truthy (strip prompt) = true)
  | Done content =>
      truthy (strip prompt) = true
      /\ (exists response,
            fst (ollama_chat (active_model_of CHAT_MODEL model_name) prompt
                   temperature w) = Done response
            /\ extract_content response = Done content)
      /\ (exists n, py_len content = Done n)
  end.
Proof.
  unfold query, query_chat_model.
  assert (Hblank : truthy prompt = false -> truthy (strip prompt) = false).
  { destruct prompt; [reflexivity|discriminate]. }
  destruct (truthy prompt) eqn:Hp; simpl negb; cbn [orb].
  - destruct (truthy (strip prompt)) eqn:Hs; simpl negb; cbv iota.
    + destruct (ollama_chat _ prompt temperature w) as [[response|e] w'];
        cbn [fst snd].
      * destruct (extract_content response) as [content|e] eqn:He.
        -- destruct (py_len content) as [n|e] eqn:Hl.
           ++ split; [reflexivity|]. split; eauto.
           ++ right. split; [apply query_failure_class|reflexivity].
        -- right. split; [apply query_failure_class|reflexivity].
      * right. split; [apply query_failure_class|reflexivity].
    + left. auto.
  - left. cbn [fst snd]. auto.
Qed.

(** X8. A prompt that the loop builds from the template is never refused
    as empty, whatever the query, the URL and the page text are: the
    backend is called with it, for the configured model, and a failure can
    only be a [RuntimeError]. *)
Theorem agent_prompt_reaches_backend (user_query url scraped_text : string)
    (temperature : Temperature) (w : World) :
  let prompt :=
    SUFFICIENCY_CHECK_PROMPT_TEMPLATE_format user_query url scraped_text in
  snd (query prompt None temperature w)
  = snd (ollama_chat CHAT_MODEL prompt temperature w)
  /\ (forall e, fst (query prompt None temperature w) = Fail e ->
                raised_class e = RuntimeError)
  /\ (forall response content n,
        fst (ollama_chat CHAT_MODEL prompt temperature w) = Done response ->
        extract_content response = Done content ->
        py_len content = Done n ->
        fst (query prompt None temperature w) = Done content).
Proof.
  cbv zeta. unfold query, query_chat_model.
  destruct (prompt_not_blank user_query url scraped_text) as [-> ->].
  cbn [negb orb active_model_of].
  destruct (ollama_chat CHAT_MODEL _ temperature w) as [[response|e] w'];
    cbn [fst snd].
  - split; [reflexivity|]. split.
    + destruct (extract_content response) as [content|e'];
        [destruct (py_len content) as [n|e']|];
        intros e H; try discriminate; injection H as <-;
        apply query_failure_class.
    + intros response' content n H He Hl. injection H as <-.
      now rewrite He, Hl.
  - split; [reflexivity|]. split.
    + intros e' H. injection H as <-. apply query_failure_class.
    + discriminate.
Qed.

End LlmFacts.

(* ===================================================================== *)
(** ** Web search *)
(* ===================================================================== *)

Lemma hrefs_truthy (results : list pyval) :
  Forall (fun u => py_bool u = true) (hrefs results).
Proof.
  induction results as [|r results IH]; simpl; [constructor|].
  destruct (item r "href") as [h|]; [|exact IH].
  destruct (py_bool h) eqn:Hh; [|exact IH]. now constructor.
Qed.

Lemma hrefs_length (results : list pyval) :
  (length (hrefs results) <= length results)%nat.
Proof.
  induction results as [|r results IH]; simpl; [lia|].
  destruct (item r "href") as [h|]; [|lia].
  destruct (py_bool h); simpl; lia.
Qed.

Lemma hrefs_in (results : list pyval) (u : pyval) :
  In u (hrefs results) <->
  exists r, In r results /\ item r "href" = Some u /\ py_bool u = true.
Proof.
  induction results as [|r results IH]; simpl.
  - split; [tauto|]. intros (r & [] & _).
  - destruct (item r "href") as [h|] eqn:Eh.
    + destruct (py_bool h) eqn:Hh.
      * simpl. rewrite IH. split.
        -- intros [<-|(r' & Hin & Hr')]; [exists r; auto|exists r'; tauto].
        -- intros (r' & [<-|Hin] & Hi & Hb).
           ++ left. congruence.
           ++ right. exists r'. auto.
      * rewrite IH. split.
        -- intros (r' & Hin & Hr'). exists r'. tauto.
        -- intros (r' & [<-|Hin] & Hi & Hb); [congruence|].
           exists r'. auto.
    + rewrite IH. split.
      * intros (r' & Hin & Hr'). exists r'. tauto.
      * intros (r' & [<-|Hin] & Hi & Hb); [congruence|]. exists r'. auto.
Qed.

Lemma key_eqb_refl (k : string * Z) : key_eqb k k = true.
Proof. unfold key_eqb. now rewrite String.eqb_refl, Z.eqb_refl. Qed.

Lemma cache_remove_length (k : string * Z) (c : search_cache) :
  (length (cache_remove k c) <= length c)%nat
  /\ (cache_find k c <> None -> S (length (cache_remove k c)) = length c).
Proof.
  induction c as [|[k' urls] c IH]; simpl; [split; [lia|congruence]|].
  destruct (key_eqb k' k); simpl; [split; [lia|reflexivity]|].
  destruct IH as [IH1 IH2]. split; [lia|]. intros H. now rewrite IH2.
Qed.

Section WebSearchFacts.

Variable World : Type.
Variable ddgs_text : string -> Z -> World -> result (list pyval) * World.

Let body := perform_web_search_body World ddgs_text.
Let search := perform_web_search World ddgs_text.

(** X9. The search returns, whatever the provider does: the truthy
    [href]s of the provider's dict results, in their order, or nothing
    when the provider raised. *)
Theorem perform_web_search_urls (query : string) (num_results : Z)
    (w : World) :
  Forall (fun u => py_bool u = true) (fst (body query num_results w))
  /\ match fst (ddgs_text query num_results w) with
     | Done results =>
         fst (body query num_results w) = hrefs results
         /\ (length (fst (body query num_results w)) <= length results)%nat
         /\ forall u,
              In u (fst (body query num_results w)) <->
              exists r, In r results /\ item r "href" = Some u
                        /\ py_bool u = true
     | Fail _ => fst (body query num_results w) = []
     end.
Proof.
  unfold body, perform_web_search_body.
  destruct (ddgs_text query num_results w) as [[results|e] w']; cbn [fst].
  - split; [apply hrefs_truthy|]. split; [reflexivity|].
    split; [apply hrefs_length|]. intros u. apply hrefs_in.
  - split; [constructor|reflexivity].
Qed.

(** X10. A search that has just been made is answered from the cache when it is
    repeated: same URLs, no call to the provider (the world is untouched);
    this holds as well when the first call failed and gave the empty
    list.  The cache never holds more than 100 entries. *)
Theorem perform_web_search_repeat (query : string) (num_results : Z)
    (c : search_cache) (w : World) :
  let first := search query num_results c w in
  let again := search query num_results (snd (fst first)) (snd first) in
  fst (fst again) = fst (fst first)
  /\ snd again = snd first
  /\ (cache_find (query, num_results) c = None ->
      snd first = snd (ddgs_text query num_results w)
      /\ forall e, fst (ddgs_text query num_results w) = Fail e ->
                   fst (fst first) = [] /\ fst (fst again) = [])
  /\ ((length c <= lru_maxsize)%nat ->
      (length (snd (fst first)) <= lru_maxsize)%nat
      /\ (length (snd (fst again)) <= lru_maxsize)%nat).
Proof.
  cbv zeta. unfold search, perform_web_search.
  assert (Hbound : forall k urls c0,
            (length c0 <= lru_maxsize)%nat ->
            cache_find k c0 <> None ->
            (length ((k, urls) :: cache_remove k c0) <= lru_maxsize)%nat).
  { intros k urls c0 Hc Hf. simpl.
    destruct (cache_remove_length k c0) as [_ H]. rewrite (H Hf). exact Hc. }
  destruct (cache_find (query, num_results) c) as [urls|] eqn:Ef.
  - cbn [fst snd cache_find]. rewrite key_eqb_refl. cbn [fst snd].
    split; [reflexivity|]. split; [reflexivity|]. split; [discriminate|].
    intros Hc.
    assert (H1 : (length (((query, num_results), urls)
                          :: cache_remove (query, num_results) c)
                  <= lru_maxsize)%nat)
      by (apply Hbound; [exact Hc|congruence]).
    split; [exact H1|].
    apply Hbound; [exact H1|].
    simpl. rewrite key_eqb_refl. discriminate.
  - unfold perform_web_search_body.
    destruct (ddgs_text query num_results w) as [r w'].
    cbn [fst snd firstn lru_maxsize cache_find]. rewrite key_eqb_refl.
    cbn [fst snd].
    split; [reflexivity|]. split; [reflexivity|]. split.
    + intros _. split; [reflexivity|]. intros e ->. auto.
    + intros Hc.
      assert (H1 : (length (((query, num_results),
                             match r with Done results => hrefs results
                                        | Fail _ => [] end)
                            :: firstn 99 c) <= lru_maxsize)%nat).
      { cbn [length]. pose proof (firstn_le_length 99 c).
        unfold lru_maxsize. lia. }
      split; [exact H1|].
      apply Hbound; [exact H1|].
      simpl. rewrite key_eqb_refl. discriminate.
Qed.

End WebSearchFacts.

(* ===================================================================== *)
(** ** Page fetch *)
(* ===================================================================== *)

Section ScrapeFacts.

Variable World : Type.
Variable is_dir : World -> result bool * World.
Variable named_temporary_file : World -> tempfile_outcome * World.
Variable subprocess_run : string -> World -> result process * World.
Variable path_exists : string -> World -> result bool * World.
Variable stat_size : string -> World -> result Z * World.
Variable json_load : string -> World -> result pyval * World.
Variable read_text : string -> World -> result string * World.
Variable os_remove : string -> World -> result unit * World.

Let scrape := scrape_single_url World is_dir named_temporary_file
                subprocess_run path_exists stat_size json_load read_text
                os_remove.
Let crawl := crawl_and_read World subprocess_run path_exists stat_size
               json_load.
Let peek := log_invalid_json World path_exists stat_size read_text.
Let finish := cleanup World path_exists os_remove.

Ltac fs_simpl := cbn [fs_world fs_trace fst snd negb].

Ltac fs_close :=
  eexists; split; [rewrite <- ?app_assoc; reflexivity|].

Lemma crawl_spec (url path : string) (s : fs_state World) :
  exists evs,
    fs_trace (snd (crawl url path s)) = (fs_trace s ++ evs)%list
    /\ crawl_trace url path evs (fst (crawl url path s)).
Proof.
  unfold crawl, crawl_and_read, fbind, fcall, fret.
  destruct (subprocess_run _ (fs_world s)) as [[proc|e] w1]; fs_simpl;
    [|fs_close; constructor].
  destruct (Z.eqb_spec (returncode proc) 0) as [Hrc|Hrc]; fs_simpl;
    [|fs_close; now constructor].
  destruct (path_exists path w1) as [[[|]|e] w2]; fs_simpl;
    [|fs_close; now constructor|fs_close; now constructor].
  destruct (stat_size path w2) as [[size|e] w3]; fs_simpl;
    [|fs_close; now constructor].
  destruct (Z.eqb_spec size 0) as [->|Hsz]; fs_simpl;
    [fs_close; now constructor|].
  destruct (json_load path w3) as [[data|e] w4]; fs_simpl;
    fs_close; now constructor.
Qed.

Lemma peek_spec (temp_file_path : option string) (s : fs_state World) :
  exists evs,
    fs_trace (peek temp_file_path s) = (fs_trace s ++ evs)%list
    /\ forallb peek_event evs = true.
Proof.
  unfold peek, log_invalid_json, fbind, fcall, fret.
  destruct temp_file_path as [path|];
    [|exists []; now rewrite app_nil_r].
  destruct (truthy path); [|exists []; now rewrite app_nil_r].
  destruct (path_exists path (fs_world s)) as [[[|]|e] w1]; fs_simpl;
    [|fs_close; reflexivity|fs_close; reflexivity].
  destruct (stat_size path w1) as [[size|e] w2]; fs_simpl;
    [|fs_close; reflexivity].
  destruct (size <? 1024); fs_simpl; [|fs_close; reflexivity].
  destruct (read_text path w2) as [[text|e] w3]; fs_simpl;
    fs_close; reflexivity.
Qed.

Lemma finish_spec (temp_file_path : option string) (s : fs_state World) :
  exists evs,
    fs_trace (snd (finish temp_file_path s)) = (fs_trace s ++ evs)%list
    /\ cleanup_trace temp_file_path evs (fst (finish temp_file_path s)).
Proof.
  unfold finish, cleanup, cleanup_trace, fcall.
  destruct temp_file_path as [path|];
    [|exists []; now rewrite app_nil_r].
  destruct (truthy path); [|exists []; now rewrite app_nil_r].
  destruct (path_exists path (fs_world s)) as [[[|]|e] w1]; fs_simpl.
  - destruct (os_remove path w1) as [[u|e] w2]; fs_simpl.
    + fs_close. right. right. exists (Done u). auto.
    + destruct (raised_class e) eqn:Hc; fs_simpl;
        fs_close; right; right; exists (Fail e); rewrite Hc; auto.
  - fs_close. left. auto.
  - fs_close. right. left. eauto.
Qed.

(** A run that gets past the two guards: the directory check, the
    temporary file, the [try] block, the look at invalid JSON, and the
    [finally] clause, in this order. *)
Lemma scrape_spec (url : string) (w : World) :
  truthy url = true ->
  fst (is_dir w) = Done true ->
  exists tmp tevs pevs cevs tried escaped,
    fs_trace (snd (scrape url (fs_start w)))
    = ([FsIsDir (Done true); FsTempfile tmp] ++ tevs ++ pevs ++ cevs)%list
    /\ try_trace url tmp tevs tried
    /\ forallb peek_event pevs = true
    /\ (pevs = []
        \/ exists e, tried = Fail e /\ raised_class e = JSONDecodeError)
    /\ cleanup_trace (temp_path_of tmp) cevs escaped
    /\ fst (scrape url (fs_start w))
       = match escaped with
         | Some e => Fail e
         | None => Done (value_after_except tried)
         end.
Proof.
  intros Hu Hd.
  unfold scrape, scrape_single_url, fbind, fcall, fret.
  rewrite Hu. fs_simpl. cbn [fs_start fs_world fs_trace].
  destruct (is_dir w) as [r w0]. cbn [fst] in Hd. subst r. fs_simpl.
  destruct (named_temporary_file w0) as [tmp w1].
  fold (temp_path_of tmp).
  set (s1 := {| fs_world := w1;
                fs_trace := ([] ++ [FsIsDir (Done true)])
                            ++ [FsTempfile tmp] |}).
  assert (Htry : exists tevs tried s2,
             match tmp with
             | TmpFailed e | TmpCloseFailed _ e => (Fail e, s1)
             | TmpCreated path =>
                 crawl_and_read World subprocess_run path_exists stat_size
                   json_load url path s1
             end = (tried, s2)
             /\ fs_trace s2 = (fs_trace s1 ++ tevs)%list
             /\ try_trace url tmp tevs tried).
  { destruct tmp as [e|path e|path]; cbn [try_trace].
    - exists [], (Fail e), s1. now rewrite app_nil_r.
    - exists [], (Fail e), s1. now rewrite app_nil_r.
    - destruct (crawl_spec url path s1) as (tevs & Ht & Hc).
      unfold crawl in *.
      destruct (crawl_and_read _ _ _ _ _ url path s1) as [tried s2].
      exists tevs, tried, s2. auto. }
  destruct Htry as (tevs & tried & s2 & -> & Ht2 & Htry).
  assert (Hexc : exists pevs s3,
             match tried with
             | Done value => (value, s2)
             | Fail e =>
                 match raised_class e with
                 | JSONDecodeError =>
                     (None,
                      log_invalid_json World path_exists stat_size read_text
                        (temp_path_of tmp) s2)
                 | _ => (None, s2)
                 end
             end = (value_after_except tried, s3)
             /\ fs_trace s3 = (fs_trace s2 ++ pevs)%list
             /\ forallb peek_event pevs = true
             /\ (pevs = []
                 \/ exists e, tried = Fail e
                              /\ raised_class e = JSONDecodeError)).
  { destruct tried as [value|e]; cbn [value_after_except].
    - exists [], s2. rewrite app_nil_r. auto.
    - destruct (raised_class e) eqn:Hcls;
        try (exists [], s2; rewrite app_nil_r; now auto).
      destruct (peek_spec (temp_path_of tmp) s2) as (pevs & Hp & Hplain).
      unfold peek in Hp. eexists pevs, _. eauto 7. }
  destruct Hexc as (pevs & s3 & -> & Ht3 & Hplain & Hpeek).
  destruct (finish_spec (temp_path_of tmp) s3) as (cevs & Ht4 & Hc).
  unfold finish in *.
  destruct (cleanup _ _ _ (temp_path_of tmp) s3) as [escaped s4].
  cbn [fst snd] in *.
  exists tmp, tevs, pevs, cevs, tried, escaped.
  split.
  { destruct escaped; cbn [snd]; rewrite Ht4, Ht3, Ht2; subst s1;
      cbn [fs_trace]; rewrite <- !app_assoc; reflexivity. }
  split; [exact Htry|]. split; [exact Hplain|]. split; [exact Hpeek|].
  split; [exact Hc|].
  destruct escaped; reflexivity.
Qed.

Lemma scrape_guards (url : string) (w : World) :
  (truthy url = false ->
   scrape url (fs_start w) = (Done None, fs_start w))
  /\ (truthy url = true -> forall e,
      fst (is_dir w) = Fail e ->
      fst (scrape url (fs_start w)) = Fail e
      /\ fs_trace (snd (scrape url (fs_start w))) = [FsIsDir (Fail e)])
  /\ (truthy url = true ->
      fst (is_dir w) = Done false ->
      fst (scrape url (fs_start w)) = Done None
      /\ fs_trace (snd (scrape url (fs_start w))) = [FsIsDir (Done false)]).
Proof.
  unfold scrape, scrape_single_url, fbind, fcall, fret.
  split; [intros ->; reflexivity|].
  split; intros ->; fs_simpl; cbn [fs_start fs_world fs_trace].
  - intros e He. destruct (is_dir w) as [r w0]. cbn [fst] in He. subst r.
    auto.
  - intros He. destruct (is_dir w) as [r w0]. cbn [fst] in He. subst r.
    auto.
Qed.

Ltac fs_in H :=
  simpl in H;
  repeat (destruct H as [H|H]; [try discriminate H|]);
  try contradiction.

Lemma crawl_trace_events (url path : string) (evs : list fs_event)
    (tried : result (option pyval)) (ev : fs_event) :
  crawl_trace url path evs tried -> In ev evs ->
  match ev with
  | FsIsDir _ | FsTempfile _ | FsRead _ _ | FsRemove _ _ => False
  | FsRun command _ => command = scrapy_command url path
  | FsExists p _ | FsStat p _ | FsLoad p _ => p = path
  end.
Proof.
  intros Hc Hin. destruct Hc; simpl in Hin;
    repeat (destruct Hin as [<-|Hin]; [reflexivity|]); contradiction.
Qed.

Lemma peek_events (pevs : list fs_event) (ev : fs_event) :
  forallb peek_event pevs = true -> In ev pevs -> peek_event ev = true.
Proof. intros H Hin. rewrite forallb_forall in H. auto. Qed.

Lemma cleanup_trace_events (tp : option string) (cevs : list fs_event)
    (escaped : option raised) (ev : fs_event) :
  cleanup_trace tp cevs escaped -> In ev cevs ->
  exists path, tp = Some path /\ truthy path = true
               /\ ((exists r, ev = FsExists path r)
                   \/ (exists r, ev = FsRemove path r)).
Proof.
  unfold cleanup_trace. destruct tp as [path|]; [|intros [-> _] []].
  destruct (truthy path) eqn:Htp; [|intros [-> _] []].
  intros [[-> _]|[(e & -> & _)|(r & -> & _)]] Hin; simpl in Hin;
    repeat (destruct Hin as [<-|Hin];
            [exists path; split; [reflexivity|split; [exact Htp|]];
             first [left; eexists; reflexivity|right; eexists; reflexivity]
            |]);
    contradiction.
Qed.

(** X11. What escapes from [scrape_single_url] is a failure of the
    directory check or of the [finally] clause (its existence check, or a
    removal that raises something else than [OSError]); nothing that the
    temporary file, the crawler process, the output file or its JSON does
    makes it raise. *)
Theorem scrape_failures_contained (url : string) (w : World) (e : raised) :
  fst (scrape url (fs_start w)) = Fail e ->
  exists before ev,
    fs_trace (snd (scrape url (fs_start w))) = (before ++ [ev])%list
    /\ (ev = FsIsDir (Fail e)
        \/ (exists path, ev = FsExists path (Fail e))
        \/ (exists path, ev = FsRemove path (Fail e)
                         /\ raised_class e <> OSError)).
Proof.
  intros H.
  destruct (truthy url) eqn:Hu;
    [|rewrite (proj1 (scrape_guards url w) Hu) in H; discriminate].
  destruct (fst (is_dir w)) as [[|]|e0] eqn:Hd.
  - destruct (scrape_spec url w Hu Hd)
      as (tmp & tevs & pevs & cevs & tried & escaped
          & Ht & _ & _ & _ & Hc & Hr).
    rewrite Hr in H. destruct escaped as [e1|]; [|discriminate].
    injection H as ->. rewrite Ht.
    unfold cleanup_trace in Hc.
    destruct (temp_path_of tmp) as [path|]; [|destruct Hc; discriminate].
    destruct (truthy path); [|destruct Hc; discriminate].
    destruct Hc as [[_ Hc]|[(e2 & -> & Hc)|(r & -> & Hc)]];
      [discriminate| |].
    + injection Hc as <-.
      exists ([FsIsDir (Done true); FsTempfile tmp] ++ tevs ++ pevs)%list,
        (FsExists path (Fail e)).
      split; [now rewrite <- !app_assoc|]. right. left. eauto.
    + destruct r as [u|e2]; [discriminate|].
      destruct (raised_class e2) eqn:Hcls; try discriminate;
        injection Hc as <-;
        (exists ([FsIsDir (Done true); FsTempfile tmp] ++ tevs ++ pevs
                 ++ [FsExists path (Done true)])%list,
           (FsRemove path (Fail e));
         split; [now rewrite <- !app_assoc|];
         right; right; exists path; split; [reflexivity|congruence]).
  - destruct (proj2 (proj2 (scrape_guards url w)) Hu Hd) as [Hr _].
    rewrite Hr in H. discriminate.
  - destruct (proj1 (proj2 (scrape_guards url w)) Hu e0 Hd) as [Hr Ht].
    rewrite Hr in H.
    injection H as ->. rewrite Ht. exists [], (FsIsDir (Fail e)). auto.
Qed.

Lemma try_trace_events (url : string) (tmp : tempfile_outcome)
    (tevs : list fs_event) (tried : result (option pyval)) (ev : fs_event) :
  try_trace url tmp tevs tried -> In ev tevs ->
  exists path, tmp = TmpCreated path
    /\ match ev with
       | FsIsDir _ | FsTempfile _ | FsRead _ _ | FsRemove _ _ => False
       | FsRun command _ => command = scrapy_command url path
       | FsExists p _ | FsStat p _ | FsLoad p _ => p = path
       end.
Proof.
  destruct tmp as [e|path e|path]; cbn [try_trace].
  - intros [-> _] [].
  - intros [-> _] [].
  - intros Hc Hin. exists path. split; [reflexivity|].
    eapply crawl_trace_events; eauto.
Qed.

(** Where an event of a full run comes from. *)
Lemma scrape_event_origin (tmp : tempfile_outcome)
    (tevs pevs cevs : list fs_event) (ev : fs_event) :
  In ev ([FsIsDir (Done true); FsTempfile tmp] ++ tevs ++ pevs ++ cevs)%list ->
  ev = FsIsDir (Done true) \/ ev = FsTempfile tmp
  \/ In ev tevs \/ In ev pevs \/ In ev cevs.
Proof.
  intros H. simpl in H. destruct H as [<-|[<-|H]]; auto.
  apply in_app_or in H. destruct H as [H|H]; auto.
  apply in_app_or in H. destruct H as [H|H]; auto.
Qed.

(** X12. The fetch ends in the [finally] clause once the temporary file has a
    name: the trace ends with the existence check of that file and, when it
    exists, with its removal; no other file is ever removed, and no second
    temporary file is made. *)
Theorem temp_file_cleanup (url : string) (w : World)
    (tmp : tempfile_outcome) (path : string) :
  In (FsTempfile tmp) (fs_trace (snd (scrape url (fs_start w)))) ->
  temp_path_of tmp = Some path ->
  truthy path = true ->
  ends_with_cleanup path (fs_trace (snd (scrape url (fs_start w))))
  /\ (forall q r,
        In (FsRemove q r) (fs_trace (snd (scrape url (fs_start w)))) ->
        q = path)
  /\ (forall tmp',
        In (FsTempfile tmp') (fs_trace (snd (scrape url (fs_start w)))) ->
        tmp' = tmp).
Proof.
  intros Hin Hp Htruthy.
  destruct (truthy url) eqn:Hu;
    [|rewrite (proj1 (scrape_guards url w) Hu) in Hin;
     simpl in Hin; contradiction].
  destruct (fst (is_dir w)) as [[|]|e0] eqn:Hd.
  - destruct (scrape_spec url w Hu Hd)
      as (tmp0 & tevs & pevs & cevs & tried & escaped
          & Ht & Htry & Hplain & _ & Hc & _).
    rewrite Ht in *.
    assert (Htmp : forall tmp',
              In (FsTempfile tmp')
                 ([FsIsDir (Done true); FsTempfile tmp0]
                  ++ tevs ++ pevs ++ cevs)%list ->
              tmp' = tmp0).
    { intros tmp' H. apply scrape_event_origin in H.
      destruct H as [H|[H|[H|[H|H]]]].
      - discriminate.
      - now injection H.
      - destruct (try_trace_events _ _ _ _ _ Htry H) as (p & _ & []).
      - apply (peek_events _ _ Hplain) in H. discriminate.
      - destruct (cleanup_trace_events _ _ _ _ Hc H)
          as (p & _ & _ & [[r Hr]|[r Hr]]); discriminate. }
    pose proof (Htmp tmp Hin) as ->. rewrite Hp in Hc.
    split; [|split].
    + unfold cleanup_trace in Hc. rewrite Htruthy in Hc.
      exists ([FsIsDir (Done true); FsTempfile tmp0] ++ tevs ++ pevs)%list.
      destruct Hc as [[-> _]|[(e & -> & _)|(r & -> & _)]].
      * left. now rewrite <- !app_assoc.
      * right. left. exists e. now rewrite <- !app_assoc.
      * right. right. exists r. now rewrite <- !app_assoc.
    + intros q r H. apply scrape_event_origin in H.
      destruct H as [H|[H|[H|[H|H]]]]; try discriminate.
      * destruct (try_trace_events _ _ _ _ _ Htry H) as (p & _ & []).
      * apply (peek_events _ _ Hplain) in H. discriminate.
      * destruct (cleanup_trace_events _ _ _ _ Hc H)
          as (p & Hp' & _ & [[r' Hr]|[r' Hr]]); [discriminate|].
        injection Hr as -> _. now injection Hp'.
    + exact Htmp.
  - destruct (proj2 (proj2 (scrape_guards url w)) Hu Hd) as [_ Ht].
    rewrite Ht in Hin.
    fs_in Hin.
  - destruct (proj1 (proj2 (scrape_guards url w)) Hu e0 Hd) as [_ Ht].
    rewrite Ht in Hin.
    fs_in Hin.
Qed.

Lemma extract_text_some (scraped_data v : pyval) :
  extract_text scraped_data = Done (Some v) ->
  exists first_item rest text,
    scraped_data = VList (first_item :: rest)
    /\ item first_item "text" = Some text
    /\ ((py_bool text = true /\ v = text /\ exists n, py_len text = Done n)
        \/ (py_bool text = false /\ v = VStr "")).
Proof.
  unfold extract_text.
  destruct scraped_data as [| | | |[|first_item rest]| |]; try discriminate.
  destruct (item first_item "text") as [text|] eqn:Ei; [|discriminate].
  destruct (py_bool text) eqn:Hb.
  - destruct (py_len text) as [n|e] eqn:Hl; [|discriminate].
    intros H. injection H as <-. exists first_item, rest, text. eauto 8.
  - intros H. injection H as <-. exists first_item, rest, text. auto.
Qed.

(** X13. A fetched value has one origin: the crawler ended with status 0, its
    output file was loaded, and the value is the [text] of the first item
    of the list in it, when that text is truthy and has a length, or the
    empty string when the text is there but falsy. *)
Theorem scrape_value_origin (url : string) (w : World) (v : pyval) :
  fst (scrape url (fs_start w)) = Done (Some v) ->
  truthy url = true
  /\ exists path proc first_item rest text,
       In (FsRun (scrapy_command url path) (Done proc))
          (fs_trace (snd (scrape url (fs_start w))))
       /\ returncode proc = 0
       /\ In (FsLoad path (Done (VList (first_item :: rest))))
            (fs_trace (snd (scrape url (fs_start w))))
       /\ item first_item "text" = Some text
       /\ ((py_bool text = true /\ v = text
            /\ exists n, py_len text = Done n)
           \/ (py_bool text = false /\ v = VStr "")).
Proof.
  intros H.
  destruct (truthy url) eqn:Hu;
    [|rewrite (proj1 (scrape_guards url w) Hu) in H; discriminate].
  split; [reflexivity|].
  destruct (fst (is_dir w)) as [[|]|e0] eqn:Hd.
  - destruct (scrape_spec url w Hu Hd)
      as (tmp & tevs & pevs & cevs & tried & escaped
          & Ht & Htry & _ & _ & _ & Hr).
    rewrite Hr in H. destruct escaped; [discriminate|].
    injection H as H. destruct tried as [value|e]; [|discriminate].
    cbn [value_after_except] in H. subst value.
    destruct tmp as [e|path e|path]; cbn [try_trace] in Htry;
      try (destruct Htry; discriminate).
    rewrite Ht.
    inversion Htry as [| | | | | | |proc size data Hrc Hsz Hevs Hex];
      subst.
    destruct (extract_text_some _ _ Hex)
      as (first_item & rest & text & -> & Hi & Hv).
    exists path, proc, first_item, rest, text.
    split; [simpl; tauto|]. split; [exact Hrc|].
    split; [simpl; tauto|]. auto.
  - destruct (proj2 (proj2 (scrape_guards url w)) Hu Hd) as [Hr _].
    rewrite Hr in H. discriminate.
  - destruct (proj1 (proj2 (scrape_guards url w)) Hu e0 Hd) as [Hr _].
    rewrite Hr in H. discriminate.
Qed.

(** X14. When the crawler ends with a non-zero status, the output file is not
    looked at (no existence check but the one of the [finally] clause, no
    size, no load), the fetch gives no value, and the temporary file is
    still cleaned up. *)
Theorem scrape_exit_status (url : string) (w : World) (command : string)
    (proc : process) :
  In (FsRun command (Done proc))
     (fs_trace (snd (scrape url (fs_start w)))) ->
  returncode proc <> 0 ->
  (forall p r, ~ In (FsLoad p r) (fs_trace (snd (scrape url (fs_start w)))))
  /\ (forall p r,
        ~ In (FsStat p r) (fs_trace (snd (scrape url (fs_start w)))))
  /\ (forall v, fst (scrape url (fs_start w)) <> Done (Some v))
  /\ exists path,
       command = scrapy_command url path
       /\ In (FsTempfile (TmpCreated path))
            (fs_trace (snd (scrape url (fs_start w)))).
Proof.
  intros Hin Hrc.
  destruct (truthy url) eqn:Hu;
    [|rewrite (proj1 (scrape_guards url w) Hu) in Hin;
     simpl in Hin; contradiction].
  destruct (fst (is_dir w)) as [[|]|e0] eqn:Hd.
  - destruct (scrape_spec url w Hu Hd)
      as (tmp & tevs & pevs & cevs & tried & escaped
          & Ht & Htry & Hplain & Hpeek & Hc & Hr).
    rewrite Ht in *.
    apply scrape_event_origin in Hin.
    destruct Hin as [Hin|[Hin|[Hin|[Hin|Hin]]]]; try discriminate.
    + destruct (try_trace_events _ _ _ _ _ Htry Hin) as (path & -> & ->).
      cbn [try_trace] in Htry.
      assert (Hshape : tevs = [FsRun (scrapy_command url path) (Done proc)]
                       /\ tried = Done None).
      { inversion Htry; subst; simpl in Hin;
          repeat (destruct Hin as [Hin|Hin];
                  [try discriminate Hin; injection Hin as <-|]);
          try contradiction; auto. }
      destruct Hshape as [-> ->].
      destruct Hpeek as [->|(e & He & _)]; [|discriminate].
      assert (Hno : forall ev,
                In ev ([FsIsDir (Done true); FsTempfile (TmpCreated path)]
                       ++ [FsRun (scrapy_command url path) (Done proc)]
                       ++ [] ++ cevs)%list ->
                match ev with
                | FsLoad _ _ | FsStat _ _ => False
                | _ => True
                end).
      { intros ev H. apply scrape_event_origin in H.
        destruct H as [->|[->|[H|[H|H]]]]; auto.
        - simpl in H. destruct H as [<-|[]]. exact I.
        - destruct H.
        - destruct (cleanup_trace_events _ _ _ _ Hc H)
            as (p & _ & _ & [[r ->]|[r ->]]); exact I. }
      split; [intros p r H; exact (Hno _ H)|].
      split; [intros p r H; exact (Hno _ H)|].
      split.
      * intros v. rewrite Hr. destruct escaped; discriminate.
      * exists path. split; [reflexivity|]. simpl. tauto.
    + apply (peek_events _ _ Hplain) in Hin. discriminate.
    + destruct (cleanup_trace_events _ _ _ _ Hc Hin)
        as (p & _ & _ & [[r Hr']|[r Hr']]); discriminate.
  - destruct (proj2 (proj2 (scrape_guards url w)) Hu Hd) as [_ Ht].
    rewrite Ht in Hin. fs_in Hin.
  - destruct (proj1 (proj2 (scrape_guards url w)) Hu e0 Hd) as [_ Ht].
    rewrite Ht in Hin. fs_in Hin.
Qed.

End ScrapeFacts.

(* ===================================================================== *)
(** ** When the judge is asked *)
(* ===================================================================== *)

Lemma usable_some (r : option string) (t : string) :
  usable r = Some t -> r = Some t /\ truthy (strip t) = true.
Proof.
  unfold usable. destruct r as [t'|]; [|discriminate].
  destruct (truthy t'); cbn [negb orb]; [|discriminate].
  destruct (truthy (strip t')) eqn:Hs; cbn [negb]; [|discriminate].
  intros H. injection H as <-. auto.
Qed.

(** The only judge call of an iteration comes after the fetch of the same
    URL returned a text that is not blank, two notices later. *)
Lemma attempt_trace_judge (CHAT_MODEL query : string) (max_attempts : Z)
    (c : nat) (url : string) (tried : list string) (evs : list event)
    (out : option string) (j : nat) (u p : string) (r : res string) :
  attempt_trace CHAT_MODEL query max_attempts c url tried evs out ->
  In (EvJudge j u p r) evs ->
  j = c /\ u = url
  /\ (exists text sliced before after,
        evs = (before
               ++ [EvFetch c url tried (Return (Some text))]
               ++ said (NScrapeOk (String.length text)) ++ said NAnalyzing
               ++ [EvJudge j u p r] ++ after)%list
        /\ truthy (strip text) = true
        /\ str_slice_to text
             (getattr_dict MAX_LLM_CONTEXT_LENGTH CHAT_MODEL 15000)
           = Return sliced
        /\ p = SUFFICIENCY_CHECK_PROMPT_TEMPLATE_format query url sliced)
  /\ forall j' u' p' r',
       In (EvJudge j' u' p' r') evs -> p' = p /\ r' = r.
Proof.
  intros Hat Hin.
  destruct Hat as [err|r0 Hu|r0 t err Hu Hs|r0 t sliced err Hu Hs
                  |r0 t sliced resp Hu Hs Hacc
                  |r0 t sliced resp a Hu Hs Hacc];
    in_cases Hin; try discriminate;
    injection Hin as <- <- <- <-;
    apply usable_some in Hu; destruct Hu as [-> Ht];
    (split; [reflexivity|]); (split; [reflexivity|]);
    (split;
     [exists t, sliced,
        (said (NAttempt c max_attempts url) ++ said NScraping)%list;
      eexists; split; [rewrite <- !app_assoc; reflexivity|auto]
     |intros j' u' p' r' Hin'; in_cases Hin'; try discriminate;
      injection Hin' as <- <- <- <-; auto]).
Qed.

Section JudgeFacts.

Variables (CHAT_MODEL query : string) (max_attempts : Z).

Lemma loop_trace_judge c rest tried evs out j u p r :
  loop_trace CHAT_MODEL query max_attempts c rest tried evs out ->
  In (EvJudge j u p r) evs ->
  (exists text t sliced before after,
     evs = (before
            ++ [EvFetch j u t (Return (Some text))]
            ++ said (NScrapeOk (String.length text)) ++ said NAnalyzing
            ++ [EvJudge j u p r] ++ after)%list
     /\ truthy (strip text) = true
     /\ str_slice_to text
          (getattr_dict MAX_LLM_CONTEXT_LENGTH CHAT_MODEL 15000)
        = Return sliced
     /\ p = SUFFICIENCY_CHECK_PROMPT_TEMPLATE_format query u sliced)
  /\ forall u' p' r',
       In (EvJudge j u' p' r') evs -> u' = u /\ p' = p /\ r' = r.
Proof.
  induction 1 as [c tried|c url rest tried evs answer Ha
                 |c url rest tried evs evs' out Ha Hl IH]; intros Hin.
  - in_cases Hin; discriminate.
  - destruct (attempt_trace_judge _ _ _ _ _ _ _ _ _ _ _ _ Ha Hin)
      as (-> & -> & (text & sliced & before & after & E & H1 & H2 & H3)
          & Huniq).
    split; [exists text, (tried ++ [url])%list, sliced, before, after; auto|].
    intros u' p' r' Hin'.
    destruct (attempt_trace_judge _ _ _ _ _ _ _ _ _ _ _ _ Ha Hin')
      as (_ & -> & _).
    destruct (Huniq _ _ _ _ Hin'). auto.
  - apply in_app_or in Hin. destruct Hin as [Hin|Hin].
    + destruct (attempt_trace_judge _ _ _ _ _ _ _ _ _ _ _ _ Ha Hin)
        as (-> & -> & (text & sliced & before & after & E & H1 & H2 & H3)
            & Huniq).
      split.
      * exists text, (tried ++ [url])%list, sliced, before,
          (after ++ evs')%list.
        split; [|auto]. rewrite E, <- !app_assoc. reflexivity.
      * intros u' p' r' Hin'. apply in_app_or in Hin'.
        destruct Hin' as [Hin'|Hin'].
        -- destruct (attempt_trace_judge _ _ _ _ _ _ _ _ _ _ _ _ Ha Hin')
             as (_ & -> & _).
           destruct (Huniq _ _ _ _ Hin'). auto.
        -- pose proof (loop_trace_counter _ _ _ _ _ _ _ _ _ _ Hl Hin'
                         eq_refl). lia.
    + destruct (IH Hin)
        as ((text & t & sliced & before & after & E & H1 & H2 & H3) & Huniq).
      split.
      * exists text, t, sliced, (evs ++ before)%list, after.
        split; [|auto]. rewrite E, <- !app_assoc. reflexivity.
      * intros u' p' r' Hin'. apply in_app_or in Hin'.
        destruct Hin' as [Hin'|Hin']; [|now apply Huniq].
        destruct (attempt_trace_judge _ _ _ _ _ _ _ _ _ _ _ _ Ha Hin')
          as (-> & _).
        pose proof (loop_trace_counter _ _ _ _ _ _ _ _ _ _ Hl Hin eq_refl).
        lia.
Qed.

End JudgeFacts.

Section JudgeClaims.

Variable World : Type.
Variable scrape_single_url : string -> World -> res (option string) * World.
Variable query_chat_model : string -> World -> res string * World.
Variable status_callback : notice -> World -> res unit * World.
Variable placeholder_info : World -> res unit * World.
Variable CHAT_MODEL : string.

Let run := run_search_session World scrape_single_url query_chat_model
             status_callback placeholder_info CHAT_MODEL.

(** X3. The judge is asked about a URL only after the fetch of that URL, in the
    same attempt, has returned a text that is not blank: the judge call
    follows that fetch in the trace, with the two notices of lines 111 and
    118 between them.  Its prompt is the template filled with the query,
    the URL and a leading part of that text, so it is 982 characters longer
    than the three together at most; and no attempt asks the judge twice.
    (For a session in which no sink call raises.) *)
Theorem judge_follows_usable_fetch (query : string) (urls : list string)
    (max_attempts : Z) (w : World) (j : nat) (u p : string)
    (r : res string) :
  quiet (trace (snd (run query urls max_attempts (start w)))) ->
  In (EvJudge j u p r) (trace (snd (run query urls max_attempts (start w)))) ->
  (exists text tried sliced before after,
     trace (snd (run query urls max_attempts (start w)))
     = (before
        ++ [EvFetch j u tried (Return (Some text))]
        ++ said (NScrapeOk (String.length text)) ++ said NAnalyzing
        ++ [EvJudge j u p r] ++ after)%list
     /\ truthy (strip text) = true
     /\ str_slice_to text
          (getattr_dict MAX_LLM_CONTEXT_LENGTH CHAT_MODEL 15000)
        = Return sliced
     /\ p = SUFFICIENCY_CHECK_PROMPT_TEMPLATE_format query u sliced
     /\ len p <= 982 + len query + len u + len text)
  /\ nth_error urls (j - 1) = Some u
  /\ forall u' p' r',
       In (EvJudge j u' p' r')
          (trace (snd (run query urls max_attempts (start w)))) ->
       u' = u /\ p' = p /\ r' = r.
Proof.
  intros Hq Hin.
  destruct (run_spec_quiet World scrape_single_url query_chat_model
              status_callback placeholder_info CHAT_MODEL
              query urls max_attempts w Hq)
    as (w' & evs & out & E & Hl).
  fold run in E. rewrite E in *. cbn [fst snd trace] in *.
  destruct (loop_trace_judge _ _ _ _ _ _ _ _ _ _ _ _ Hl Hin)
    as ((text & t & sliced & before & after & Et & H1 & H2 & H3) & Huniq).
  split; [|split; [|exact Huniq]].
  - exists text, t, sliced, before, after.
    split; [exact Et|]. split; [exact H1|]. split; [exact H2|].
    split; [exact H3|].
    rewrite H3, prompt_length_exact.
    assert (Hs : len sliced <= len text).
    { destruct (getattr_dict MAX_LLM_CONTEXT_LENGTH CHAT_MODEL 15000);
        cbn [str_slice_to] in H2; try discriminate;
        injection H2 as <-; [apply len_slice_to_le|lia]. }
    lia.
  - assert (Hf : In (EvFetch j u t (Return (Some text))) evs).
    { rewrite Et. apply in_or_app. right. now left. }
    destruct (loop_trace_fetch _ _ _ _ _ _ _ _ _ _ _ _ Hl Hf)
      as (Hj & Hn & _).
    now destruct (list_slice_to_nth _ _ _ _ Hn).
Qed.

End JudgeClaims.

(* ===================================================================== *)
(** ** What holds of a session whatever the sink does *)
(* ===================================================================== *)

Lemma accepted_trimmed (llm_response a : string) :
  accepted llm_response = Some a -> a <> "" /\ strip a = a.
Proof.
  intros H. apply accepted_iff in H.
  destruct (parse_answer_slice llm_response a H) as [Hne [k ->]].
  split; [exact Hne|apply strip_idempotent].
Qed.

Section Keeps.

Variable World : Type.
Variable I : state World -> Prop.

Lemma keeps_ret {A : Type} (a : A) : keeps I (ret World a).
Proof. intros s H. exact H. Qed.

Lemma keeps_lift {A : Type} (r : res A) : keeps I (lift World r).
Proof. intros s H. exact H. Qed.

Lemma keeps_bind {A B : Type} (m : M World A) (k : A -> M World B) :
  keeps I m -> (forall a, keeps I (k a)) -> keeps I (bind World m k).
Proof.
  intros Hm Hk s H. unfold bind. specialize (Hm s H).
  destruct (m s) as [[a|e] s1]; cbn [snd] in *; [now apply Hk|exact Hm].
Qed.

Lemma keeps_try {A : Type} (body : M World A) (handler : exn -> M World A) :
  keeps I body -> (forall e, keeps I (handler e)) ->
  keeps I (try_except World body handler).
Proof.
  intros Hb Hh s H. unfold try_except. specialize (Hb s H).
  destruct (body s) as [[a|e] s1]; cbn [snd] in *; [exact Hb|now apply Hh].
Qed.

End Keeps.

Section AnyOutcome.

Variable World : Type.
Variable scrape_single_url : string -> World -> res (option string) * World.
Variable query_chat_model : string -> World -> res string * World.
Variable status_callback : notice -> World -> res unit * World.
Variable placeholder_info : World -> res unit * World.
Variable CHAT_MODEL : string.

Let ui := update_ui World status_callback placeholder_info.
Let loop := for_loop World scrape_single_url query_chat_model
              status_callback placeholder_info CHAT_MODEL.
Let run := run_search_session World scrape_single_url query_chat_model
             status_callback placeholder_info CHAT_MODEL.

(** *** What a computation returns *)

Lemma returns_ret {A : Type} (a : A) (Pre : state World -> Prop)
    (Post : A -> state World -> Prop) :
  (forall s, Pre s -> Post a s) -> returns_with Pre (ret World a) Post.
Proof. intros H s a' s' Hp E. injection E as <- <-. auto. Qed.

Lemma returns_bind {A B : Type} (m : M World A) (k : A -> M World B)
    (Pre : state World -> Prop) (Mid : A -> state World -> Prop)
    (Post : B -> state World -> Prop) :
  returns_with Pre m Mid -> (forall a, returns_with (Mid a) (k a) Post) ->
  returns_with Pre (bind World m k) Post.
Proof.
  intros Hm Hk s b s' Hp E. unfold bind in E.
  destruct (m s) as [[a|e] s1] eqn:Em; [|discriminate].
  exact (Hk a s1 b s' (Hm s a s1 Hp Em) E).
Qed.

Lemma returns_try {A : Type} (body : M World A) (handler : exn -> M World A)
    (Pre : state World -> Prop) (Post : A -> state World -> Prop) :
  returns_with Pre body Post ->
  (forall e, returns_with (fun _ => True) (handler e) Post) ->
  returns_with Pre (try_except World body handler) Post.
Proof.
  intros Hb Hh s a s' Hp E. unfold try_except in E.
  destruct (body s) as [[a1|e] s1] eqn:Eb.
  - injection E as <- <-. exact (Hb s a1 s1 Hp Eb).
  - exact (Hh e s1 a s' I E).
Qed.

Lemma returns_any {A : Type} (m : M World A) (Pre : state World -> Prop) :
  returns_with Pre m (fun _ _ => True).
Proof. intros s a s' _ _. exact I. Qed.

(** A call that returns is in the trace, with what it returned. *)
Lemma returns_call {A : Type} (f : World -> res A * World)
    (ev : res A -> event) (Pre : state World -> Prop) :
  returns_with Pre (call World f ev)
    (fun a s => In (ev (Return a)) (trace s)).
Proof.
  intros s a s' _ E. unfold call in E.
  destruct (f (world s)) as [r w']. injection E as -> <-. cbn [trace].
  apply in_or_app. right. now left.
Qed.

(** An event of the trace stays in it. *)
Lemma returns_keep {A : Type} (m : M World A) (ev : event) :
  extends m ->
  returns_with (fun s => In ev (trace s)) m (fun _ s => In ev (trace s)).
Proof.
  intros Hx s a s' Hin E. destruct (Hx s) as [evs He].
  rewrite E in He. cbn [snd] in He. rewrite He. apply in_or_app. now left.
Qed.

(** An iteration returns from the function only with the answer that the
    parser accepted in the judge's reply of this iteration, followed by the
    attribution line of its URL. *)
Ltac skip_step :=
  eapply returns_bind;
  [apply returns_any|let u := fresh in intros u; cbv beta; clear u].

Lemma attempt_answers (query : string) (max_attempts : Z) (c : nat)
    (url : string) (tried : list string) :
  returns_with (fun _ => True)
    (attempt World scrape_single_url query_chat_model status_callback
       placeholder_info CHAT_MODEL query max_attempts c url tried)
    (fun answered s =>
       forall x, answered = Some x ->
       exists p llm_response a,
         In (EvJudge c url p (Return llm_response)) (trace s)
         /\ accepted llm_response = Some a /\ x = with_ref a url).
Proof.
  unfold attempt.
  skip_step.
  skip_step.
  eapply returns_bind; [apply returns_any|intros [t|]; cbv beta];
    [|apply returns_ret; intros s _ x Hx; discriminate].
  skip_step.
  unfold analyze_step. apply returns_try.
  - eapply returns_bind; [apply returns_any|intros sliced; cbv beta].
    eapply returns_bind; [apply returns_call|intros llm_response; cbv beta].
    destruct (accepted llm_response) as [a|] eqn:Ha.
    + eapply returns_bind;
        [apply returns_keep, extends_update_ui
        |intros u; cbv beta; clear u].
      apply returns_ret. intros s Hin x Hx. injection Hx as <-.
      do 3 eexists. split; [exact Hin|]. split; [exact Ha|reflexivity].
    + skip_step.
      apply returns_ret. intros s _ x Hx. discriminate.
  - intros e. skip_step.
    apply returns_ret. intros s _ x Hx. discriminate.
Qed.

(** The loop returns the exhaustion message after all the URLs left, or
    the answer accepted in the judge's reply for one of them. *)
Lemma for_loop_answers (query : string) (max_attempts : Z)
    (rest : list string) :
  forall (c : nat) (tried : list string),
    returns_with (fun _ => True) (loop query max_attempts c rest tried)
      (fun out s =>
         (fst out = failure_message_of (length (snd out))
          /\ snd out = (tried ++ rest)%list)
         \/ exists n u p llm_response a,
              nth_error rest n = Some u
              /\ snd out = (tried ++ firstn (S n) rest)%list
              /\ In (EvJudge (c + n) u p (Return llm_response)) (trace s)
              /\ accepted llm_response = Some a
              /\ fst out = with_ref a u).
Proof.
  unfold loop.
  induction rest as [|url rest IH]; intros c tried; cbn [for_loop].
  - skip_step.
    apply returns_ret. intros s _. left. cbn [fst snd].
    now rewrite app_nil_r.
  - eapply returns_bind; [apply attempt_answers|intros [x|]; cbv beta].
    + apply returns_ret. intros s H.
      destruct (H x eq_refl) as (p & resp & a & Hin & Hacc & ->).
      right. exists 0%nat, url, p, resp, a.
      rewrite Nat.add_0_r. cbn [fst snd nth_error firstn]. auto.
    + intros s out s' _ E.
      destruct (IH (S c) (tried ++ [url])%list s out s' I E)
        as [[Hf Ht]|(n & u & p & resp & a & Hn & Ht & Hin & Hacc & Hr)].
      * left. split; [exact Hf|]. rewrite Ht, <- app_assoc. reflexivity.
      * right. exists (S n), u, p, resp, a. split; [exact Hn|].
        split; [rewrite Ht, <- app_assoc; reflexivity|].
        split; [|auto]. now rewrite Nat.add_succ_r.
Qed.

(** *** The calls are in step with the candidates *)

Lemma keeps_call_traced {A : Type} (Q : event -> Prop)
    (f : World -> res A * World) (ev : res A -> event) :
  (forall r, Q (ev r)) -> keeps (traced Q) (call World f ev).
Proof.
  intros Hq s H e. unfold call. destruct (f (world s)) as [r w'].
  cbn [snd trace]. intros Hin. apply in_app_or in Hin.
  destruct Hin as [Hin|[<-|[]]]; [now apply H|apply Hq].
Qed.

Lemma keeps_traced_ui (Q : event -> Prop) (m : notice) :
  (forall message r, Q (EvNotice message r)) -> (forall r, Q (EvRender r)) ->
  keeps (traced Q) (ui m).
Proof.
  intros Hn Hr. unfold ui, update_ui, update_status.
  apply keeps_bind; [apply keeps_call_traced; intros r; apply Hn|intros _].
  apply keeps_call_traced. exact Hr.
Qed.

Lemma keeps_traced_attempt (Q : event -> Prop) (query : string)
    (max_attempts : Z) (c : nat) (url : string) (tried : list string) :
  (forall message r, Q (EvNotice message r)) -> (forall r, Q (EvRender r)) ->
  (forall r, Q (EvFetch c url tried r)) ->
  (forall p r, Q (EvJudge c url p r)) ->
  keeps (traced Q)
    (attempt World scrape_single_url query_chat_model status_callback
       placeholder_info CHAT_MODEL query max_attempts c url tried).
Proof.
  intros Hn Hr Hf Hj.
  pose proof (fun m => keeps_traced_ui Q m Hn Hr) as Hui.
  unfold attempt.
  apply keeps_bind; [apply Hui|intros _].
  apply keeps_bind; [apply Hui|intros _].
  apply keeps_bind.
  - unfold scrape_step. apply keeps_try.
    + apply keeps_bind; [apply keeps_call_traced; exact Hf|].
      intros scraped. destruct (usable scraped);
        (apply keeps_bind; [apply Hui|intros _]); apply keeps_ret.
    + intros e. apply keeps_bind; [apply Hui|intros _]. apply keeps_ret.
  - intros [t|]; [|apply keeps_ret].
    apply keeps_bind; [apply Hui|intros _].
    unfold analyze_step. apply keeps_try.
    + apply keeps_bind; [apply keeps_lift|intros sliced].
      apply keeps_bind; [apply keeps_call_traced; intros r; apply Hj|].
      intros resp. destruct (accepted resp);
        (apply keeps_bind; [apply Hui|intros _]); apply keeps_ret.
    + intros e. apply keeps_bind; [apply Hui|intros _]. apply keeps_ret.
Qed.

Lemma firstn_length_app {A : Type} (l : list A) (x : A) (l' : list A) :
  firstn (S (length l)) (l ++ x :: l') = (l ++ [x])%list.
Proof.
  induction l as [|y l IH]; [reflexivity|].
  cbn [length app].
  change (firstn (S (S (length l))) (y :: l ++ x :: l'))
    with (y :: firstn (S (length l)) (l ++ x :: l')).
  now rewrite IH.
Qed.

Lemma nth_error_length_app {A : Type} (l : list A) (x : A) (l' : list A) :
  nth_error (l ++ x :: l') (length l) = Some x.
Proof. induction l as [|y l IH]; simpl; [reflexivity|exact IH]. Qed.

(** Every fetch and judge call of the loop is in step with the list of the
    URLs tried before followed by the URLs left, whether the loop returns
    or raises. *)
Lemma keeps_in_step (query : string) (max_attempts : Z)
    (candidates rest : list string) :
  forall (c : nat) (tried : list string),
    candidates = (tried ++ rest)%list -> c = S (length tried) ->
    keeps (traced (in_step candidates))
      (loop query max_attempts c rest tried).
Proof.
  unfold loop.
  induction rest as [|url rest IH]; intros c tried Hall Hc; cbn [for_loop].
  - apply keeps_bind; [|intros _; apply keeps_ret].
    apply keeps_traced_ui; intros; exact I.
  - apply keeps_bind.
    + apply keeps_traced_attempt; try (intros; exact I).
      * intros r. cbn [in_step]. subst c candidates.
        replace (S (length tried) - 1)%nat with (length tried) by lia.
        split; [lia|]. split; [apply nth_error_length_app|].
        symmetry. apply firstn_length_app.
      * intros p r. cbn [in_step]. subst c candidates.
        replace (S (length tried) - 1)%nat with (length tried) by lia.
        split; [lia|apply nth_error_length_app].
    + intros [answer|]; [apply keeps_ret|].
      apply IH.
      * rewrite Hall, <- app_assoc. reflexivity.
      * rewrite length_app. simpl. lia.
Qed.

(** *** The URLs fetched *)

Lemma fetches_ret {A : Type} (a : A) : fetches (ret World a) [].
Proof. intros s. cbn [ret snd]. now rewrite app_nil_r. Qed.

Lemma fetches_lift {A : Type} (r : res A) : fetches (lift World r) [].
Proof. intros s. cbn [lift snd]. now rewrite app_nil_r. Qed.

Lemma fetches_call {A : Type} (f : World -> res A * World)
    (ev : res A -> event) (l : list string) :
  (forall r, fetched_urls [ev r] = l) -> fetches (call World f ev) l.
Proof.
  intros H s. unfold call. destruct (f (world s)) as [r w'].
  cbn [snd trace]. now rewrite fetched_urls_app, H.
Qed.

Lemma fetches_bind {A B : Type} (m : M World A) (k : A -> M World B)
    (l : list string) :
  fetches m l -> (forall a, fetches (k a) []) -> fetches (bind World m k) l.
Proof.
  intros Hm Hk s. unfold bind. specialize (Hm s).
  destruct (m s) as [[a|e] s1]; cbn [snd] in *; [|exact Hm].
  now rewrite (Hk a s1), app_nil_r.
Qed.

Lemma fetches_try {A : Type} (body : M World A)
    (handler : exn -> M World A) (l : list string) :
  fetches body l -> (forall e, fetches (handler e) []) ->
  fetches (try_except World body handler) l.
Proof.
  intros Hb Hh s. unfold try_except. specialize (Hb s).
  destruct (body s) as [[a|e] s1]; cbn [snd] in *; [exact Hb|].
  now rewrite (Hh e s1), app_nil_r.
Qed.

Lemma fetches_ui (m : notice) : fetches (ui m) [].
Proof.
  unfold ui, update_ui, update_status.
  apply fetches_bind; [|intros _]; apply fetches_call; reflexivity.
Qed.

Lemma fetches_upto_exact {A : Type} (m : M World A) (l : list string) :
  fetches m l -> fetches_upto m l.
Proof.
  intros H s. destruct (fst (m s)); [apply H|].
  exists (length l). now rewrite firstn_all.
Qed.

Lemma fetches_upto_bind {A B : Type} (m : M World A) (k : A -> M World B)
    (l1 l2 : list string) :
  fetches_upto m l1 -> (forall a, fetches_upto (k a) l2) ->
  fetches_upto (bind World m k) (l1 ++ l2).
Proof.
  intros Hm Hk s. unfold bind. specialize (Hm s).
  destruct (m s) as [[a|e] s1]; cbn [fst snd] in *.
  - specialize (Hk a s1). destruct (fst (k a s1)).
    + now rewrite Hk, Hm, app_assoc.
    + destruct Hk as [n Hk]. exists (length l1 + n)%nat.
      rewrite Hk, Hm, <- app_assoc. f_equal.
      now rewrite firstn_app_2.
  - destruct Hm as [n Hm]. exists (Nat.min n (length l1)).
    rewrite Hm. f_equal.
    rewrite firstn_app.
    replace (Nat.min n (length l1) - length l1)%nat with 0%nat by lia.
    rewrite firstn_O, app_nil_r.
    destruct (Nat.le_ge_cases n (length l1)) as [Hle|Hge].
    + now rewrite Nat.min_l.
    + rewrite Nat.min_r by exact Hge. now rewrite !firstn_all2 by lia.
Qed.

(** An iteration fetches its URL, once; when it raises before the fetch it
    fetches nothing. *)
Lemma attempt_fetches (query : string) (max_attempts : Z) (c : nat)
    (url : string) (tried : list string) :
  fetches_upto
    (attempt World scrape_single_url query_chat_model status_callback
       placeholder_info CHAT_MODEL query max_attempts c url tried)
    [url].
Proof.
  unfold attempt.
  apply (fetches_upto_bind _ _ [] [url]);
    [apply fetches_upto_exact, fetches_ui|intros _].
  apply (fetches_upto_bind _ _ [] [url]);
    [apply fetches_upto_exact, fetches_ui|intros _].
  apply (fetches_upto_bind _ _ [url] []).
  - apply fetches_upto_exact. unfold scrape_step. apply fetches_try.
    + apply fetches_bind; [apply fetches_call; reflexivity|].
      intros scraped. destruct (usable scraped);
        (apply fetches_bind; [apply fetches_ui|intros _]);
        apply fetches_ret.
    + intros e. apply fetches_bind; [apply fetches_ui|intros _].
      apply fetches_ret.
  - intros [t|]; apply fetches_upto_exact; [|apply fetches_ret].
    apply fetches_bind; [apply fetches_ui|intros _].
    unfold analyze_step. apply fetches_try.
    + apply fetches_bind; [apply fetches_lift|intros sliced].
      apply fetches_bind; [apply fetches_call; reflexivity|].
      intros resp. destruct (accepted resp);
        (apply fetches_bind; [apply fetches_ui|intros _]);
        apply fetches_ret.
    + intros e. apply fetches_bind; [apply fetches_ui|intros _].
      apply fetches_ret.
Qed.

(** The URLs that the loop fetches are the first ones of the URLs left;
    when it returns, they are the URLs it adds to [tried_urls]. *)
Lemma for_loop_fetches (query : string) (max_attempts : Z)
    (rest : list string) :
  forall (c : nat) (tried : list string) (s : state World),
  exists n,
    (n <= length rest)%nat
    /\ fetched_urls (trace (snd (loop query max_attempts c rest tried s)))
       = (fetched_urls (trace s) ++ firstn n rest)%list
    /\ forall out,
         fst (loop query max_attempts c rest tried s) = Return out ->
         snd out = (tried ++ firstn n rest)%list.
Proof.
  unfold loop.
  induction rest as [|url rest IH]; intros c tried s; cbn [for_loop].
  - exists 0%nat. split; [simpl; lia|].
    pose proof (fetches_ui (NFinished (failure_message_of (length tried))) s)
      as Hu.
    unfold bind, ret. fold ui.
    destruct (ui _ s) as [[[]|e] s1]; cbn [fst snd] in *.
    + split; [exact Hu|]. intros out H. injection H as <-.
      cbn [snd firstn]. now rewrite app_nil_r.
    + split; [exact Hu|]. discriminate.
  - pose proof (attempt_fetches query max_attempts c url
                  (tried ++ [url])%list s) as Ha.
    unfold bind.
    destruct (attempt _ _ _ _ _ _ _ _ _ _ _ s) as [[[x|]|e] s1];
      cbn [fst snd] in *.
    + exists 1%nat. split; [simpl; lia|]. split; [exact Ha|].
      intros out H. injection H as <-. reflexivity.
    + destruct (IH (S c) (tried ++ [url])%list s1) as (n & Hn & Hf & Ho).
      exists (S n). split; [simpl; lia|]. split.
      * rewrite Hf, Ha, <- app_assoc. reflexivity.
      * intros out H. rewrite (Ho out H), <- app_assoc. reflexivity.
    + destruct Ha as [n Ha]. exists (Nat.min n 1). split; [simpl; lia|].
      split; [|discriminate].
      rewrite Ha. f_equal. destruct n as [|[|n]]; reflexivity.
Qed.

(** C8 (as amended). Whatever the sink does, and whether the session
    returns or raises: every fetch is made when [tried_urls] is the first
    [j] candidates, in their order, of which the URL fetched is the last
    ([j] is the attempt number); the URLs fetched are the first [n]
    candidates, for some [n], and [tried_urls] is these same [n] candidates
    when the session returns.  When the candidate list has no duplicates,
    no URL is fetched twice and the returned [tried_urls] has no
    duplicates. *)
Theorem tried_urls_prefix (query : string) (urls : list string)
    (max_attempts : Z) (w : World) :
  (forall j url t fr,
     In (EvFetch j url t fr)
        (trace (snd (run query urls max_attempts (start w)))) ->
     (1 <= j <= length urls)%nat
     /\ nth_error urls (j - 1) = Some url
     /\ t = firstn j urls)
  /\ (exists n,
        (n <= length urls)%nat
        /\ fetched_urls (trace (snd (run query urls max_attempts (start w))))
           = firstn n urls
        /\ forall result tried_urls,
             fst (run query urls max_attempts (start w))
             = Return (result, tried_urls) ->
             tried_urls = firstn n urls)
  /\ (NoDup urls ->
      NoDup (fetched_urls
               (trace (snd (run query urls max_attempts (start w)))))
      /\ forall result tried_urls,
           fst (run query urls max_attempts (start w))
           = Return (result, tried_urls) ->
           NoDup tried_urls).
Proof.
  assert (Hfetch : exists n,
            (n <= length urls)%nat
            /\ fetched_urls
                 (trace (snd (run query urls max_attempts (start w))))
               = firstn n urls
            /\ forall result tried_urls,
                 fst (run query urls max_attempts (start w))
                 = Return (result, tried_urls) ->
                 tried_urls = firstn n urls).
  { unfold run, run_search_session.
    destruct (for_loop_fetches query max_attempts
                (list_slice_to urls max_attempts) 1%nat [] (start w))
      as (n & Hn & Hf & Ho).
    unfold loop in Hf, Ho. cbn [start trace fetched_urls] in Hf.
    rewrite app_nil_l in Hf.
    rewrite (list_slice_to_prefix urls max_attempts n Hn) in Hf, Ho.
    exists n. split.
    - unfold list_slice_to in Hn. rewrite length_firstn in Hn. lia.
    - split; [exact Hf|]. intros result tried_urls H.
      exact (Ho _ H). }
  split; [|split; [exact Hfetch|]].
  - intros j url t fr Hin.
    pose proof (keeps_in_step query max_attempts
                  (list_slice_to urls max_attempts)
                  (list_slice_to urls max_attempts) 1%nat []
                  eq_refl eq_refl (start w)) as Hk.
    unfold loop in Hk. unfold run, run_search_session in Hin.
    specialize (Hk (fun ev H => match H with end) _ Hin).
    cbn [in_step] in Hk. destruct Hk as (Hj & Hn & Ht).
    destruct (list_slice_to_nth _ _ _ _ Hn) as [Hu Hlen].
    assert (Hl : (j - 1 < length urls)%nat)
      by (apply nth_error_Some; congruence).
    split; [lia|]. split; [exact Hu|].
    rewrite Ht. apply list_slice_to_prefix. lia.
  - intros Hnd. destruct Hfetch as (n & _ & Hf & Ho).
    split; [rewrite Hf; now apply NoDup_firstn|].
    intros result tried_urls H. rewrite (Ho _ _ H).
    now apply NoDup_firstn.
Qed.

(** X4. Whenever [run_search_session] returns, also when exceptions of the
    sink were swallowed by the [try] blocks on the way: either every URL of
    [urls[:max_attempts]] was tried and the result is the exhaustion
    message that counts them, or [tried_urls] is the candidates up to some
    URL, the last one tried, and the result is the answer that the parser
    accepts in a reply that the judge gave for that URL in this session
    (an answer that is not empty, and trimmed), followed by the attribution
    line of that URL.  The result is never the empty string. *)
Theorem session_result_shape (query : string) (urls : list string)
    (max_attempts : Z) (w : World) (result : string)
    (tried_urls : list string) :
  fst (run query urls max_attempts (start w)) = Return (result, tried_urls) ->
  ((tried_urls = list_slice_to urls max_attempts
    /\ result = failure_message_of (length tried_urls))
   \/ exists n u p llm_response a,
        nth_error urls n = Some u
        /\ tried_urls = firstn (S n) urls
        /\ last tried_urls "" = u
        /\ In (EvJudge (S n) u p (Return llm_response))
              (trace (snd (run query urls max_attempts (start w))))
        /\ parse_llm_sufficiency_response llm_response = (Some a, true)
        /\ a <> "" /\ strip a = a
        /\ result = with_ref a u)
  /\ result <> "".
Proof.
  intros H. unfold run, run_search_session in *.
  destruct (for_loop _ _ _ _ _ _ _ _ _ _ _ (start w)) as [r s'] eqn:E.
  cbn [fst snd] in *. subst r.
  destruct (for_loop_answers query max_attempts _ 1%nat [] _ _ _ I E)
    as [[Hf Ht]|(n & u & p & resp & a & Hn & Ht & Hin & Hacc & Hr)];
    cbn [fst snd] in *.
  - split; [left; now rewrite Hf, Ht|].
    rewrite Hf. unfold failure_message_of. discriminate.
  - destruct (list_slice_to_nth _ _ _ _ Hn) as [Hu Hlen].
    rewrite app_nil_l in Ht.
    rewrite (list_slice_to_prefix urls max_attempts (S n)) in Ht by lia.
    destruct (accepted_trimmed _ _ Hacc) as [Hne Hs].
    split.
    + right. exists n, u, p, resp, a. split; [exact Hu|].
      split; [exact Ht|]. split.
      { rewrite Ht, (firstn_succ_snoc urls n u Hu). apply last_last. }
      split; [exact Hin|]. split; [now apply accepted_iff|]. auto.
    + rewrite Hr. unfold with_ref. destruct a; [congruence|discriminate].
Qed.

End AnyOutcome.

(* ===================================================================== *)
(** ** The spider *)
(* ===================================================================== *)

Lemma append_nil_r (s : string) : s ++ "" = s.
Proof. induction s as [|c s IH]; simpl; congruence. Qed.

Lemma chars_append (a b : string) : chars (a ++ b) = (chars a ++ chars b)%list.
Proof. induction a as [|c a IH]; simpl; congruence. Qed.

Lemma chars_lstrip (s : string) (c : ascii) :
  In c (chars (lstrip s)) -> In c (chars s).
Proof.
  induction s as [|b s IH]; simpl; [tauto|].
  destruct (isspace b); simpl; tauto.
Qed.

Lemma chars_rstrip (s : string) (c : ascii) :
  In c (chars (rstrip s)) -> In c (chars s).
Proof.
  induction s as [|b s IH]; [simpl; tauto|].
  rewrite rstrip_cons. destruct (rstrip s) as [|d r].
  - destruct (isspace b); simpl; tauto.
  - simpl in *. tauto.
Qed.

Lemma chars_strip (s : string) (c : ascii) :
  In c (chars (strip s)) -> In c (chars s).
Proof. intros H. now apply chars_lstrip, chars_rstrip. Qed.

(* ---------- [split()] and [' '.join] ---------- *)

Lemma words_from_spec (s : string) :
  (forall c, In c (chars (fst (words_from s))) -> isspace c = false)
  /\ Forall word (snd (words_from s)).
Proof.
  induction s as [|b s [IHw IHws]]; simpl; [split; [tauto|constructor]|].
  destruct (words_from s) as [w ws]. cbn [fst snd] in *.
  destruct (isspace b) eqn:Hb; cbn [fst snd].
  - split; [simpl; tauto|].
    destruct w as [|a w]; [exact IHws|].
    constructor; [split; [discriminate|exact IHw]|exact IHws].
  - split; [|exact IHws]. simpl. intros c [<-|Hc]; auto.
Qed.

Lemma split_ws_words (s : string) : Forall word (split_ws s).
Proof.
  unfold split_ws. destruct (words_from_spec s) as [Hw Hws].
  destruct (words_from s) as [w ws]. cbn [fst snd] in *.
  destruct w as [|a w]; [exact Hws|].
  constructor; [split; [discriminate|exact Hw]|exact Hws].
Qed.

Lemma words_from_append (w t : string) :
  (forall c, In c (chars w) -> isspace c = false) ->
  words_from (w ++ t) = (w ++ fst (words_from t), snd (words_from t)).
Proof.
  induction w as [|a w IH]; intros Hw; simpl.
  - now destruct (words_from t).
  - rewrite IH by (intros c Hc; apply Hw; simpl; auto).
    rewrite (Hw a) by (simpl; auto). reflexivity.
Qed.

Lemma join_space_cons (w w' : string) (ws : list string) :
  join_space (w :: w' :: ws) = w ++ String " " (join_space (w' :: ws)).
Proof. reflexivity. Qed.

Lemma words_from_join (ws : list string) :
  Forall word ws ->
  words_from (join_space ws)
  = match ws with [] => ("", []) | w :: ws' => (w, ws') end.
Proof.
  induction ws as [|w ws IH]; intros H; [reflexivity|].
  inversion H as [|w0 ws0 [Hne Hw] Hws]; subst.
  destruct ws as [|w' ws'].
  - change (join_space [w]) with w.
    rewrite <- (append_nil_r w) at 1. rewrite (words_from_append w "" Hw).
    cbn [words_from fst snd]. now rewrite append_nil_r.
  - rewrite join_space_cons, (words_from_append _ _ Hw).
    cbn [words_from]. rewrite (IH Hws).
    change (isspace " ") with true. cbv iota. cbn [fst snd].
    inversion Hws as [|w0 ws0 [Hne' _] _]; subst.
    destruct w' as [|a w']; [congruence|].
    cbn [truthy]. now rewrite append_nil_r.
Qed.

Lemma split_ws_join (ws : list string) :
  Forall word ws -> split_ws (join_space ws) = ws.
Proof.
  intros H. unfold split_ws. rewrite (words_from_join ws H).
  destruct ws as [|w ws']; [reflexivity|].
  inversion H as [|w0 ws0 [Hne _] _]; subst.
  destruct w; [congruence|reflexivity].
Qed.

Lemma solid_append (a b : string) : solid b -> b <> "" -> solid (a ++ b).
Proof.
  unfold solid. intros Hb Hne. induction a as [|c a IH]; [exact Hb|].
  simpl append. rewrite rstrip_cons, IH.
  destruct (a ++ b) eqn:E; [|reflexivity].
  destruct a; simpl in E; congruence.
Qed.

Lemma solid_blank_free (w : string) :
  (forall c, In c (chars w) -> isspace c = false) -> solid w.
Proof.
  unfold solid. induction w as [|a w IH]; intros Hw; [reflexivity|].
  rewrite rstrip_cons, IH by (intros c Hc; apply Hw; simpl; auto).
  destruct w; [|reflexivity].
  rewrite (Hw a) by (simpl; auto). reflexivity.
Qed.

Lemma join_space_nonempty (w : string) (ws : list string) :
  w <> "" -> join_space (w :: ws) <> "".
Proof.
  intros Hne. destruct ws as [|w' ws]; [exact Hne|].
  rewrite join_space_cons. destruct w; [congruence|discriminate].
Qed.

Lemma join_space_solid (ws : list string) :
  Forall word ws -> solid (join_space ws).
Proof.
  induction ws as [|w ws IH]; intros H; [reflexivity|].
  inversion H as [|w0 ws0 [Hne Hw] Hws]; subst.
  destruct ws as [|w' ws']; [now apply solid_blank_free|].
  rewrite join_space_cons. apply solid_append; [|discriminate].
  inversion Hws as [|w0 ws0 [Hne' _] _]; subst.
  unfold solid. rewrite rstrip_cons. rewrite (IH Hws).
  pose proof (join_space_nonempty w' ws' Hne') as Hj.
  destruct (join_space (w' :: ws')); [congruence|reflexivity].
Qed.

Lemma join_space_flush (ws : list string) :
  Forall word ws -> flush_left (join_space ws).
Proof.
  unfold flush_left. intros H. destruct ws as [|w ws]; [reflexivity|].
  inversion H as [|w0 ws0 [Hne Hw] Hws]; subst.
  destruct w as [|a w]; [congruence|].
  assert (Ha : isspace a = false) by (apply Hw; simpl; auto).
  destruct ws as [|w' ws'].
  - change (join_space [String a w]) with (String a w).
    simpl. now rewrite Ha.
  - rewrite join_space_cons. simpl. now rewrite Ha.
Qed.

Lemma strip_join_space (ws : list string) :
  Forall word ws -> strip (join_space ws) = join_space ws.
Proof.
  intros H. unfold strip.
  rewrite (join_space_flush ws H). apply (join_space_solid ws H).
Qed.

Lemma collapse_join (text : string) :
  collapse text = join_space (split_ws text).
Proof. apply strip_join_space, split_ws_words. Qed.

Lemma join_space_blanks (ws : list string) (c : ascii) :
  Forall word ws -> In c (chars (join_space ws)) -> isspace c = true ->
  c = " "%char.
Proof.
  induction ws as [|w ws IH]; intros H Hin Hc; [destruct Hin|].
  inversion H as [|w0 ws0 [Hne Hw] Hws]; subst.
  destruct ws as [|w' ws'].
  - change (join_space [w]) with w in Hin. rewrite (Hw c Hin) in Hc.
    discriminate.
  - rewrite join_space_cons, chars_append in Hin.
    apply in_app_or in Hin. destruct Hin as [Hin|Hin].
    + rewrite (Hw c Hin) in Hc. discriminate.
    + simpl in Hin. destruct Hin as [<-|Hin]; [reflexivity|]. now apply IH.
Qed.

Lemma neighbours_word_append (w t : string) :
  (forall c, In c (chars w) -> isspace c = false) ->
  (forall a b, In (a, b) (neighbours t) ->
               isspace a = true -> isspace b = false) ->
  forall a b, In (a, b) (neighbours (w ++ t)) ->
              isspace a = true -> isspace b = false.
Proof.
  intros Hw Ht. induction w as [|c w IH]; [exact Ht|].
  intros a b. simpl append.
  destruct (w ++ t) as [|d r] eqn:E; [intros []|].
  cbn [neighbours]. fold (neighbours (String d r)).
  intros [Hin|Hin] Ha.
  - injection Hin as <- <-. rewrite (Hw c) in Ha by (simpl; auto).
    discriminate.
  - refine (IH _ a b Hin Ha). intros x Hx. apply Hw. simpl. auto.
Qed.

Lemma join_space_neighbours (ws : list string) :
  Forall word ws ->
  forall a b, In (a, b) (neighbours (join_space ws)) ->
              isspace a = true -> isspace b = false.
Proof.
  induction ws as [|w ws IH]; intros H; [intros a b []|].
  inversion H as [|w0 ws0 [Hne Hw] Hws]; subst.
  destruct ws as [|w' ws'].
  - change (join_space [w]) with w. rewrite <- (append_nil_r w).
    apply neighbours_word_append; [exact Hw|intros a b []].
  - rewrite join_space_cons. apply neighbours_word_append; [exact Hw|].
    intros a b. cbn [neighbours].
    inversion Hws as [|w0 ws0 [Hne' Hw'] _]; subst.
    destruct w' as [|d w']; [congruence|].
    assert (Hd : isspace d = false) by (apply Hw'; simpl; auto).
    assert (Hj : exists r, join_space (String d w' :: ws') = String d r).
    { destruct ws'; [now exists w'|]. rewrite join_space_cons.
      eexists. reflexivity. }
    destruct Hj as [r Hj]. specialize (IH Hws). rewrite Hj in *.
    intros [Hin|Hin] Ha.
    + injection Hin as <- <-. exact Hd.
    + exact (IH a b Hin Ha).
Qed.

Lemma filter_blank_free (w : string) :
  (forall c, In c (chars w) -> isspace c = false) ->
  filter (fun c => negb (isspace c)) (chars w) = chars w.
Proof.
  induction w as [|a w IH]; intros Hw; [reflexivity|].
  simpl. rewrite (Hw a) by (simpl; auto). simpl.
  rewrite IH; [reflexivity|]. intros c Hc. apply Hw. simpl. auto.
Qed.

Lemma filter_words_from (s : string) :
  filter (fun c => negb (isspace c)) (chars s)
  = (chars (fst (words_from s)) ++ flat (snd (words_from s)))%list.
Proof.
  induction s as [|b s IH]; [reflexivity|].
  simpl. destruct (words_from s) as [w ws]. cbn [fst snd] in *.
  destruct (isspace b); cbn [negb fst snd chars].
  - rewrite IH. destruct w; reflexivity.
  - rewrite IH. reflexivity.
Qed.

Lemma filter_split_ws (s : string) :
  filter (fun c => negb (isspace c)) (chars s) = flat (split_ws s).
Proof.
  rewrite filter_words_from. unfold split_ws.
  destruct (words_from s) as [w ws]. cbn [fst snd].
  destruct w; reflexivity.
Qed.

Lemma filter_join_space (ws : list string) :
  Forall word ws ->
  filter (fun c => negb (isspace c)) (chars (join_space ws)) = flat ws.
Proof.
  induction ws as [|w ws IH]; intros H; [reflexivity|].
  inversion H as [|w0 ws0 [Hne Hw] Hws]; subst.
  destruct ws as [|w' ws'].
  - change (join_space [w]) with w. rewrite (filter_blank_free w Hw).
    unfold flat. simpl. now rewrite app_nil_r.
  - rewrite join_space_cons, chars_append, filter_app.
    rewrite (filter_blank_free w Hw). cbn [chars filter].
    change (negb (isspace " ")) with false. cbv iota.
    rewrite (IH Hws). reflexivity.
Qed.

Lemma rstrip_empty (s : string) :
  rstrip s = "" <-> filter (fun c => negb (isspace c)) (chars s) = [].
Proof.
  induction s as [|b s IH]; [simpl; tauto|].
  rewrite rstrip_cons. cbn [chars filter].
  destruct (rstrip s) as [|d r].
  - destruct (isspace b); cbn [negb].
    + split; [intros _; now apply IH|reflexivity].
    + split; discriminate.
  - split; [discriminate|]. destruct (isspace b); cbn [negb].
    + intros H. apply IH in H. discriminate.
    + discriminate.
Qed.

Lemma filter_lstrip (s : string) :
  filter (fun c => negb (isspace c)) (chars (lstrip s))
  = filter (fun c => negb (isspace c)) (chars s).
Proof.
  induction s as [|b s IH]; [reflexivity|].
  simpl. destruct (isspace b) eqn:Hb; simpl; [exact IH|].
  now rewrite Hb.
Qed.

Lemma strip_empty (s : string) :
  strip s = "" <-> filter (fun c => negb (isspace c)) (chars s) = [].
Proof. unfold strip. now rewrite rstrip_empty, filter_lstrip. Qed.

Lemma flat_empty (ws : list string) : Forall word ws -> flat ws = [] -> ws = [].
Proof.
  intros H. destruct ws as [|w ws]; [reflexivity|].
  inversion H as [|w0 ws0 [Hne _] _]; subst.
  destruct w; [congruence|discriminate].
Qed.

Lemma collapse_idempotent (text : string) :
  collapse (collapse text) = collapse text.
Proof.
  rewrite !collapse_join. now rewrite split_ws_join by apply split_ws_words.
Qed.

(** X15. The text that the spider keeps, [' '.join(text.split()).strip()]: the
    words of [text], in order and unchanged, with one space between two of
    them.  It has no blank at either end (the final [strip()] removes
    nothing), no blank character but the space, and no two blanks side by
    side; it is empty exactly when [text] is blank; collapsing it again
    changes nothing. *)
Theorem collapse_normal_form (text : string) :
  collapse text = join_space (split_ws text)
  /\ strip (collapse text) = collapse text
  /\ (forall c, In c (chars (collapse text)) -> isspace c = true ->
                c = " "%char)
  /\ (forall a b, In (a, b) (neighbours (collapse text)) ->
                  isspace a = true -> isspace b = false)
  /\ filter (fun c => negb (isspace c)) (chars (collapse text))
     = filter (fun c => negb (isspace c)) (chars text)
  /\ (collapse text = "" <-> strip text = "")
  /\ collapse (collapse text) = collapse text.
Proof.
  pose proof (split_ws_words text) as Hw.
  assert (Hf : filter (fun c => negb (isspace c))
                 (chars (join_space (split_ws text)))
               = filter (fun c => negb (isspace c)) (chars text))
    by now rewrite filter_join_space, filter_split_ws.
  rewrite !collapse_join.
  split; [reflexivity|].
  split; [now apply strip_join_space|].
  split; [intros c; now apply join_space_blanks|].
  split; [now apply join_space_neighbours|].
  split; [exact Hf|].
  split; [|now rewrite split_ws_join].
  rewrite strip_empty. split.
  - intros H. rewrite <- Hf, H. reflexivity.
  - intros H. rewrite filter_split_ws in H.
    now rewrite (flat_empty _ Hw H).
Qed.

(* ---------- [split(',')] ---------- *)

Lemma fields_no_sep (sep : ascii) (s : string) :
  ~ In sep (chars (fst (fields sep s)))
  /\ Forall (fun p => ~ In sep (chars p)) (snd (fields sep s)).
Proof.
  induction s as [|c s [IHw IHws]]; simpl; [split; [tauto|constructor]|].
  destruct (fields sep s) as [w ws]. cbn [fst snd] in *.
  destruct (Ascii.eqb_spec c sep) as [->|Hne]; cbn [fst snd].
  - split; [simpl; tauto|]. now constructor.
  - split; [|exact IHws]. simpl. intros [H|H]; [congruence|tauto].
Qed.

Lemma split_comma_no_comma (s p : string) :
  In p (split_comma s) -> ~ In ","%char (chars p).
Proof.
  unfold split_comma. destruct (fields_no_sep "," s) as [Hw Hws].
  destruct (fields "," s) as [w ws]. cbn [fst snd] in *.
  intros [<-|Hin]; [exact Hw|].
  rewrite Forall_forall in Hws. now apply Hws.
Qed.

Lemma fields_whole (sep : ascii) (s : string) :
  ~ In sep (chars s) -> fields sep s = (s, []).
Proof.
  induction s as [|c s IH]; intros H; [reflexivity|].
  simpl. rewrite IH by (intros Hin; apply H; simpl; auto).
  destruct (Ascii.eqb_spec c sep) as [->|Hne]; [|reflexivity].
  exfalso. apply H. simpl. auto.
Qed.

Section SpiderFacts.

Variable urlparse_scheme : string -> result string.
Variable Response : Type.
Variable response_url : Response -> string.
Variable content_type_header : Response -> result string.
Variable readability_summary : Response -> result string.
Variable text_content : string -> result string.
Variable body_texts : Response -> result (list string).

Let each := parse_each urlparse_scheme.
Let extract := _extract_content Response readability_summary text_content
                 body_texts.

Lemma parse_each_done (pieces urls : list string) :
  each pieces = Done urls ->
  (length urls <= length pieces)%nat
  /\ forall u, In u urls ->
       exists piece scheme,
         In piece pieces /\ strip piece <> ""
         /\ urlparse_scheme (strip piece) = Done scheme
         /\ u = if truthy scheme then strip piece
                else "http://" ++ strip piece.
Proof.
  unfold each. revert urls.
  induction pieces as [|piece rest IH]; intros urls; simpl.
  - intros H. injection H as <-. split; [simpl; lia|intros u []].
  - destruct (truthy (strip piece)) eqn:Hp; cbn [negb].
    + destruct (urlparse_scheme (strip piece)) as [scheme|e] eqn:Hs;
        [|discriminate].
      destruct (parse_each urlparse_scheme rest) as [result|e];
        [|discriminate].
      intros H. injection H as <-.
      destruct (IH result eq_refl) as [Hlen Hin]. split; [simpl; lia|].
      intros u [<-|Hu].
      * exists piece, scheme. split; [now left|].
        split; [now apply truthy_nonempty|]. split; [exact Hs|].
        now destruct (truthy scheme).
      * destruct (Hin u Hu) as (p & sc & Hp' & H'). exists p, sc.
        split; [now right|exact H'].
    + intros H. destruct (IH urls H) as [Hlen Hin]. split; [lia|].
      intros u Hu. destruct (Hin u Hu) as (p & sc & Hp' & H').
      exists p, sc. split; [now right|exact H'].
Qed.

Lemma parse_each_failed (pieces : list string) (e : raised) :
  each pieces = Fail e ->
  exists piece, In piece pieces /\ urlparse_scheme (strip piece) = Fail e.
Proof.
  unfold each. induction pieces as [|piece rest IH]; simpl; [discriminate|].
  destruct (truthy (strip piece)); cbn [negb].
  - destruct (urlparse_scheme (strip piece)) as [scheme|e'] eqn:Hs.
    + destruct (parse_each urlparse_scheme rest) as [result|e'];
        [discriminate|].
      intros H. injection H as ->. destruct (IH eq_refl) as (p & Hp & H').
      exists p. auto.
    + intros H. injection H as ->. exists piece. auto.
  - intros H. destruct (IH H) as (p & Hp & H'). exists p. auto.
Qed.

(** X16. [_parse_urls] refuses a missing or empty argument with a [ValueError]
    and otherwise fails only where [urlparse] does.  What it returns are
    start URLs, at most one per comma-separated piece: each is a trimmed,
    non-empty piece of the argument, with [http://] in front when
    [urlparse] finds no scheme, and none contains a comma (so a URL with a
    comma in it is never crawled as it is). *)
Theorem parse_urls_outcomes (input_urls_str : option string) :
  match _parse_urls urlparse_scheme input_urls_str with
  | Done urls =>
      exists s,
        input_urls_str = Some s /\ s <> ""
        /\ (length urls <= length (split_comma s))%nat
        /\ forall u, In u urls ->
             start_url_of urlparse_scheme s u /\ u <> "" /\ strip u = u
             /\ ~ In ","%char (chars u)
  | Fail e =>
      (e = Raised ValueError
             "Spider requires 'start_urls' argument (e.g., -a start_urls='http://example.com')"
       /\ (input_urls_str = None \/ input_urls_str = Some ""))
      \/ exists s piece,
           input_urls_str = Some s /\ In piece (split_comma s)
           /\ urlparse_scheme (strip piece) = Fail e
  end.
Proof.
  unfold _parse_urls.
  destruct input_urls_str as [s|]; [|left; auto].
  destruct s as [|c s]; [left; auto|]. cbn [truthy negb].
  set (text := String c s).
  destruct (parse_each urlparse_scheme (split_comma text)) as [urls|e] eqn:E.
  - exists text. split; [reflexivity|]. split; [discriminate|].
    destruct (parse_each_done _ _ E) as [Hlen Hin]. split; [exact Hlen|].
    intros u Hu. destruct (Hin u Hu) as (piece & scheme & Hp & Hne & Hs & ->).
    split; [exists piece, scheme; auto|].
    destruct (strip_trimmed piece) as [Hl Hr].
    pose proof (split_comma_no_comma _ _ Hp) as Hc.
    destruct (truthy scheme).
    + split; [exact Hne|]. split; [apply strip_idempotent|].
      intros H. apply Hc. now apply chars_strip.
    + split; [discriminate|]. split.
      * unfold strip at 1.
        change (lstrip ("http://" ++ strip piece))
          with ("http://" ++ strip piece).
        exact (solid_append "http://" (strip piece) Hr Hne).
      * rewrite chars_append. intros H. apply in_app_or in H.
        destruct H as [H|H].
        -- simpl in H. repeat (destruct H as [H|H]; [discriminate|]).
           exact H.
        -- apply Hc. now apply chars_strip.
  - right. destruct (parse_each_failed _ _ E) as (piece & Hp & Hf).
    exists text, piece. auto.
Qed.

(** X23. A URL as [scrape_single_url] hands it over in [start_urls] (line
    95 of web_tools.py), when it is not empty, has no blank at either end
    and no comma: it is the one start URL, as it is when [urlparse] finds
    a scheme in it, with [http://] in front when it finds none. *)
Theorem parse_urls_single (url scheme : string) :
  url <> "" -> strip url = url -> ~ In ","%char (chars url) ->
  urlparse_scheme url = Done scheme ->
  _parse_urls urlparse_scheme (Some url)
  = Done [if truthy scheme then url else "http://" ++ url].
Proof.
  intros Hne Hs Hc Hu. unfold _parse_urls, split_comma.
  destruct url as [|c url]; [congruence|]. cbn [truthy negb].
  rewrite (fields_whole _ _ Hc). cbn [parse_each]. rewrite Hs.
  cbn [truthy negb]. rewrite Hu. now destruct (truthy scheme).
Qed.

(** X17. [_extract_content] returns collapsed text, and which text is
    settled by readability.  When readability keeps some HTML and lxml finds
    in it a text that is not blank, that text, collapsed, is returned.  The
    fallback is used only when this is not so (no HTML kept, a blank text,
    or an exception in readability or lxml): then the result is the
    collapsed text nodes of the body, and the only exception that gets out
    is that of the body selector. *)
Theorem page_text_fallback (response : Response) :
  match extract response with
  | Done text =>
      collapse text = text
      /\ ((text <> ""
           /\ exists cleaned_html raw,
                readability_summary response = Done cleaned_html
                /\ cleaned_html <> ""
                /\ text_content cleaned_html = Done raw
                /\ text = collapse raw)
          \/ ((forall cleaned_html raw,
                 readability_summary response = Done cleaned_html ->
                 cleaned_html <> "" ->
                 text_content cleaned_html = Done raw ->
                 collapse raw = "")
              /\ exists texts,
                   body_texts response = Done texts
                   /\ text = collapse (strip (join_space texts))))
  | Fail e =>
      body_texts response = Fail e
      /\ forall cleaned_html raw,
           readability_summary response = Done cleaned_html ->
           cleaned_html <> "" ->
           text_content cleaned_html = Done raw ->
           collapse raw = ""
  end.
Proof.
  unfold extract, _extract_content, readable_text, fallback_text.
  assert (Hfb : (forall cleaned_html raw,
                   readability_summary response = Done cleaned_html ->
                   cleaned_html <> "" ->
                   text_content cleaned_html = Done raw ->
                   collapse raw = "") ->
                match
                  match body_texts response with
                  | Done texts => Done (collapse (strip (join_space texts)))
                  | Fail e => Fail e
                  end
                with
                | Done text =>
                    collapse text = text
                    /\ ((text <> ""
                         /\ exists cleaned_html raw,
                              readability_summary response = Done cleaned_html
                              /\ cleaned_html <> ""
                              /\ text_content cleaned_html = Done raw
                              /\ text = collapse raw)
                        \/ ((forall cleaned_html raw,
                               readability_summary response
                               = Done cleaned_html ->
                               cleaned_html <> "" ->
                               text_content cleaned_html = Done raw ->
                               collapse raw = "")
                            /\ exists texts,
                                 body_texts response = Done texts
                                 /\ text
                                    = collapse (strip (join_space texts))))
                | Fail e =>
                    body_texts response = Fail e
                    /\ forall cleaned_html raw,
                         readability_summary response = Done cleaned_html ->
                         cleaned_html <> "" ->
                         text_content cleaned_html = Done raw ->
                         collapse raw = ""
                end).
  { intros Hno. destruct (body_texts response) as [texts|e];
      [|split; [reflexivity|exact Hno]].
    split; [apply collapse_idempotent|]. right.
    split; [exact Hno|]. eauto. }
  destruct (readability_summary response) as [cleaned_html|e];
    [|apply Hfb; discriminate].
  destruct (truthy cleaned_html) eqn:Hh.
  2:{ apply Hfb. intros h raw H Hne. injection H as <-.
      apply truthy_nonempty in Hne. congruence. }
  destruct (text_content cleaned_html) as [raw|e] eqn:Ht.
  2:{ apply Hfb. intros h raw H _ Hr. injection H as <-. congruence. }
  destruct (truthy (collapse raw)) eqn:Hc.
  2:{ apply Hfb. intros h raw' H _ Hr. injection H as <-.
      rewrite Ht in Hr. injection Hr as <-.
      destruct (collapse raw); [reflexivity|discriminate]. }
  split; [apply collapse_idempotent|]. left.
  split; [now apply truthy_nonempty|].
  exists cleaned_html, raw.
  split; [reflexivity|]. split; [now apply truthy_nonempty|]. auto.
Qed.

Lemma extract_content_collapsed (response : Response) (text : string) :
  extract response = Done text -> collapse text = text.
Proof.
  unfold extract, _extract_content, readable_text, fallback_text.
  assert (Hfb : match body_texts response with
                | Done texts => Done (collapse (strip (join_space texts)))
                | Fail e => Fail e
                end = Done text -> collapse text = text).
  { destruct (body_texts response) as [texts|e]; [|discriminate].
    intros H. injection H as <-. apply collapse_idempotent. }
  destruct (readability_summary response) as [cleaned_html|e]; [|exact Hfb].
  destruct (truthy cleaned_html); [|exact Hfb].
  destruct (text_content cleaned_html) as [raw|e]; [|exact Hfb].
  destruct (truthy (collapse raw)); [|exact Hfb].
  intros H. injection H as <-. apply collapse_idempotent.
Qed.

(** X18. [parse] yields at most one item, and only for a response whose
    [Content-Type] names HTML or XHTML (in any letter case).  The item is a
    dict with the response's URL and a [text] that is not empty and is
    collapsed; [scrape_single_url] reads that very text back from a list
    that begins with the item.  Nothing that the header, readability or
    the selectors raise gets out of [parse]. *)
Theorem parse_yields (response : Response) :
  let items := parse Response response_url content_type_header
                 readability_summary text_content body_texts response in
  (length items <= 1)%nat
  /\ forall it, In it items ->
       exists header text,
         content_type_header response = Done header
         /\ (contains (lower header) "text/html" = true
             \/ contains (lower header) "application/xhtml+xml" = true)
         /\ extract response = Done text
         /\ text <> "" /\ collapse text = text
         /\ it = VDict [("url", VStr (response_url response));
                        ("text", VStr text)]
         /\ forall rest,
              extract_text (VList (it :: rest)) = Done (Some (VStr text)).
Proof.
  cbv zeta. unfold parse. fold extract.
  destruct (content_type_header response) as [header|e];
    [|split; [simpl; lia|intros it []]].
  destruct (contains (lower header) "text/html") eqn:H1;
    destruct (contains (lower header) "application/xhtml+xml") eqn:H2;
    cbn [negb andb];
    try (pose proof (extract_content_collapsed response) as Hx;
         destruct (extract response) as [text|e];
         [|split; [simpl; lia|intros it []]];
         destruct (truthy text) eqn:Ht;
         [|split; [simpl; lia|intros it []]];
         split; [simpl; lia|];
         intros it [<-|[]]; exists header, text;
         split; [reflexivity|]; split; [tauto|]; split; [reflexivity|];
         split; [now apply truthy_nonempty|]; split; [now apply Hx|];
         split; [reflexivity|];
         intros rest; unfold extract_text; cbn [item entries_get String.eqb
           Ascii.eqb Bool.eqb py_bool py_len];
         rewrite Ht; reflexivity).
  split; [simpl; lia|intros it []].
Qed.

End SpiderFacts.

(* ===================================================================== *)
(** ** The page script *)
(* ===================================================================== *)

Section AppFacts.

Variable Ext : Type.
Variable strftime : Ext -> string * Ext.
Variable status_placeholder_info :
  list (string * app_message) -> Ext -> res unit * Ext.
Variable result_placeholder_empty : Ext -> res unit * Ext.
Variable st_error : exn -> Ext -> res unit * Ext.
Variable perform_web_search : string -> Z -> Ext -> res (list string) * Ext.
Variable scrape_single_url : string -> Ext -> res (option string) * Ext.
Variable query_chat_model : string -> Ext -> res string * Ext.
Variables DDG_MAX_RESULTS MAX_SEARCH_ATTEMPTS : Z.
Variable CHAT_MODEL : string.

Let body := search_body Ext strftime status_placeholder_info
              perform_web_search scrape_single_url query_chat_model
              DDG_MAX_RESULTS MAX_SEARCH_ATTEMPTS CHAT_MODEL.
Let failed := search_failed Ext strftime st_error.
Let execution := search_execution Ext strftime status_placeholder_info
                   result_placeholder_empty st_error perform_web_search
                   scrape_single_url query_chat_model
                   DDG_MAX_RESULTS MAX_SEARCH_ATTEMPTS CHAT_MODEL.

Ltac app_simpl :=
  cbn [fst snd world trace session ext search_running status_messages
       final_result tried_urls_summary set_final_result store_results
       set_search_running reset_state] in *.

(** The [except] clause ends with the error text as the result, unless
    [st.error] raises. *)
Lemma search_failed_spec (e : exn) (s : state (app_world Ext)) :
  match failed e s with
  | (Return _, s') =>
      final_result (session (world s'))
      = "An error occurred. Please try again."
      /\ tried_urls_summary (session (world s'))
         = tried_urls_summary (session (world s))
      /\ trace s' = trace s
  | (Raise e', s') => exists x, fst (st_error e x) = Raise e'
  end.
Proof.
  unfold failed, search_failed, bind, step, outside, add_status_message,
    assign.
  destruct (st_error e (ext (world s))) as [[[]|e'] x1] eqn:E; app_simpl.
  - destruct (strftime x1) as [ts x2]. app_simpl. auto.
  - exists (ext (world s)). now rewrite E.
Qed.

(** The [try] block, along its branches: the status line of the search,
    the search, and what follows it. *)
Lemma search_body_spec (query : string) (s : state (app_world Ext)) :
  match status_placeholder_info
          (status_messages (session (world s))
           ++ [(fst (strftime (ext (world s))),
                MSearching DDG_MAX_RESULTS)])%list
          (snd (strftime (ext (world s)))) with
  | (Raise e, _) => fst (body query s) = Raise e
  | (Return _, x) =>
      match fst (perform_web_search query DDG_MAX_RESULTS x) with
      | Raise e => fst (body query s) = Raise e
      | Return [] =>
          fst (body query s) = Return tt
          /\ final_result (session (world (snd (body query s))))
             = "Could not find any relevant web pages for the query."
          /\ tried_urls_summary (session (world (snd (body query s))))
             = tried_urls_summary (session (world s))
          /\ trace (snd (body query s)) = trace s
      | Return search_urls =>
          forall s', body query s = (Return tt, s') ->
          (tried_urls_summary (session (world s'))
           = list_slice_to search_urls MAX_SEARCH_ATTEMPTS
           /\ final_result (session (world s'))
              = failure_message_of
                  (length (tried_urls_summary (session (world s')))))
          \/ exists n u p llm_response a,
               nth_error search_urls n = Some u
               /\ tried_urls_summary (session (world s'))
                  = firstn (S n) search_urls
               /\ In (EvJudge (S n) u p (Return llm_response)) (trace s')
               /\ accepted llm_response = Some a
               /\ final_result (session (world s')) = with_ref a u
      end
  end.
Proof.
  unfold body, search_body, bind, step, outside, add_status_message,
    show_status, assign.
  destruct (strftime (ext (world s))) as [ts x1]. app_simpl.
  unfold outside. app_simpl.
  destruct (status_placeholder_info _ x1) as [[[]|e] x2]; app_simpl;
    [|reflexivity].
  destruct (perform_web_search query DDG_MAX_RESULTS x2)
    as [[search_urls|e] x3]; app_simpl; [|reflexivity].
  destruct search_urls as [|url rest]; app_simpl.
  - destruct (strftime x3) as [ts' x4]. app_simpl. auto.
  - destruct (strftime x3) as [ts' x4]. app_simpl.
    destruct (status_placeholder_info _ x4) as [[[]|e] x5]; app_simpl;
      [|discriminate].
    destruct (app_session _ _ _ _ _ _ _ _ _ _) as [[out|e] s1] eqn:E;
      [|discriminate].
    destruct (strftime (ext (world s1))) as [ts'' x6]. app_simpl.
    intros s' H. injection H as <-. app_simpl.
    unfold app_session, run_search_session in E.
    destruct (for_loop_answers _ _ _ _ _ _ _ _ _ 1%nat [] _ _ _ I E)
      as [[Hf Ht]|(n & u & p & resp & a & Hn & Ht & Hin & Hacc & Hr)].
    + left. rewrite app_nil_l in Ht. rewrite Hf, Ht. auto.
    + right. destruct (list_slice_to_nth _ _ _ _ Hn) as [Hu Hlen].
      rewrite app_nil_l in Ht.
      rewrite (list_slice_to_prefix _ MAX_SEARCH_ATTEMPTS (S n)) in Ht
        by lia.
      exists n, u, p, resp, a. auto.
Qed.

(** X19. What the script leaves in the session state when the search
    execution completes, from a session state whatever and an empty trace:
    the flag [search_running] is down and [final_result] is not empty, so
    that the result is displayed.  When the status line of the search
    cannot be shown, or the search raises, the result is the text for an
    error.  When the search finds nothing it is the text for a search
    without results, with no URL tried and no page fetched or judged.
    When the search finds URLs it is the text for an error, or the
    exhaustion message of [run_search_session] for the first
    [MAX_SEARCH_ATTEMPTS] of them, or the answer that the parser accepts in
    a reply that the judge gave in this run for one of them, with the
    attribution line of that URL, the last one tried. *)
Theorem search_execution_result (search_button : bool) (query : string)
    (w : app_world Ext) :
  search_button && truthy query = true ->
  fst (execution search_button query (start w)) = Return tt ->
  let after := snd (execution search_button query (start w)) in
  let st := session (world after) in
  let clock1 := strftime (snd (result_placeholder_empty (ext w))) in
  let line1 := (fst clock1, MStarting) in
  let clock2 :=
    strftime (snd (status_placeholder_info [line1] (snd clock1))) in
  let line2 := (fst clock2, MSearching DDG_MAX_RESULTS) in
  search_running st = false
  /\ final_result st <> ""
  /\ match status_placeholder_info [line1; line2] (snd clock2) with
     | (Raise _, _) => final_result st = "An error occurred. Please try again."
     | (Return _, x) =>
         match fst (perform_web_search query DDG_MAX_RESULTS x) with
         | Raise _ =>
             final_result st = "An error occurred. Please try again."
         | Return [] =>
             final_result st
             = "Could not find any relevant web pages for the query."
             /\ tried_urls_summary st = []
             /\ trace after = []
         | Return search_urls =>
             final_result st = "An error occurred. Please try again."
             \/ (tried_urls_summary st
                 = list_slice_to search_urls MAX_SEARCH_ATTEMPTS
                 /\ final_result st
                    = failure_message_of (length (tried_urls_summary st)))
             \/ exists n u p llm_response a,
                  nth_error search_urls n = Some u
                  /\ tried_urls_summary st = firstn (S n) search_urls
                  /\ last (tried_urls_summary st) "" = u
                  /\ In (EvJudge (S n) u p (Return llm_response))
                        (trace after)
                  /\ parse_llm_sufficiency_response llm_response
                     = (Some a, true)
                  /\ final_result st = with_ref a u
         end
     end.
Proof.
  intros Hg. cbv zeta. unfold execution, search_execution. rewrite Hg.
  unfold bind, step, outside, add_status_message, show_status, assign.
  unfold start. app_simpl. unfold outside. app_simpl.
  destruct (result_placeholder_empty (ext w)) as [[[]|e] x1];
    app_simpl; [|discriminate].
  destruct (strftime x1) as [ts x2]. app_simpl. cbn [app].
  destruct (status_placeholder_info _ x2) as [[[]|e] x3]; app_simpl;
    [|discriminate].
  set (s3 := {| world := _; trace := [] |}).
  unfold try_except. fold body failed.
  pose proof (search_body_spec query s3) as Hb.
  subst s3. app_simpl. cbn [app] in Hb.
  set (s3 := {| world := _; trace := [] |}) in *.
  destruct (strftime x3) as [ts' x4]. app_simpl.
  assert (Herr : forall text,
            text = "An error occurred. Please try again." -> text <> "")
    by (intros text ->; discriminate).
  destruct (body query s3) as [[[]|e1] s4] eqn:Eb; app_simpl.
  - intros _. split; [reflexivity|].
    destruct (status_placeholder_info _ x4) as [[[]|e3] x5];
      [|discriminate].
    destruct (fst (perform_web_search query DDG_MAX_RESULTS x5))
      as [[|url rest]|e4]; [| |discriminate].
    + destruct Hb as (_ & Hf & Ht & Htr). rewrite Hf.
      split; [discriminate|]. auto.
    + destruct (Hb s4 eq_refl)
        as [[Ht Hf]|(n & u & p & resp & a & Hn & Ht & Hin & Hacc & Hf)].
      * rewrite Hf. split; [unfold failure_message_of; discriminate|].
        right. left. auto.
      * rewrite Hf. split;
          [unfold with_ref; destruct a; discriminate|].
        right. right. exists n, u, p, resp, a. split; [exact Hn|].
        split; [exact Ht|]. split.
        { rewrite Ht, (firstn_succ_snoc _ n u Hn). apply last_last. }
        split; [exact Hin|]. split; [now apply accepted_iff|reflexivity].
  - pose proof (search_failed_spec e1 s4) as Hh.
    destruct (failed e1 s4) as [[[]|e2] s5]; app_simpl; [|discriminate].
    intros _. destruct Hh as (Hf & _).
    split; [reflexivity|]. split; [now apply Herr|].
    destruct (status_placeholder_info _ x4) as [[[]|e3] x5]; [|exact Hf].
    destruct (fst (perform_web_search query DDG_MAX_RESULTS x5))
      as [[|url rest]|e4]; [|now left|exact Hf].
    destruct Hb as [Hb _]. discriminate.
Qed.

(** X20. The flag [search_running] is raised before the [try] statement: when
    [result_placeholder.empty()] or the first [status_placeholder.info]
    raises, the exception leaves the script and the flag stays up.  Past
    these two calls the [finally] clause takes the flag down whatever
    happens, and the only exception that can leave the script is one that
    [st.error] raised in the [except] clause. *)
Theorem search_execution_failures (search_button : bool) (query : string)
    (s : state (app_world Ext)) :
  search_button && truthy query = true ->
  let out := execution search_button query s in
  match result_placeholder_empty (ext (world s)) with
  | (Raise e, _) =>
      fst out = Raise e
      /\ search_running (session (world (snd out))) = true
  | (Return _, x1) =>
      match status_placeholder_info [(fst (strftime x1), MStarting)]
              (snd (strftime x1)) with
      | (Raise e, _) =>
          fst out = Raise e
          /\ search_running (session (world (snd out))) = true
      | (Return _, _) =>
          search_running (session (world (snd out))) = false
          /\ forall e, fst out = Raise e ->
                       exists e' x, fst (st_error e' x) = Raise e
      end
  end.
Proof.
  intros Hg. cbv zeta. unfold execution, search_execution. rewrite Hg.
  unfold bind, step, outside, add_status_message, show_status, assign.
  app_simpl. unfold outside. app_simpl.
  destruct (result_placeholder_empty (ext (world s))) as [[[]|e] x1];
    app_simpl; [|auto].
  destruct (strftime x1) as [ts x2]. app_simpl.
  destruct (status_placeholder_info _ x2) as [[[]|e] x3]; app_simpl;
    [|auto].
  set (s3 := {| world := _; trace := trace s |}).
  unfold try_except. fold body failed.
  destruct (body query s3) as [[[]|e1] s4]; app_simpl.
  - split; [reflexivity|discriminate].
  - pose proof (search_failed_spec e1 s4) as Hh.
    destruct (failed e1 s4) as [[[]|e2] s5]; app_simpl.
    + split; [reflexivity|discriminate].
    + split; [reflexivity|]. intros e H. injection H as <-.
      destruct Hh as [x Hx]. eauto.
Qed.

End AppFacts.

(* ===================================================================== *)
(** ** The session under the page script *)
(* ===================================================================== *)

Lemma noticed_app (evs evs' : list event) :
  noticed (evs ++ evs') = (noticed evs ++ noticed evs')%list.
Proof.
  induction evs as [|e evs IH]; [reflexivity|].
  destruct e; simpl; rewrite IH; reflexivity.
Qed.

Lemma attempt_trace_quiet (CHAT_MODEL query : string) (max_attempts : Z)
    (c : nat) (url : string) (tried : list string) (evs : list event)
    (out : option string) :
  attempt_trace CHAT_MODEL query max_attempts c url tried evs out ->
  quiet evs.
Proof.
  intros Hat ev Hin. destruct Hat; in_cases Hin; reflexivity.
Qed.

Lemma loop_trace_quiet (CHAT_MODEL query : string) (max_attempts : Z)
    (c : nat) (rest tried : list string) (evs : list event)
    (out : string * list string) :
  loop_trace CHAT_MODEL query max_attempts c rest tried evs out ->
  quiet evs.
Proof.
  induction 1 as [c tried|c url rest tried evs answer Ha
                 |c url rest tried evs evs' out Ha Hl IH].
  - intros ev Hin. in_cases Hin; reflexivity.
  - eapply attempt_trace_quiet; eauto.
  - intros ev Hin. apply in_app_or in Hin. destruct Hin as [Hin|Hin].
    + eapply attempt_trace_quiet; eauto.
    + now apply IH.
Qed.

Section AppSession.

Variable Ext : Type.
Variable strftime : Ext -> string * Ext.
Variable status_placeholder_info :
  list (string * app_message) -> Ext -> res unit * Ext.
Variable scrape_single_url : string -> Ext -> res (option string) * Ext.
Variable query_chat_model : string -> Ext -> res string * Ext.
Variable MAX_SEARCH_ATTEMPTS : Z.
Variable CHAT_MODEL : string.
Variable st0 : session_state.

Let callback := fun message : notice =>
  add_status_message Ext strftime (MAgent message).
Let info := show_status Ext status_placeholder_info.
Let fetch := fun url : string => outside Ext (scrape_single_url url).
Let judge := fun prompt : string => outside Ext (query_chat_model prompt).
Let ui := update_ui (app_world Ext) callback info.
Let Rec := @sink_record Ext st0.

Lemma keeps_outside {A : Type} (f : Ext -> res A * Ext)
    (ev : res A -> event) :
  (forall r, noticed [ev r] = []) ->
  (forall r message r', ev r <> EvNotice message r') ->
  keeps Rec (call (app_world Ext) (outside Ext f) ev).
Proof.
  intros Hn Hev s (H1 & H2 & H3 & H4 & H5). unfold call, outside.
  destruct (f (ext (world s))) as [r x].
  cbn [snd world trace session ext]. unfold Rec, sink_record.
  cbn [world trace session ext].
  rewrite noticed_app, Hn, app_nil_r.
  repeat split; auto.
  intros message r' Hin. apply in_app_or in Hin.
  destruct Hin as [Hin|[Hin|[]]]; [eauto|]. now apply Hev in Hin.
Qed.

Lemma keeps_update_ui (message : notice) : keeps Rec (ui message).
Proof.
  unfold ui, update_ui, update_status.
  apply keeps_bind.
  - intros s (H1 & H2 & H3 & H4 & H5).
    unfold call, callback, add_status_message.
    destruct (strftime (ext (world s))) as [timestamp x].
    cbn [snd world trace session ext]. unfold Rec, sink_record.
    cbn [world trace session ext status_messages search_running
         final_result tried_urls_summary].
    rewrite map_app, H1, noticed_app, map_app, <- app_assoc.
    repeat split; auto.
    intros m r Hin. apply in_app_or in Hin.
    destruct Hin as [Hin|[Hin|[]]]; [eauto|]. now injection Hin.
  - intros _. unfold info, show_status.
    intros s H. 
    pose proof (keeps_outside
                  (status_placeholder_info
                     (status_messages (session (world s))))
                  EvRender (fun _ => eq_refl)) as Hk.
    apply Hk; [discriminate|exact H].
Qed.

Lemma keeps_attempt (query : string) (max_attempts : Z) (c : nat)
    (url : string) (tried : list string) :
  keeps Rec (attempt (app_world Ext) fetch judge callback info CHAT_MODEL
               query max_attempts c url tried).
Proof.
  unfold attempt.
  apply keeps_bind; [apply keeps_update_ui|intros _].
  apply keeps_bind; [apply keeps_update_ui|intros _].
  apply keeps_bind.
  - unfold scrape_step. apply keeps_try.
    + apply keeps_bind.
      * apply keeps_outside; [reflexivity|discriminate].
      * intros scraped. destruct (usable scraped);
          (apply keeps_bind; [apply keeps_update_ui|intros _]);
          apply keeps_ret.
    + intros e. apply keeps_bind; [apply keeps_update_ui|intros _].
      apply keeps_ret.
  - intros [t|]; [|apply keeps_ret].
    apply keeps_bind; [apply keeps_update_ui|intros _].
    unfold analyze_step. apply keeps_try.
    + apply keeps_bind; [apply keeps_lift|intros sliced].
      apply keeps_bind.
      * apply keeps_outside; [reflexivity|discriminate].
      * intros resp. destruct (accepted resp);
          (apply keeps_bind; [apply keeps_update_ui|intros _]);
          apply keeps_ret.
    + intros e. apply keeps_bind; [apply keeps_update_ui|intros _].
      apply keeps_ret.
Qed.

Lemma keeps_for_loop (query : string) (max_attempts : Z)
    (rest : list string) :
  forall (c : nat) (tried : list string),
    keeps Rec (for_loop (app_world Ext) fetch judge callback info CHAT_MODEL
                 query max_attempts c rest tried).
Proof.
  induction rest as [|url rest IH]; intros c tried; cbn [for_loop].
  - apply keeps_bind; [apply keeps_update_ui|intros _]. apply keeps_ret.
  - apply keeps_bind; [apply keeps_attempt|].
    intros [answer|]; [apply keeps_ret|apply IH].
Qed.

End AppSession.

Section AppSessionFacts.

Variable Ext : Type.
Variable strftime : Ext -> string * Ext.
Variable status_placeholder_info :
  list (string * app_message) -> Ext -> res unit * Ext.
Variable scrape_single_url : string -> Ext -> res (option string) * Ext.
Variable query_chat_model : string -> Ext -> res string * Ext.
Variable MAX_SEARCH_ATTEMPTS : Z.
Variable CHAT_MODEL : string.

Let run := app_session Ext strftime status_placeholder_info
             scrape_single_url query_chat_model MAX_SEARCH_ATTEMPTS
             CHAT_MODEL.

(** X21. Under the page script, whether the session returns or raises: the
    status lines of the session state are those of before followed by the
    notices of the session, one line per notice and in their order; the
    keys [search_running], [final_result] and [tried_urls_summary] are not
    touched; and no call of the status callback raises, so that a sink
    failure can only come from the status placeholder. *)
Theorem status_lines_record_notices (query : string)
    (search_urls : list string) (w : app_world Ext) :
  let s' := snd (run query search_urls (start w)) in
  map snd (status_messages (session (world s')))
  = (map snd (status_messages (session w))
     ++ map MAgent (noticed (trace s')))%list
  /\ search_running (session (world s')) = search_running (session w)
  /\ final_result (session (world s')) = final_result (session w)
  /\ tried_urls_summary (session (world s')) = tried_urls_summary (session w)
  /\ (forall message r, In (EvNotice message r) (trace s') -> r = Return tt)
  /\ forall ev e, In ev (trace s') -> sink_raised ev = Some e ->
                  ev = EvRender (Raise e).
Proof.
  cbv zeta. unfold run, app_session, run_search_session.
  pose proof (keeps_for_loop Ext strftime status_placeholder_info
                scrape_single_url query_chat_model CHAT_MODEL (session w)
                query MAX_SEARCH_ATTEMPTS
                (list_slice_to search_urls MAX_SEARCH_ATTEMPTS) 1%nat []
                (start w)) as H.
  destruct H as (H1 & H2 & H3 & H4 & H5).
  { unfold sink_record. cbn [start world trace noticed map].
    rewrite app_nil_r. repeat split; auto. intros m r []. }
  repeat split; auto.
  intros ev e Hin Hs. destruct ev as [m [[]|e']|[[]|e']| |];
    try discriminate.
  - apply H5 in Hin. discriminate.
  - now injection Hs as ->.
Qed.

(** X22. Under the page script, when the status placeholder does not raise,
    every session returns, whatever the fetches and the judge do, and no
    sink call of its trace has raised. *)
Theorem app_session_returns (query : string) (search_urls : list string)
    (s : state (app_world Ext)) :
  (forall lines x, fst (status_placeholder_info lines x) = Return tt) ->
  exists out evs,
    fst (run query search_urls s) = Return out
    /\ trace (snd (run query search_urls s)) = (trace s ++ evs)%list
    /\ quiet evs
    /\ loop_trace CHAT_MODEL query MAX_SEARCH_ATTEMPTS 1
         (list_slice_to search_urls MAX_SEARCH_ATTEMPTS) [] evs out.
Proof.
  intros Hinfo. unfold run, app_session, run_search_session.
  destruct (for_loop_spec (app_world Ext)
              (fun url => outside Ext (scrape_single_url url))
              (fun prompt => outside Ext (query_chat_model prompt))
              (fun message => add_status_message Ext strftime (MAgent message))
              (show_status Ext status_placeholder_info) CHAT_MODEL)
    with (query := query) (max_attempts := MAX_SEARCH_ATTEMPTS)
         (rest := list_slice_to search_urls MAX_SEARCH_ATTEMPTS)
         (c := 1%nat) (tried := @nil string) (s := s)
    as (w' & evs & out & E & Hl).
  { split.
    - intros m w. unfold add_status_message.
      now destruct (strftime (ext w)).
    - intros w. unfold show_status, outside.
      specialize (Hinfo (status_messages (session w)) (ext w)).
      destruct (status_placeholder_info _ (ext w)) as [r x]. exact Hinfo. }
  exists out, evs. rewrite E. cbn [fst snd trace].
  split; [reflexivity|]. split; [reflexivity|].
  split; [eapply loop_trace_quiet; eauto|exact Hl].
Qed.

End AppSessionFacts.

(* ===================================================================== *)
(** ** Concrete runs of the other modules *)
(* ===================================================================== *)

Lemma answer_is_trimmed_witness :
  "Paris" <> "" /\ lstrip "Paris" = "Paris" /\ rstrip "Paris" = "Paris"
  /\ strip "Paris" = "Paris".
Proof.
  apply (answer_is_trimmed ("Final Answer:  Paris " ++ nl) "Paris").
  reflexivity.
Defined.

Lemma judge_follows_usable_fetch_witness :
  nth_error ["urlA"; "urlB"; "urlC"; "urlD"] 2 = Some "urlC"
  /\ forall u' p' r',
       In (EvJudge 3 u' p' r')
          (trace (snd (Demo.session "gemma3:4b" "q"
                         ["urlA"; "urlB"; "urlC"; "urlD"] 5 (start tt)))) ->
       u' = "urlC"
       /\ p' = SUFFICIENCY_CHECK_PROMPT_TEMPLATE_format "q" "urlC"
                 "text of page C"
       /\ r' = Return "Final Answer: Y".
Proof.
  destruct (judge_follows_usable_fetch unit Demo.scrape Demo.judge
              Demo.callback Demo.info "gemma3:4b"
              "q" ["urlA"; "urlB"; "urlC"; "urlD"] 5 tt 3%nat "urlC"
              (SUFFICIENCY_CHECK_PROMPT_TEMPLATE_format "q" "urlC"
                 "text of page C")
              (Return "Final Answer: Y"))
    as (_ & Hn & Hu).
  - unfold quiet. each_event.
  - vm_compute. pick_event.
  - split; [exact Hn|exact Hu].
Defined.

Lemma session_result_shape_witness :
  "Y" ++ nl ++ nl ++ "---" ++ nl ++ "*Source: " ++ "urlC" ++ "*" <> "".
Proof.
  apply (session_result_shape unit Demo.scrape Demo.judge Demo.callback
           Demo.info "gemma3:4b"
           "q" ["urlA"; "urlB"; "urlC"; "urlD"] 5 tt
           ("Y" ++ nl ++ nl ++ "---" ++ nl ++ "*Source: " ++ "urlC" ++ "*")
           ["urlA"; "urlB"; "urlC"]).
  reflexivity.
Defined.

Lemma tried_urls_prefix_witness :
  NoDup (fetched_urls
           (trace (snd (Demo.session "gemma3:4b" "q"
                          ["urlA"; "urlB"; "urlC"; "urlD"] 5 (start tt))))).
Proof.
  apply (tried_urls_prefix unit Demo.scrape Demo.judge Demo.callback
           Demo.info "gemma3:4b"
           "q" ["urlA"; "urlB"; "urlC"; "urlD"] 5 tt).
  repeat constructor; simpl; intuition discriminate.
Defined.

Lemma scrape_failures_contained_witness :
  exists before ev,
    fs_trace (snd (DemoFs.scrape_denied "http://example.com" (fs_start tt)))
    = (before ++ [ev])%list
    /\ (ev = FsIsDir (Fail (Raised OSError "Permission denied"))
        \/ (exists path,
              ev = FsExists path (Fail (Raised OSError "Permission denied")))
        \/ (exists path,
              ev = FsRemove path (Fail (Raised OSError "Permission denied"))
              /\ raised_class (Raised OSError "Permission denied")
                 <> OSError)).
Proof.
  apply (scrape_failures_contained unit DemoFs.is_dir_denied
           DemoFs.named_temporary_file DemoFs.subprocess_run
           DemoFs.path_exists DemoFs.stat_size DemoFs.json_load
           DemoFs.read_text DemoFs.os_remove
           "http://example.com" tt (Raised OSError "Permission denied")).
  reflexivity.
Defined.

Lemma temp_file_cleanup_witness :
  ends_with_cleanup "/tmp/tmpab12.json"
    (fs_trace (snd (DemoFs.scrape "http://example.com" (fs_start tt))))
  /\ forall q r,
       In (FsRemove q r)
          (fs_trace (snd (DemoFs.scrape "http://example.com" (fs_start tt)))) ->
       q = "/tmp/tmpab12.json".
Proof.
  destruct (temp_file_cleanup unit DemoFs.is_dir
              DemoFs.named_temporary_file DemoFs.subprocess_run
              DemoFs.path_exists DemoFs.stat_size DemoFs.json_load
              DemoFs.read_text DemoFs.os_remove
              "http://example.com" tt (TmpCreated "/tmp/tmpab12.json")
              "/tmp/tmpab12.json")
    as (He & Hr & _).
  - vm_compute. pick_event.
  - reflexivity.
  - reflexivity.
  - split; [exact He|exact Hr].
Defined.

Lemma scrape_value_origin_witness :
  exists path proc first_item rest text,
    In (FsRun (scrapy_command "http://example.com" path) (Done proc))
       (fs_trace (snd (DemoFs.scrape "http://example.com" (fs_start tt))))
    /\ returncode proc = 0
    /\ In (FsLoad path (Done (VList (first_item :: rest))))
         (fs_trace (snd (DemoFs.scrape "http://example.com" (fs_start tt))))
    /\ item first_item "text" = Some text
    /\ ((py_bool text = true /\ VStr "Example Domain" = text
         /\ exists n, py_len text = Done n)
        \/ (py_bool text = false /\ VStr "Example Domain" = VStr "")).
Proof.
  apply (scrape_value_origin unit DemoFs.is_dir
           DemoFs.named_temporary_file DemoFs.subprocess_run
           DemoFs.path_exists DemoFs.stat_size DemoFs.json_load
           DemoFs.read_text DemoFs.os_remove
           "http://example.com" tt (VStr "Example Domain")).
  reflexivity.
Defined.

Lemma scrape_exit_status_witness :
  (forall p r,
     ~ In (FsLoad p r)
         (fs_trace (snd (DemoFs.scrape_exit2 "http://example.com"
                           (fs_start tt)))))
  /\ forall v,
       fst (DemoFs.scrape_exit2 "http://example.com" (fs_start tt))
       <> Done (Some v).
Proof.
  destruct (scrape_exit_status unit DemoFs.is_dir
              DemoFs.named_temporary_file DemoFs.subprocess_run_exit2
              DemoFs.path_exists DemoFs.stat_size DemoFs.json_load
              DemoFs.read_text DemoFs.os_remove
              "http://example.com" tt
              (scrapy_command "http://example.com" "/tmp/tmpab12.json")
              {| returncode := 2; stdout := ""; stderr := "Usage" |})
    as (Hl & _ & Hv & _).
  - vm_compute. pick_event.
  - discriminate.
  - split; [exact Hl|exact Hv].
Defined.

Lemma search_execution_result_witness :
  search_running
    (session (world (snd (DemoApp.execution true "q" DemoApp.fresh))))
  = false
  /\ final_result
       (session (world (snd (DemoApp.execution true "q" DemoApp.fresh))))
     <> "".
Proof.
  destruct (search_execution_result unit DemoApp.strftime
              DemoApp.status_placeholder_info
              DemoApp.result_placeholder_empty DemoApp.st_error
              DemoApp.perform_web_search Demo.scrape Demo.judge
              5 5 "gemma3:4b" true "q" (world DemoApp.fresh))
    as (Hr & Hne & _).
  - reflexivity.
  - vm_compute. reflexivity.
  - split; [exact Hr|exact Hne].
Defined.

Lemma search_execution_failures_witness :
  fst (DemoApp.broken_execution true "q" DemoApp.fresh)
  = Raise (Exn "no frontend")
  /\ search_running
       (session (world (snd (DemoApp.broken_execution true "q"
                               DemoApp.fresh))))
     = true.
Proof.
  exact (search_execution_failures unit DemoApp.strftime
           DemoApp.broken_info
           DemoApp.result_placeholder_empty DemoApp.st_error
           DemoApp.perform_web_search Demo.scrape Demo.judge
           5 5 "gemma3:4b" true "q" DemoApp.fresh eq_refl).
Defined.

Lemma app_session_returns_witness :
  exists out evs,
    fst (app_session unit DemoApp.strftime DemoApp.status_placeholder_info
           Demo.scrape Demo.judge 5 "gemma3:4b" "q" ["urlB"; "urlC"]
           DemoApp.fresh) = Return out
    /\ quiet evs.
Proof.
  destruct (app_session_returns unit DemoApp.strftime
              DemoApp.status_placeholder_info Demo.scrape Demo.judge
              5 "gemma3:4b" "q" ["urlB"; "urlC"] DemoApp.fresh)
    as (out & evs & Hr & _ & Hq & _).
  - reflexivity.
  - exists out, evs. split; [exact Hr|exact Hq].
Defined.

Lemma parse_urls_single_witness :
  _parse_urls DemoSpider.urlparse_scheme (Some "http://example.com")
  = Done ["http://example.com"].
Proof.
  apply (parse_urls_single DemoSpider.urlparse_scheme
           "http://example.com" "http").
  - discriminate.
  - reflexivity.
  - simpl. intuition discriminate.
  - reflexivity.
Defined.

(** A URL with a comma in it reaches the spider as two start URLs. *)
Example start_urls_with_comma :
  _parse_urls DemoSpider.urlparse_scheme (Some "http://a.org/x,y")
  = Done ["http://a.org/x"; "http://y"].
Proof. reflexivity. Qed.

(** The page script on the scripted pages: the answer of page C, the two
    URLs tried, and fourteen status lines (three of the script, the ten
    notices of the session, and the closing line). *)
Example page_script_run :
  final_result
    (session (world (snd (DemoApp.execution true "q" DemoApp.fresh))))
  = with_ref "Y" "urlC"
  /\ tried_urls_summary
       (session (world (snd (DemoApp.execution true "q" DemoApp.fresh))))
     = ["urlB"; "urlC"]
  /\ length (status_messages
               (session (world (snd (DemoApp.execution true "q"
                                        DemoApp.fresh)))))
     = 14%nat.
Proof. vm_compute. repeat split. Qed.
